(** * AIStudioToAPI: the request bridge between HTTP handlers and browser agents

    A shallow embedding of the parts of the code base that carry the
    behaviour of the message queue ([src/utils/MessageQueue.js]), the
    connection registry ([src/core/ConnectionRegistry.js]), the request
    pipeline ([src/core/RequestHandler.js]) and the in-page agent
    ([scripts/client/build.js]), with the properties proved about them.

    Conventions.  JavaScript objects that are shared and mutated (queues)
    live in a store indexed by references.  Promises are identified by
    natural numbers; the order in which they are settled is recorded.
    Timers are handles kept in a list of pending handles: a timer can fire
    only while its handle is pending, and [clearTimeout] removes it.  The
    passage of time itself is not modelled: "within the grace window" means
    "before the grace timer fires". *)

From Stdlib Require Import ZArith Ascii String DecimalString.
From stdpp Require Import gmap strings list fin_maps.

Set Warnings "-register-all".

Local Open Scope Z_scope.

(** ** JavaScript string primitives *)

Module JS.

(** Whether [p] is an initial segment of [s]. *)
Fixpoint isPrefix (p s : string) : bool :=
  match p with
  | EmptyString => true
  | String a p' =>
      match s with
      | EmptyString => false
      | String b s' => Ascii.eqb a b && isPrefix p' s'
      end
  end.

(** [s.includes(sub)] *)
Fixpoint includes (s sub : string) : bool :=
  if isPrefix sub s then true
  else match s with
       | EmptyString => false
       | String _ s' => includes s' sub
       end.

(** [s.startsWith(p)] *)
Definition startsWith (s p : string) : bool := isPrefix p s.

(** [s.indexOf(sub)], [None] for -1 *)
Fixpoint indexOf (s sub : string) : option nat :=
  if isPrefix sub s then Some 0%nat
  else match s with
       | EmptyString => None
       | String _ s' => S <$> indexOf s' sub
       end.

(** [s.substring(n)] *)
Fixpoint substringFrom (n : nat) (s : string) : string :=
  match n, s with
  | S n', String _ s' => substringFrom n' s'
  | _, _ => s
  end.

(** [s.replace(pat, rep)] for a string pattern: the first occurrence. *)
Fixpoint replaceFirst (s pat rep : string) : string :=
  if isPrefix pat s then rep +:+ substringFrom (String.length pat) s
  else match s with
       | EmptyString => EmptyString
       | String c s' => String c (replaceFirst s' pat rep)
       end.


Definition upperChar (c : ascii) : ascii :=
  let n := nat_of_ascii c in
  if (97 <=? n)%nat && (n <=? 122)%nat then ascii_of_nat (n - 32) else c.

Definition lowerChar (c : ascii) : ascii :=
  let n := nat_of_ascii c in
  if (65 <=? n)%nat && (n <=? 90)%nat then ascii_of_nat (n + 32) else c.

Fixpoint mapString (f : ascii → ascii) (s : string) : string :=
  match s with
  | EmptyString => EmptyString
  | String c s' => String (f c) (mapString f s')
  end.

(** [s.toUpperCase()] and [s.toLowerCase()], on ASCII *)
Definition toUpperCase : string → string := mapString upperChar.
Definition toLowerCase : string → string := mapString lowerChar.

(** The longest prefix without a character of [stop], and the rest. *)
Fixpoint span (stop : ascii → bool) (s : string) : string * string :=
  match s with
  | EmptyString => (EmptyString, EmptyString)
  | String c s' =>
      if stop c then (EmptyString, s)
      else let r := span stop s' in (String c r.1, r.2)
  end.

(** [s.split(c)] for a one-character separator *)
Fixpoint split (sep : ascii) (s : string) : list string :=
  match s with
  | EmptyString => [EmptyString]
  | String c s' =>
      if Ascii.eqb c sep then EmptyString :: split sep s'
      else match split sep s' with
           | seg :: segs => String c seg :: segs
           | [] => [String c EmptyString]
           end
  end.

(** [a || d] on a value that is a string, [null] or [undefined]: the empty
    string is falsy. *)
Definition or_string (a : option string) (d : string) : string :=
  match a with
  | Some EmptyString | None => d
  | Some r => r
  end.

End JS.

(** ** src/utils/MessageQueue.js

    The file holds the class twice: an earlier revision (the first [class
    MessageQueue]) and the current one (the second, which is the one bound
    to [module.exports] last).  They differ in [enqueue], in the error of
    [dequeue] on a closed queue, in the timer callback and in [close], as
    marked below by the [revision]. *)

Module MessageQueue.

Inductive revision : Type := Earlier | Current.

(** [QueueClosedError(message, reason)] and [QueueTimeoutError(message)] *)
Inductive QueueError : Type :=
  | QueueClosedError (message reason : string)
  | QueueTimeoutError (message : string).

Definition closedMessage (reason : string) : string :=
  "Queue is closed (reason: " +:+ reason +:+ ")".

Inductive settlement (A : Type) : Type :=
  | Resolved (value : A)
  | Rejected (error : QueueError).
Arguments Resolved {A} value.
Arguments Rejected {A} error.

(** The object pushed on [waitingResolvers]: the promise it settles and the
    handle of its timer ([null] once the timer has fired). *)
Record resolver : Type := Resolver { promise : nat; timeoutId : option nat }.

(** The fields of a [MessageQueue] object together with what the event
    loop holds for it: pending timers (handle, delay), the promises settled
    so far in order, and the next promise identity. *)
Record t (A : Type) : Type := Queue {
  messages : list A;
  waitingResolvers : list resolver;
  defaultTimeout : Z;
  closed : bool;
  closeReason : option string;
  timers : list (nat * Z);
  settled : list (nat * settlement A);
  fresh : nat
}.
Arguments Queue {A}.
Arguments messages {A}.
Arguments waitingResolvers {A}.
Arguments defaultTimeout {A}.
Arguments closed {A}.
Arguments closeReason {A}.
Arguments timers {A}.
Arguments settled {A}.
Arguments fresh {A}.

Section Operations.
Context {A : Type}.
Variable rev : revision.

(** [new MessageQueue(timeoutMs = 300000)] *)
Definition new (timeoutMs : option Z) : t A :=
  Queue [] [] (default 300000 timeoutMs) false None [] [] 0%nat.

Definition isSettled (p : nat) (l : list (nat * settlement A)) : bool :=
  existsb (fun x => Nat.eqb x.1 p) l.

(** Settling a promise twice keeps the first outcome. *)
Definition settle (p : nat) (o : settlement A) (l : list (nat * settlement A))
  : list (nat * settlement A) :=
  if isSettled p l then l else l ++ [(p, o)].

Definition clearTimeout (h : option nat) (ts : list (nat * Z)) : list (nat * Z) :=
  match h with
  | Some i => filter (fun x => x.1 ≠ i) ts
  | None => ts
  end.

(** [waitingResolvers.indexOf(resolver)] followed by [splice(index, 1)] *)
Fixpoint spliceResolver (p : nat) (l : list resolver) : list resolver :=
  match l with
  | [] => []
  | r :: l' => if Nat.eqb (promise r) p then l' else r :: spliceResolver p l'
  end.

Definition isWaiting (p : nat) (l : list resolver) : bool :=
  existsb (fun r => Nat.eqb (promise r) p) l.

Definition enqueue (message : A) (q : t A) : t A :=
  if closed q then q
  else match waitingResolvers q with
       | resolver :: rest =>
           let resolve :=
             Queue (messages q) rest (defaultTimeout q) false (closeReason q)
                   (clearTimeout (timeoutId resolver) (timers q))
                   (settle (promise resolver) (Resolved message) (settled q))
                   (fresh q) in
           let push :=
             Queue (messages q ++ [message]) rest (defaultTimeout q) false
                   (closeReason q) (timers q) (settled q) (fresh q) in
           match rev, timeoutId resolver with
           | Earlier, _ => resolve
           | Current, Some _ => resolve
           | Current, None => push
           end
       | [] =>
           Queue (messages q ++ [message]) [] (defaultTimeout q) false
                 (closeReason q) (timers q) (settled q) (fresh q)
       end.

(** The error thrown by [dequeue] on a closed queue. *)
Definition closedError (q : t A) : QueueError :=
  match rev with
  | Earlier => QueueClosedError "Queue is closed" "unknown"
  | Current =>
      let reason := JS.or_string (closeReason q) "unknown" in
      QueueClosedError (closedMessage reason) reason
  end.

(** [dequeue(timeoutMs = this.defaultTimeout)]: returns the promise. *)
Definition dequeue (timeoutMs : option Z) (q : t A) : nat * t A :=
  let p := fresh q in
  if closed q then
    (p, Queue (messages q) (waitingResolvers q) (defaultTimeout q) true
              (closeReason q) (timers q)
              (settle p (Rejected (closedError q)) (settled q)) (S p))
  else match messages q with
       | m :: rest =>
           (p, Queue rest (waitingResolvers q) (defaultTimeout q) false
                     (closeReason q) (timers q)
                     (settle p (Resolved m) (settled q)) (S p))
       | [] =>
           (p, Queue [] (waitingResolvers q ++ [Resolver p (Some p)])
                     (defaultTimeout q) false (closeReason q)
                     (timers q ++ [(p, default (defaultTimeout q) timeoutMs)])
                     (settled q) (S p))
       end.

(** The callback given to [setTimeout] in [dequeue], for the resolver of
    promise [p].  It runs only if its timer is still pending. *)
Definition timeout (p : nat) (q : t A) : t A :=
  if existsb (fun x => Nat.eqb x.1 p) (timers q) then
    let ts := clearTimeout (Some p) (timers q) in
    match rev with
    | Earlier =>
        if isWaiting p (waitingResolvers q) then
          Queue (messages q) (spliceResolver p (waitingResolvers q))
                (defaultTimeout q) (closed q) (closeReason q) ts
                (settle p (Rejected (QueueTimeoutError "Queue timeout")) (settled q))
                (fresh q)
        else
          Queue (messages q) (waitingResolvers q) (defaultTimeout q) (closed q)
                (closeReason q) ts (settled q) (fresh q)
    | Current =>
        Queue (messages q) (spliceResolver p (waitingResolvers q))
              (defaultTimeout q) (closed q) (closeReason q) ts
              (settle p (Rejected (QueueTimeoutError "Queue timeout")) (settled q))
              (fresh q)
    end
  else q.

(** [close(reason = "unknown")] *)
Definition close (reason : option string) (q : t A) : t A :=
  let r := default "unknown" reason in
  let reject acc resolver :=
    (clearTimeout (timeoutId resolver) acc.1,
     settle (promise resolver) (Rejected (QueueClosedError (closedMessage r) r)) acc.2) in
  let acc := foldl reject (timers q, settled q) (waitingResolvers q) in
  Queue [] [] (defaultTimeout q) true
        (match rev with Earlier => closeReason q | Current => Some r end)
        acc.1 acc.2 (fresh q).

(** What the consumer sees of promise [p]. *)
Definition outcome (p : nat) (q : t A) : option (settlement A) :=
  snd <$> List.find (fun x => Nat.eqb x.1 p) (settled q).

Definition isParked (p : nat) (q : t A) : bool :=
  isWaiting p (waitingResolvers q) && negb (isSettled p (settled q)).

(** Values handed to consumers, in the order they were handed out. *)
Definition delivered (q : t A) : list A :=
  omap (fun x => match x.2 with Resolved v => Some v | Rejected _ => None end)
       (settled q).

(** A run of the queue: calls on the object and timers firing. *)
Inductive op : Type :=
  | Enqueue (message : A)
  | Dequeue (timeoutMs : option Z)
  | Close (reason : option string)
  | Timeout (p : nat).

Definition step (q : t A) (o : op) : t A :=
  match o with
  | Enqueue m => enqueue m q
  | Dequeue tm => (dequeue tm q).2
  | Close r => close r q
  | Timeout p => timeout p q
  end.

Definition run (ops : list op) (q : t A) : t A := foldl step q ops.

Definition enqueued (ops : list op) : list A :=
  omap (fun o => match o with Enqueue m => Some m | _ => None end) ops.

End Operations.

End MessageQueue.

(** ** JSON values

    What [JSON.parse] returns and [JSON.stringify] accepts.  Numbers are
    integers (status codes, counters); a property that is absent reads as
    [None], which stands for [undefined]. *)

Module Json.

Inductive value : Type :=
  | Null
  | Bool (b : bool)
  | Num (n : Z)
  | Str (s : string)
  | Arr (items : list value)
  | Obj (fields : list (string * value)).

Fixpoint assoc {V : Type} (k : string) (fs : list (string * V)) : option V :=
  match fs with
  | [] => None
  | (k', v) :: fs' => if String.eqb k' k then Some v else assoc k fs'
  end.

(** [fs[k] = x] on the own properties of an object *)
Fixpoint assign {V : Type} (k : string) (x : V) (fs : list (string * V))
  : list (string * V) :=
  match fs with
  | [] => [(k, x)]
  | (k', v) :: fs' =>
      if String.eqb k' k then (k', x) :: fs' else (k', v) :: assign k x fs'
  end.

(** [v.k] for [v] that is neither [null] nor [undefined] *)
Definition get (k : string) (v : value) : option value :=
  match v with
  | Obj fs => assoc k fs
  | _ => None
  end.

(** [o?.k] *)
Definition getOpt (k : string) (o : option value) : option value :=
  match o with
  | Some Null | None => None
  | Some v => get k v
  end.

(** [o?.[0]]: the first element of an array, the property ["0"] of an
    object, the first character of a string. *)
Definition first (o : option value) : option value :=
  match o with
  | Some (Arr l) => head l
  | Some (Obj fs) => assoc "0" fs
  | Some (Str (String c _)) => Some (Str (String c EmptyString))
  | _ => None
  end.

Definition truthy (o : option value) : bool :=
  match o with
  | None | Some Null => false
  | Some (Bool b) => b
  | Some (Num n) => negb (Z.eqb n 0)
  | Some (Str s) => negb (String.eqb s "")
  | Some (Arr _) | Some (Obj _) => true
  end.

(** [v === true] *)
Definition isTrue (o : option value) : bool :=
  match o with
  | Some (Bool true) => true
  | _ => false
  end.

(** [v === s] for a string literal [s] *)
Definition isStr (s : string) (o : option value) : bool :=
  match o with
  | Some (Str s') => String.eqb s' s
  | _ => false
  end.

Definition ofZ (n : Z) : string := NilZero.string_of_int (Z.to_int n).

Definition dquote : string := String (ascii_of_nat 34) EmptyString.
Definition backslash : string := String (ascii_of_nat 92) EmptyString.

(** Escaping inside a JSON string literal: the quote, the backslash and the
    control characters that have a short form (the other control
    characters, which JSON writes as [\u00XX], are left as they are). *)
Fixpoint escape (s : string) : string :=
  match s with
  | EmptyString => EmptyString
  | String c s' =>
      let n := nat_of_ascii c in
      (if Nat.eqb n 34 then backslash +:+ dquote
       else if Nat.eqb n 92 then backslash +:+ backslash
       else if Nat.eqb n 10 then backslash +:+ "n"
       else if Nat.eqb n 13 then backslash +:+ "r"
       else if Nat.eqb n 9 then backslash +:+ "t"
       else if Nat.eqb n 8 then backslash +:+ "b"
       else if Nat.eqb n 12 then backslash +:+ "f"
       else String c EmptyString) +:+ escape s'
  end.

Definition quote (s : string) : string := dquote +:+ escape s +:+ dquote.

(** [JSON.stringify(v)] *)
Fixpoint stringify (v : value) : string :=
  match v with
  | Null => "null"
  | Bool true => "true"
  | Bool false => "false"
  | Num n => ofZ n
  | Str s => quote s
  | Arr l => "[" +:+ String.concat "," (List.map stringify l) +:+ "]"
  | Obj fs =>
      "{" +:+ String.concat ","
                (List.map (fun kv => quote kv.1 +:+ ":" +:+ stringify kv.2) fs)
          +:+ "}"
  end.

(** A property whose value is [undefined] is left out by [JSON.stringify]. *)
Definition field (k : string) (o : option value) : list (string * value) :=
  match o with
  | Some v => [(k, v)]
  | None => []
  end.

(** [String(v)]: an array joins its elements with commas, [null] among
    them reading as empty. *)
Fixpoint toString (v : value) : string :=
  match v with
  | Null => "null"
  | Bool true => "true"
  | Bool false => "false"
  | Num n => ofZ n
  | Str s => s
  | Arr l =>
      String.concat ","
        (List.map (fun x => match x with Null => "" | _ => toString x end) l)
  | Obj _ => "[object Object]"
  end.

(** [`${v}`] *)
Definition template (o : option value) : string :=
  match o with
  | None => "undefined"
  | Some v => toString v
  end.

(** *** Objects that are mutated

    The code that mutates the bodies is that of classes and so strict:
    creating a property on a primitive value throws.  An array takes a named
    property, which [JSON.stringify] does not show: in this model the
    assignment is lost at once. *)

Inductive bodyError : Type :=
  | CannotCreateProperty (property : string)
  | CannotSetProperty (property : string)
  | CannotReadProperty (property : string)
  | NotAFunction (property : string).

(** [o.k = x] *)
Definition setProperty (k : string) (x : value) (o : value) : bodyError + value :=
  match o with
  | Obj fs => inr (Obj (assign k x fs))
  | Arr _ => inr o
  | Null => inl (CannotSetProperty k)
  | _ => inl (CannotCreateProperty k)
  end.

(** [delete o[k]] on the own properties of an object *)
Definition remove {V : Type} (k : string) (fs : list (string * V)) : list (string * V) :=
  List.filter (fun kv => negb (String.eqb kv.1 k)) fs.

Definition indexed {B : Type} (f : B → value) (l : list B) : list (string * value) :=
  imap (fun i x => (ofZ (Z.of_nat i), f x)) l.

(** The own enumerable properties that [{...v}] copies. *)
Definition spreadOf (v : option value) : list (string * value) :=
  match v with
  | Some (Obj fs) => fs
  | Some (Arr l) => indexed id l
  | Some (Str s) => indexed (fun c => Str (String c EmptyString)) (list_ascii_of_string s)
  | _ => []
  end.

End Json.

(** ** The platform's [URL] and [URLSearchParams]

    A model of the two classes on the strings this code gives them:
    absolute [http]/[https] URLs and path-and-query strings, already in
    normal form.  The model takes no account of percent-encoding, of
    default ports, of case folding of the host, of dot segments, or of
    schemes other than [http] and [https] (for which [parse] answers [None]
    although the constructor would not throw).  The fragment is parsed and
    dropped, as no code here reads it. *)

Module Url.

Record t : Type := URL {
  protocol : string;
  host : string;
  pathname : string;
  search : string
}.

Definition isQueryOrHash (c : ascii) : bool := Ascii.eqb c "?" || Ascii.eqb c "#".
Definition isPathQueryOrHash (c : ascii) : bool := Ascii.eqb c "/" || isQueryOrHash c.
Definition isHash (c : ascii) : bool := Ascii.eqb c "#".

(** Path and query of what follows the authority. *)
Definition pathAndSearch (s : string) : string * string :=
  let p := JS.span isQueryOrHash s in
  let q := JS.span isHash p.2 in
  (if String.eqb p.1 "" then "/" else p.1,
   match q.1 with
   | String _ (String _ _) => q.1
   | _ => ""
   end).

Definition stripScheme (s : string) : option (string * string) :=
  if JS.isPrefix "https://" s then Some ("https:", JS.substringFrom 8 s)
  else if JS.isPrefix "http://" s then Some ("http:", JS.substringFrom 7 s)
  else None.

(** [new URL(s)]; [None] when it throws. *)
Definition parse (s : string) : option t :=
  match stripScheme s with
  | Some (proto, rest) =>
      let a := JS.span isPathQueryOrHash rest in
      if String.eqb a.1 "" then None
      else let ps := pathAndSearch a.2 in Some (URL proto a.1 ps.1 ps.2)
  | None => None
  end.




(** *** URLSearchParams, as the list of its pairs *)

Definition params := list (string * string).



(** [params.toString()] *)
Definition serialize (l : params) : string :=
  String.concat "&" (List.map (fun kv => kv.1 +:+ "=" +:+ kv.2) l).


Definition has (k : string) (l : params) : bool :=
  existsb (fun kv => String.eqb kv.1 k) l.

(** [params.get(k)]: the first value *)
Definition get (k : string) (l : params) : option string := Json.assoc k l.

(** [params.delete(k)]: every pair of that name *)
Definition delete (k : string) (l : params) : params :=
  List.filter (fun kv => negb (String.eqb kv.1 k)) l.

End Url.

(** ** src/core/ConnectionRegistry.js *)

Module ConnectionRegistry.

Abbreviation queue := (MessageQueue.t Json.value).

(** The fields of the registry object.  [connections] is the [Set] of
    sockets, [messageQueues] the [Map] from request id to queue object (a
    reference into the store), [onConnectionLostCallback] records whether a
    callback was given to the constructor. *)
Record registry : Type := Registry {
  connections : list nat;
  messageQueues : gmap string nat;
  reconnectGraceTimer : option nat;
  isReconnecting : bool;
  onConnectionLostCallback : bool
}.

(** The registry with the objects it refers to and the event loop around
    it: the store of queue objects, the grace timers that are pending, how
    often the callback was invoked, and the events emitted. *)
Record t : Type := World {
  this : registry;
  store : gmap nat queue;
  nextQueue : nat;
  graceTimers : list nat;
  nextTimer : nat;
  callbackCalls : nat;
  emitted : list string
}.

Definition new (callback : bool) : t :=
  World (Registry [] ∅ None false callback) ∅ 0%nat [] 0%nat 0%nat [].

Definition clearTimeout (h : option nat) (ts : list nat) : list nat :=
  match h with
  | Some i => filter (fun x => x ≠ i) ts
  | None => ts
  end.

(** [this.messageQueues.forEach(queue => queue.close())]: every queue object
    the map refers to is closed, with no argument. *)
Definition closeAll (m : gmap string nat) (st : gmap nat queue) : gmap nat queue :=
  map_imap (fun l q =>
              Some (if decide (l ∈ (map_img m : gset nat))
                    then MessageQueue.close MessageQueue.Current None q
                    else q)) st.

Definition addConnection (websocket : nat) (w : t) : t :=
  let r := this w in
  let cleaned :=
    match reconnectGraceTimer r with
    | Some h =>
        (Registry (connections r) ∅ None (isReconnecting r)
                  (onConnectionLostCallback r),
         closeAll (messageQueues r) (store w),
         clearTimeout (Some h) (graceTimers w))
    | None => (r, store w, graceTimers w)
    end in
  let r' := cleaned.1.1 in
  World (Registry (if bool_decide (websocket ∈ connections r') then connections r'
                   else connections r' ++ [websocket])
                  (messageQueues r') (reconnectGraceTimer r') (isReconnecting r')
                  (onConnectionLostCallback r'))
        cleaned.1.2 (nextQueue w) cleaned.2 (nextTimer w) (callbackCalls w)
        (emitted w ++ ["connectionAdded"]).

Definition _removeConnection (websocket : nat) (w : t) : t :=
  let r := this w in
  let h := nextTimer w in
  World (Registry (filter (fun x => x ≠ websocket) (connections r))
                  (messageQueues r) (Some h) (isReconnecting r)
                  (onConnectionLostCallback r))
        (store w) (nextQueue w)
        (clearTimeout (reconnectGraceTimer r) (graceTimers w) ++ [h])
        (S h) (callbackCalls w)
        (emitted w ++ ["connectionRemoved"]).

(** The callback given to [setTimeout] in [_removeConnection], up to its
    [await]; it runs only if timer [h] is still pending.  When the
    reconnect callback is invoked the function is suspended and
    [callbackReturn] is the rest of it. *)
Definition graceTimerFire (h : nat) (w : t) : t :=
  if bool_decide (h ∈ graceTimers w) then
    let r := this w in
    let st := closeAll (messageQueues r) (store w) in
    let ts := clearTimeout (Some h) (graceTimers w) in
    if onConnectionLostCallback r && negb (isReconnecting r) then
      World (Registry (connections r) ∅ (reconnectGraceTimer r) true
                      (onConnectionLostCallback r))
            st (nextQueue w) ts (nextTimer w) (S (callbackCalls w)) (emitted w)
    else
      World (Registry (connections r) ∅ None (isReconnecting r)
                      (onConnectionLostCallback r))
            st (nextQueue w) ts (nextTimer w) (callbackCalls w)
            (emitted w ++ ["connectionLost"])
  else w.

(** The continuation after [await this.onConnectionLostCallback()]. *)
Definition callbackReturn (w : t) : t :=
  let r := this w in
  if isReconnecting r then
    World (Registry (connections r) (messageQueues r) None false
                    (onConnectionLostCallback r))
          (store w) (nextQueue w) (graceTimers w) (nextTimer w)
          (callbackCalls w) (emitted w ++ ["connectionLost"])
  else w.

Definition updateStore (st : gmap nat queue) (w : t) : t :=
  World (this w) st (nextQueue w) (graceTimers w) (nextTimer w)
        (callbackCalls w) (emitted w).

Definition _routeMessage (message : Json.value) (l : nat) (w : t) : t :=
  let enqueue m := updateStore (alter (MessageQueue.enqueue MessageQueue.Current m) l (store w)) w in
  match Json.get "event_type" message with
  | Some (Json.Str "response_headers")
  | Some (Json.Str "chunk")
  | Some (Json.Str "error") => enqueue message
  | Some (Json.Str "stream_close") =>
      enqueue (Json.Obj [("type", Json.Str "STREAM_END")])
  | _ => w
  end.

(** [_handleIncomingMessage], given the result of [JSON.parse(messageData)]
    ([None] when it throws).  A [request_id] that is falsy is refused; one
    that is not a string is the key of no queue. *)
Definition _handleIncomingMessage (parsedMessage : option Json.value) (w : t) : t :=
  match parsedMessage with
  | None | Some Json.Null => w
  | Some m =>
      match Json.get "request_id" m with
      | Some (Json.Str requestId) =>
          if String.eqb requestId "" then w
          else match messageQueues (this w) !! requestId with
               | Some l => _routeMessage m l w
               | None => w
               end
      | _ => w
      end
  end.

Definition hasActiveConnections (w : t) : bool :=
  negb (Nat.eqb (List.length (connections (this w))) 0).

Definition isInGracePeriod (w : t) : bool :=
  match reconnectGraceTimer (this w) with Some _ => true | None => false end.

Definition getFirstConnection (w : t) : option nat := head (connections (this w)).

(** [createMessageQueue(requestId)]: returns the new queue object. *)
Definition createMessageQueue (requestId : string) (w : t) : nat * t :=
  let r := this w in
  let l := nextQueue w in
  (l, World (Registry (connections r) (<[requestId := l]> (messageQueues r))
                      (reconnectGraceTimer r) (isReconnecting r)
                      (onConnectionLostCallback r))
            (<[l := MessageQueue.new None]> (store w)) (S l)
            (graceTimers w) (nextTimer w) (callbackCalls w) (emitted w)).

(** [removeMessageQueue(requestId)] *)
Definition removeMessageQueue (requestId : string) (w : t) : t :=
  let r := this w in
  match messageQueues r !! requestId with
  | Some l =>
      World (Registry (connections r) (delete requestId (messageQueues r))
                      (reconnectGraceTimer r) (isReconnecting r)
                      (onConnectionLostCallback r))
            (alter (MessageQueue.close MessageQueue.Current None) l (store w))
            (nextQueue w) (graceTimers w) (nextTimer w) (callbackCalls w)
            (emitted w)
  | None => w
  end.

(** Calls on a queue object held by a request handler. *)
Definition dequeueOn (l : nat) (timeoutMs : option Z) (w : t) : option nat * t :=
  match store w !! l with
  | Some q =>
      let r := MessageQueue.dequeue MessageQueue.Current timeoutMs q in
      (Some r.1, updateStore (<[l := r.2]> (store w)) w)
  | None => (None, w)
  end.

Definition closeOn (l : nat) (reason : option string) (w : t) : t :=
  updateStore (alter (MessageQueue.close MessageQueue.Current reason) l (store w)) w.

Definition outcomeOn (l p : nat) (w : t) : option (MessageQueue.settlement Json.value) :=
  store w !! l ≫= MessageQueue.outcome p.

Definition isClosed (l : nat) (w : t) : option bool :=
  MessageQueue.closed <$> store w !! l.

End ConnectionRegistry.

(** ** src/core/RequestHandler.js: the attempt loop and its callers *)

Module RequestHandler.

Import Json.

(** What is thrown inside the [try] of one attempt. *)
Inductive thrown : Type :=
  | ThrownQueue (e : MessageQueue.QueueError)
  | ThrownJson (payload : value)
  | ThrownError (message : string).

(** [error.message].  For [new Error(JSON.stringify(payload))] it is the
    serialisation of the payload. *)
Definition messageOf (e : thrown) : string :=
  match e with
  | ThrownQueue (MessageQueue.QueueClosedError m _) => m
  | ThrownQueue (MessageQueue.QueueTimeoutError m) => m
  | ThrownJson payload => stringify payload
  | ThrownError m => m
  end.

(** The fallback of [_isConnectionResetError] on the message text. *)
Definition resetWords (m : string) : bool :=
  JS.includes m "Queue closed" || JS.includes m "Queue is closed"
  || JS.includes m "Connection lost".

(** [_isConnectionResetError(error)] on a caught error: [instanceof
    QueueClosedError], then the code, then the message text. *)
Definition _isConnectionResetError_thrown (e : thrown) : bool :=
  match e with
  | ThrownQueue (MessageQueue.QueueClosedError _ _) => true
  | _ => resetWords (messageOf e)
  end.

(** [_isConnectionResetError(error)] on a plain object (a frame, or the
    [error] of a failed result); [None] is [null].  A message that is not a
    string has no words to look for. *)
Definition _isConnectionResetError (error : option value) : bool :=
  if truthy error then
    if isStr "QUEUE_CLOSED" (getOpt "code" error) then true
    else match getOpt "message" error with
         | Some (Str m) => resetWords m
         | _ => false
         end
  else false.

Record config : Type := Config {
  maxRetries : Z;
  retryDelay : Z;
  immediateSwitchStatusCodes : option (list Z)
}.

(** What one attempt meets, since the loop suspends at [await]: the
    current identity and whether it has a socket when the request is
    forwarded, how the dequeue of the first frame settles, and the current
    identity and the sockets when the [catch] block runs. *)
Record attemptEnv : Type := AttemptEnv {
  authAtSend : Z;
  connectedAtSend : bool;
  dequeued : MessageQueue.settlement value;
  authAtCatch : Z;
  connectedAtCatch : Z → bool
}.

(** What the loop does to the outside: a frame sent on the socket of an
    identity by [_forwardRequest] or by [_cancelBrowserRequest], a queue
    closed, a queue created through the registry (with the arguments of the
    call), a sleep. *)
Inductive effect : Type :=
  | Forward (authIndex : Z) (frame : value)
  | Cancel (authIndex : Z) (frame : value)
  | QueueClose (queue : nat) (reason : string)
  | CreateQueue (requestId : string) (authIndex : Z)
  | Sleep (ms : Z).

(** [{ success, message, queue }] or [{ success: false, error }]; queues
    are numbered in the order the loop obtains them, 0 being its
    argument. *)
Inductive result : Type :=
  | Success (message : value) (queue : nat)
  | Failure (error : option value).

(** [{ event_type: t, ...fields }] *)
Definition spread (t : string) (fields : list (string * value)) : value :=
  Obj (foldl (fun acc kv => assign kv.1 kv.2 acc) [("event_type", Str t)] fields).

Definition cancelFrame (requestId : string) : value :=
  Obj [("event_type", Str "cancel_request"); ("request_id", Str requestId)].

Definition timeoutPayload : value :=
  Obj [("event_type", Str "error");
       ("message", Str "Request timed out waiting for browser response.");
       ("status", Num 504)].

Definition connectionLost : value :=
  Obj [("message", Str "Connection lost (client disconnect)"); ("status", Num 503)].

Definition isForward (e : effect) : bool :=
  match e with
  | Forward _ _ => true
  | _ => false
  end.

(** How many times the request was forwarded to the browser. *)
Definition forwards (l : list effect) : nat := List.length (filter isForward l).

Section Retries.
Variable cfg : config.
Variable requestId : string.
Variable proxyRequest : list (string * value).
Variable env : Z → attemptEnv.

(** The body of the [try]: [_forwardRequest], the dequeue of the first
    frame and its inspection. *)
Definition tryAttempt (e : attemptEnv) : (value + thrown) * list effect :=
  if connectedAtSend e then
    let sent := [Forward (authAtSend e) (spread "proxy_request" proxyRequest)] in
    match dequeued e with
    | MessageQueue.Resolved Null =>
        (inr (ThrownError "Cannot read properties of null (reading 'event_type')"), sent)
    | MessageQueue.Resolved initialMessage =>
        if isStr "timeout" (get "event_type" initialMessage) then
          (inr (ThrownJson timeoutPayload), sent)
        else if isStr "error" (get "event_type" initialMessage) then
          (inr (ThrownJson initialMessage), sent)
        else (inl initialMessage, sent)
    | MessageQueue.Rejected err => (inr (ThrownQueue err), sent)
    end
  else
    (inr (ThrownError ("Unable to forward request: No WebSocket connection found for authIndex="
                       +:+ ofZ (authAtSend e))), []).

(** [JSON.parse(error.message)], or the fallback object when that throws:
    only the errors built from [JSON.stringify] parse. *)
Definition errorPayloadOf (error : thrown) : value :=
  match error with
  | ThrownJson payload => payload
  | _ => Obj [("message", Str (messageOf error)); ("status", Num 500)]
  end.

(** [config.immediateSwitchStatusCodes &&
    config.immediateSwitchStatusCodes.includes(errorPayload.status)] *)
Definition isImmediateSwitch (errorPayload : value) : bool :=
  match immediateSwitchStatusCodes cfg, get "status" errorPayload with
  | Some codes, Some (Num n) => bool_decide (n ∈ codes)
  | _, _ => false
  end.

(** [_cancelBrowserRequest(requestId, authIndex)], given whether the
    identity has a socket. *)
Definition cancelEffects (connected : Z → bool) (authIndex : Z) : list effect :=
  if connected authIndex then [Cancel authIndex (cancelFrame requestId)] else [].

(** How one attempt ends. *)
Inductive verdict : Type :=
  | Return (r : result)
  | Retry (lastError : value).

Definition judge (attempt : Z) (currentQueue : nat) (outcome : value + thrown)
  : verdict :=
  match outcome with
  | inl initialMessage => Return (Success initialMessage currentQueue)
  | inr error =>
      let errorPayload := errorPayloadOf error in
      if _isConnectionResetError_thrown error then Return (Failure (Some connectionLost))
      else if isImmediateSwitch errorPayload then Return (Failure (Some errorPayload))
      else if attempt >=? maxRetries cfg then Return (Failure (Some errorPayload))
      else Retry errorPayload
  end.

(** The iterations of [for (attempt = 1; attempt <= maxRetries; attempt++)]
    that remain, [n] of them, starting at [attempt]. *)
Fixpoint attempts (n : nat) (attempt : Z) (currentQueue : nat)
    (currentQueueAuthIndex : Z) (lastError : option value) : result * list effect :=
  match n with
  | O => (Failure lastError, [])
  | S n' =>
      let e := env attempt in
      let tried := tryAttempt e in
      match judge attempt currentQueue tried.1 with
      | Return r => (r, tried.2)
      | Retry errorPayload =>
          let rest := attempts n' (attempt + 1) (S currentQueue) (authAtCatch e)
                               (Some errorPayload) in
          (rest.1,
           tried.2
           ++ cancelEffects (connectedAtCatch e) currentQueueAuthIndex
           ++ [QueueClose currentQueue "retry_creating_new_queue";
               CreateQueue requestId (authAtCatch e);
               Sleep (retryDelay cfg)]
           ++ rest.2)
      end
  end.

Definition _executeRequestWithRetries : result * list effect :=
  attempts (Z.to_nat (maxRetries cfg)) 1 0%nat (authAtSend (env 1)) None.

(** The loop is about to run attempt [attempt] on queue [currentQueue]. *)
Inductive reaches : Z → nat → Z → option value → Prop :=
  | reaches_first : reaches 1 0%nat (authAtSend (env 1)) None
  | reaches_next attempt currentQueue currentQueueAuthIndex lastError errorPayload :
      reaches attempt currentQueue currentQueueAuthIndex lastError →
      attempt <= maxRetries cfg →
      judge attempt currentQueue (tryAttempt (env attempt)).1 = Retry errorPayload →
      reaches (attempt + 1) (S currentQueue) (authAtCatch (env attempt))
              (Some errorPayload).

End Retries.

(** *** The failure branch of the callers *)

Record response : Type := Response {
  headersSent : bool;
  statusCode : option value;
  body : option string;
  writableEnded : bool
}.

Definition freshResponse : response := Response false None None false.

(** [a || 500] *)
Definition or500 (a : option value) : value :=
  match a with
  | Some v => if truthy a then v else Num 500
  | None => Num 500
  end.

Definition _sendErrorResponse (res : response) (status : value) (message : option value)
  : response :=
  if headersSent res then res
  else
    let errorPayload :=
      Obj [("error", Obj ([("code", or500 (Some status))] ++ field "message" message
                          ++ [("status", Str "SERVICE_UNAVAILABLE")]))] in
    Response true (Some (or500 (Some status))) (Some (stringify errorPayload)) true.

Record switcher : Type := Switcher {
  currentAuthIndex : Z;
  usageCount : Z;
  failureCount : Z;
  isSystemBusy : bool;
  switchRequested : bool
}.

(** Modelled from the spec: [AuthSwitcher.handleRequestFailureAndSwitch]
    (src/auth/AuthSwitcher.js is not among the sources).  "recordFailure(status):
    increment; if status ∈ immediateSwitchStatusCodes ⇒ immediate switch;
    else if failureCount ≥ failureThreshold ⇒ switch."  The switch itself
    is recorded as requested. *)
Definition handleRequestFailureAndSwitch (codes : list Z) (failureThreshold : Z)
    (error : value) (s : switcher) : switcher :=
  let count := failureCount s + 1 in
  let immediate :=
    match get "status" error with
    | Some (Num n) => bool_decide (n ∈ codes)
    | _ => false
    end in
  Switcher (currentAuthIndex s) (usageCount s) count (isSystemBusy s)
           (switchRequested s || immediate || (failureThreshold <=? count)).

Inductive TypeError : Type := NullDereference (property : string).

Section Callers.
(** [isUserAbortedError] of src/utils/CustomErrors.js, which is not among
    the sources: a parameter. *)
Variable isUserAbortedError : option value → bool.
Variable codes : list Z.
Variable failureThreshold : Z.

(** [_handleNonStreamResponse], the branch [if (!result.success)]. *)
Definition nonStreamFailure (error : option value) (res : response) (s : switcher)
  : TypeError + response * switcher :=
  match error with
  | None =>
      if isUserAbortedError None then inl (NullDereference "status")
      else inl (NullDereference "message")
  | Some err =>
      let s' :=
        if isUserAbortedError error then s
        else if negb (_isConnectionResetError error)
             then handleRequestFailureAndSwitch codes failureThreshold err s
             else s in
      inr (_sendErrorResponse res (or500 (get "status" err)) (get "message" err), s')
  end.

End Callers.

(** *** The client-disconnect handler *)

Section Disconnect.
(** [getAuthIndexForRequest] and [getConnectionByAuth] are called on the
    registry but are not defined by src/core/ConnectionRegistry.js:
    parameters.  The second gives the socket of an identity. *)
Variable getAuthIndexForRequest : string → option Z.
Variable getConnectionByAuth : Z → option nat.

Record server : Type := Server {
  registry : ConnectionRegistry.t;
  auth : switcher;
  transmitted : list (nat * value)
}.

Definition _cancelBrowserRequest (requestId : string) (authIndex : option Z)
    (s : server) : server :=
  let targetAuthIndex := default (currentAuthIndex (auth s)) authIndex in
  match getConnectionByAuth targetAuthIndex with
  | Some connection =>
      Server (registry s) (auth s)
             (transmitted s ++ [(connection, cancelFrame requestId)])
  | None => s
  end.

(** The call [connectionRegistry.removeMessageQueue(requestId, reason)]:
    the method declares one parameter, so the second argument is dropped. *)
Definition call_removeMessageQueue (requestId reason : string)
    (w : ConnectionRegistry.t) : ConnectionRegistry.t :=
  ConnectionRegistry.removeMessageQueue requestId w.

(** The listener that [_setupClientDisconnectHandler] puts on the [close]
    event of the response. *)
Definition onResponseClose (res : response) (requestId : string) (s : server) : server :=
  if writableEnded res then s
  else
    let targetAuthIndex :=
      default (currentAuthIndex (auth s)) (getAuthIndexForRequest requestId) in
    let s1 := _cancelBrowserRequest requestId (Some targetAuthIndex) s in
    Server (call_removeMessageQueue requestId "client_disconnect" (registry s1))
           (auth s1) (transmitted s1).

End Disconnect.

(** *** Pseudo-stream: splitting the accumulated body

    The [try] block of [_handlePseudoStreamResponse] that parses [fullData]
    and writes the records.  [parsed] is the result of
    [JSON.parse(fullData)], [None] when it throws. *)

(** [res.write(`data: ${JSON.stringify(payload)}\n\n`)] and
    [res.write(`data: ${fullData}\n\n`)] *)
Inductive sseRecord : Type :=
  | Data (payload : value)
  | RawData (text : string).

(** [parts.filter(p => keep(p.thought === true))]; reading [thought] on a
    part that is [null] throws, which is [None]. *)
Fixpoint filterParts (keep : bool → bool) (parts : list value) : option (list value) :=
  match parts with
  | [] => Some []
  | Null :: _ => None
  | p :: ps =>
      match filterParts keep ps with
      | Some r => Some (if keep (isTrue (get "thought" p)) then p :: r else r)
      | None => None
      end
  end.

Definition contentOf (parts : list value) (role : value) : string * value :=
  ("content", Obj [("parts", Arr parts); ("role", role)]).

Definition thinkingResponse (thinkingParts : list value) (role : value) : value :=
  Obj [("candidates", Arr [Obj [contentOf thinkingParts role]])].

(** Used for the content parts, and with no parts for the closing record. *)
Definition contentResponse (contentParts : list value) (role : value)
    (finishReason usageMetadata : option value) : value :=
  Obj ([("candidates",
         Arr [Obj (contentOf contentParts role :: field "finishReason" finishReason)])]
       ++ field "usageMetadata" usageMetadata).

Definition splitPseudoStream (parsed : option value) (fullData : string)
  : list sseRecord :=
  let raw := if String.eqb fullData "" then [] else [RawData fullData] in
  match parsed with
  | None | Some Null => raw
  | Some googleResponse =>
      let candidate := first (get "candidates" googleResponse) in
      let content := getOpt "content" candidate in
      match (if truthy candidate && truthy content then getOpt "parts" content else None) with
      | Some (Arr parts) =>
          match filterParts id parts, filterParts negb parts with
          | Some thinkingParts, Some contentParts =>
              let role := if truthy (getOpt "role" content)
                          then default (Str "model") (getOpt "role" content)
                          else Str "model" in
              let finishReason := getOpt "finishReason" candidate in
              let usageMetadata := get "usageMetadata" googleResponse in
              (match thinkingParts with
               | [] => []
               | _ => [Data (thinkingResponse thinkingParts role)]
               end)
              ++ (match contentParts with
                  | _ :: _ => [Data (contentResponse contentParts role finishReason usageMetadata)]
                  | [] =>
                      if truthy finishReason
                      then [Data (contentResponse [] role finishReason usageMetadata)]
                      else []
                  end)
          | _, _ => raw
          end
      | _ => raw
      end
  end.

(** *** Non-stream: collecting the body, and the image helper *)

(** How the loop [while (receiving)] of [_handleNonStreamResponse] ends on
    the frames the queue hands out, in order: with the chunks gathered at
    the end signal, at an error frame, with the rejection of a dequeue,
    with an exception, or not yet for lack of frames. *)
Inductive collected : Type :=
  | Body (chunks : list string)
  | ErrorFrame (message : option value)
  | Rejection (e : MessageQueue.QueueError)
  | Threw
  | Waiting.

Fixpoint collect (frames : list (MessageQueue.settlement value)) (chunks : list string)
  : collected :=
  match frames with
  | [] => Waiting
  | MessageQueue.Rejected e :: _ => Rejection e
  | MessageQueue.Resolved Null :: _ => Threw
  | MessageQueue.Resolved message :: rest =>
      if isStr "STREAM_END" (get "type" message) then Body chunks
      else if isStr "error" (get "event_type" message)
      then ErrorFrame (get "message" message)
      else if isStr "chunk" (get "event_type" message) && truthy (get "data" message)
      then match get "data" message with
           | Some (Str data) => collect rest (chunks ++ [data])
           | _ => Threw
           end
      else collect rest chunks
  end.

(** [a || 200] *)
Definition or200 (a : option value) : value :=
  match a with
  | Some v => if truthy a then v else Num 200
  | None => Num 200
  end.

(** [_handleNonStreamResponse] after a successful first frame
    [headerMessage], as far as status and body go: the chunks are
    concatenated and sent.  [None] where the method leaves through its
    [catch]. *)
Definition nonStreamSuccess (headerMessage : value)
    (frames : list (MessageQueue.settlement value)) (res : response) : option response :=
  match collect frames [] with
  | Body chunks =>
      Some (Response true (Some (or200 (get "status" headerMessage)))
                     (Some (String.concat "" chunks)) true)
  | ErrorFrame message => Some (_sendErrorResponse res (Num 500) message)
  | _ => None
  end.

(** [parts.findIndex(p => p.inlineData)]: [None] when the callback throws
    on a [null] part, [Some None] for -1. *)
Fixpoint findInlineData (parts : list value) (i : nat) : option (option nat) :=
  match parts with
  | [] => Some None
  | Null :: _ => None
  | p :: ps =>
      if truthy (get "inlineData" p) then Some (Some i) else findInlineData ps (S i)
  end.

Definition imageMarkdown (image : option value) : value :=
  Obj [("text", Str ("![Generated Image](data:" +:+ template (getOpt "mimeType" image)
                     +:+ ";base64," +:+ template (getOpt "data" image) +:+ ")"))].

(** [v[0] = x] *)
Definition assignFirst (x : value) (v : value) : value :=
  match v with
  | Arr (_ :: l) => Arr (x :: l)
  | Obj fs => Obj (assign "0" x fs)
  | _ => v
  end.

(** [parsedBody.candidates[0].content.parts = parts], on objects that have
    these properties. *)
Definition withParts (parts : list value) (parsedBody : value) : value :=
  match parsedBody with
  | Obj fs =>
      match assoc "candidates" fs with
      | Some candidates =>
          match first (Some candidates) with
          | Some (Obj cfs) =>
              match assoc "content" cfs with
              | Some (Obj ofs) =>
                  Obj (assign "candidates"
                         (assignFirst
                            (Obj (assign "content" (Obj (assign "parts" (Arr parts) ofs)) cfs))
                            candidates) fs)
              | _ => parsedBody
              end
          | _ => parsedBody
          end
      | None => parsedBody
      end
  | _ => parsedBody
  end.

(** [_processImageInResponse(fullBody)], given the result of
    [JSON.parse(fullBody)]: [Some j] when it returns [JSON.stringify(j)],
    [None] when it returns [fullBody] as it came. *)
Definition _processImageInResponse (parsed : option value) : option value :=
  match parsed with
  | None | Some Null => None
  | Some parsedBody =>
      let candidate := first (get "candidates" parsedBody) in
      match getOpt "parts" (getOpt "content" candidate) with
      | Some (Arr parts) =>
          match findInlineData parts 0 with
          | Some (Some imagePartIndex) =>
              let image := getOpt "inlineData" (parts !! imagePartIndex) in
              Some (withParts (<[imagePartIndex := imageMarkdown image]> parts) parsedBody)
          | _ => None
          end
      | _ => None
      end
  end.

(** [candidates[0].content.parts] of a body, when it is an array. *)
Definition partsOf (parsedBody : value) : option (list value) :=
  match getOpt "parts" (getOpt "content" (first (get "candidates" parsedBody))) with
  | Some (Arr parts) => Some parts
  | _ => None
  end.

(** *** Relaying the response headers *)

(** What [_setResponseHeaders] reads of the request and of the
    configuration: [req.headers.host], whether the request is secure or was
    forwarded as https, [config.host] and [config.httpPort]. *)
Record origin : Type := Origin {
  hostHeader : option string;
  viaHttps : bool;
  configHost : string;
  httpPort : Z
}.

Definition forbiddenHeaders : list string :=
  ["access-control-allow-origin"; "access-control-allow-methods";
   "access-control-allow-headers"].

Definition isRedirectHeader (lowerName : string) : bool :=
  String.eqb lowerName "x-goog-upload-url" || String.eqb lowerName "location".

Definition newAuthority (o : origin) : string :=
  match hostHeader o with
  | Some (String c h) => String c h
  | _ =>
      (if String.eqb (configHost o) "0.0.0.0" then "127.0.0.1" else configHost o)
      +:+ ":" +:+ ofZ (httpPort o)
  end.

(** One header of the frame, as [res.set] receives it; [None] when it is
    withheld. *)
Definition relayHeader (o : origin) (name value : string) : option (string * string) :=
  let lowerName := JS.toLowerCase name in
  if existsb (String.eqb lowerName) forbiddenHeaders then None
  else if String.eqb lowerName "content-length" then None
  else if isRedirectHeader lowerName && JS.includes value "googleapis.com" then
    match Url.parse value with
    | Some urlObj =>
        let protocol := if viaHttps o then "https" else "http" in
        Some (name, protocol +:+ "://" +:+ newAuthority o
                    +:+ Url.pathname urlObj +:+ Url.search urlObj)
    | None => Some (name, value)
    end
  else Some (name, value).

(** The headers [_setResponseHeaders] sets, in order. *)
Definition _setResponseHeaders (o : origin) (headers : list (string * string))
  : list (string * string) :=
  omap (fun h => relayHeader o h.1 h.2) headers.

(** *** A response that is being streamed, and errors on it *)

(** [res.socket], as far as [_isResponseWritable] reads it: [destroyed]
    and [writable], which may be absent. *)
Record socket : Type := Socket { socketDestroyed : bool; socketWritable : option bool }.

(** The response with what was handed to [res.write], in order, and the
    state of the stream under it. *)
Record stream : Type := Stream {
  sent : response;
  written : list string;
  destroyed : bool;
  resSocket : option socket
}.

Definition _isResponseWritable (res : stream) : bool :=
  negb (writableEnded (sent res)) && negb (destroyed res)
  && match resSocket res with
     | Some s => negb (socketDestroyed s)
                 && negb (bool_decide (socketWritable s = Some false))
     | None => false
     end.

(** [res.write(chunk)]: the headers go out with the first chunk. *)
Definition write (chunk : string) (res : stream) : stream :=
  Stream (Response true (statusCode (sent res)) (body (sent res))
                   (writableEnded (sent res)))
         (written res ++ [chunk]) (destroyed res) (resSocket res).

(** [res.end()] *)
Definition endResponse (res : stream) : stream :=
  Stream (Response true (statusCode (sent res)) (body (sent res)) true)
         (written res) (destroyed res) (resSocket res).

Definition newline : string := String (ascii_of_nat 10) EmptyString.

(** [`data: ${JSON.stringify(payload)}\n\n`] *)
Definition sse (payload : value) : string :=
  "data: " +:+ stringify payload +:+ newline +:+ newline.

(** [_sendErrorChunkToClient(res, message)], as far as the body goes (the
    three headers it sets on a response not yet started are left out). *)
Definition _sendErrorChunkToClient (res : stream) (message : option value) : stream :=
  if _isResponseWritable res then write (sse (Obj (field "error" message))) res
  else res.

(** [_handleRequestError(error, res)], given [serverSystem.streamingMode]
    and what [res.getHeader("content-type")] returns. *)
Definition _handleRequestError (streamingMode : string) (contentType : option string)
    (error : thrown) (res : stream) : stream :=
  let errorMsg := messageOf error in
  let isTimeout := JS.includes (JS.toLowerCase errorMsg) "timeout" in
  if headersSent (sent res) then
    if _isResponseWritable res then
      let isEventStream :=
        match contentType with
        | Some c => JS.includes c "text/event-stream"
        | None => false
        end in
      endResponse
        (if isEventStream then
           write (sse (Obj [("error",
                             Obj [("code", Num (if isTimeout then 504 else 500));
                                  ("message",
                                   Str ((if isTimeout then "Stream timeout: "
                                         else "Processing failed: ") +:+ errorMsg));
                                  ("type", Str (if isTimeout then "timeout_error"
                                                else "api_error"))])])) res
         else if String.eqb streamingMode "fake" then
           _sendErrorChunkToClient res (Some (Str ("Processing failed: " +:+ errorMsg)))
         else res)
    else res
  else
    let status := if isTimeout then 504
                  else if _isConnectionResetError_thrown error then 503
                  else 500 in
    Stream (_sendErrorResponse (sent res) (Num status)
                               (Some (Str ("Proxy error: " +:+ errorMsg))))
           (written res) (destroyed res) (resSocket res).

(** How the streaming loop of [_handleRealStreamResponse] is left: through
    its end, with an error thrown on to the caller, or not yet, for lack of
    frames. *)
Inductive streamed : Type :=
  | Finished
  | Rethrown (error : thrown)
  | RethrownTypeError
  | Starved.

(** The loop [while (true)] of [_handleRealStreamResponse] with its
    [catch], on the frames the queue hands out, in order. *)
Fixpoint relayChunks (frames : list (MessageQueue.settlement value)) (res : stream)
  : stream * streamed :=
  match frames with
  | [] => (res, Starved)
  | MessageQueue.Rejected e :: _ =>
      if String.eqb (messageOf (ThrownQueue e)) "Queue timeout" then (res, Finished)
      else (res, Rethrown (ThrownQueue e))
  | MessageQueue.Resolved Null :: _ => (res, RethrownTypeError)
  | MessageQueue.Resolved dataMessage :: rest =>
      if isStr "STREAM_END" (get "type" dataMessage) then (res, Finished)
      else if isStr "error" (get "event_type" dataMessage) then
        (if _isResponseWritable res then
           write (sse (Obj [("error",
                             Obj ([("code", Num 500)]
                                  ++ field "message" (get "message" dataMessage)
                                  ++ [("status", Str "INTERNAL_ERROR")]))])) res
         else res, Finished)
      else if truthy (get "data" dataMessage) then
        match get "data" dataMessage with
        | Some (Str data) => relayChunks rest (write data res)
        | _ => (res, RethrownTypeError)
        end
      else relayChunks rest res
  end.

(** The loop with its [finally]: the response is ended however the loop
    was left. *)
Definition streamBody (frames : list (MessageQueue.settlement value)) (res : stream)
  : stream * streamed :=
  let r := relayChunks frames res in
  match r.2 with
  | Starved => r
  | _ => (if writableEnded (sent r.1) then r.1 else endResponse r.1, r.2)
  end.

(** *** [_buildProxyRequest]: what is forced into the body

    The body is the object [req.body], mutated in place. *)

(** [req.method === "POST" && bodyObj && bodyObj.contents] *)
Definition isPostWithContents (method : string) (bodyObj : option value) : bool :=
  String.eqb method "POST" && truthy bodyObj && truthy (getOpt "contents" bodyObj).

(** [if (!bodyObj.generationConfig) bodyObj.generationConfig = {}] *)
Definition ensureGenerationConfig (bodyObj : value) : bodyError + value :=
  if truthy (get "generationConfig" bodyObj) then inr bodyObj
  else setProperty "generationConfig" (Obj []) bodyObj.

(** [bodyObj.generationConfig.thinkingConfig = x], the configuration being
    an object shared with the body. *)
Definition setThinkingConfig (x : value) (bodyObj : value) : bodyError + value :=
  match get "generationConfig" bodyObj with
  | Some generationConfig =>
      match setProperty "thinkingConfig" x generationConfig with
      | inr generationConfig' => setProperty "generationConfig" generationConfig' bodyObj
      | inl e => inl e
      end
  | None => inl (CannotSetProperty "thinkingConfig")
  end.

(** The block under [serverSystem.forceThinking], once its condition
    holds. *)
Definition forceThinkingIn (bodyObj : value) : bodyError + value :=
  match ensureGenerationConfig bodyObj with
  | inr body1 =>
      let thinkingConfig := getOpt "thinkingConfig" (get "generationConfig" body1) in
      if negb (truthy thinkingConfig)
         || negb (truthy (getOpt "includeThoughts" thinkingConfig))
      then
        setThinkingConfig
          (Obj (assign "includeThoughts" (Bool true)
                       (spreadOf (if truthy thinkingConfig then thinkingConfig
                                  else Some (Obj [])))))
          body1
      else inr body1
  | inl e => inl e
  end.

(** [tools.some(t => t[k])] *)
Fixpoint someTool (k : string) (tools : list value) : bodyError + bool :=
  match tools with
  | [] => inr false
  | Null :: _ => inl (CannotReadProperty k)
  | t :: rest => if truthy (get k t) then inr true else someTool k rest
  end.

(** [if (!tools.some(t => t[k])) tools.push({ [k]: {} })] *)
Definition forceTool (k : string) (tools : list value) : bodyError + list value :=
  match someTool k tools with
  | inr true => inr tools
  | inr false => inr (tools ++ [Obj [(k, Obj [])]])
  | inl e => inl e
  end.

(** The block under [forceWebSearch || forceUrlContext], once its
    condition holds. *)
Definition forceToolsIn (forceWebSearch forceUrlContext : bool) (bodyObj : value)
  : bodyError + value :=
  match (if truthy (get "tools" bodyObj) then get "tools" bodyObj else Some (Arr [])) with
  | Some (Arr tools) =>
      match (if forceWebSearch then forceTool "googleSearch" tools else inr tools) with
      | inr tools1 =>
          match (if forceUrlContext then forceTool "urlContext" tools1 else inr tools1) with
          | inr tools2 => setProperty "tools" (Arr tools2) bodyObj
          | inl e => inl e
          end
      | inl e => inl e
      end
  | _ => inl (NotAFunction "some")
  end.

End RequestHandler.

(** ** scripts/client/build.js: the in-page agent *)

Module Agent.

(** What [_constructUrl] reads of a [proxy_request] frame. *)
Record requestSpec : Type := RequestSpec {
  url : option string;
  path : option string;
  query_params : Url.params;
  streaming_mode : option string;
  method : option string
}.

Definition isLowerAlnum (c : ascii) : bool :=
  let n := nat_of_ascii c in
  ((97 <=? n)%nat && (n <=? 122)%nat) || ((48 <=? n)%nat && (n <=? 57)%nat).

Fixpoint skipLowerAlnum (s : string) : string :=
  match s with
  | String c s' => if isLowerAlnum c then skipLowerAlnum s' else s
  | EmptyString => EmptyString
  end.

(** [s.match(/^v1[a-z0-9]*\\/files/)] *)
Definition startsWithVersionFiles (s : string) : bool :=
  JS.isPrefix "v1" s && JS.isPrefix "/files" (skipLowerAlnum (JS.substringFrom 2 s)).

(** [s.match(/upload\\/v1[a-z0-9]*\\/files/)] *)
Fixpoint hasUploadVersionFiles (s : string) : bool :=
  (JS.isPrefix "upload/" s && startsWithVersionFiles (JS.substringFrom 7 s))
  || match s with
     | String _ s' => hasUploadVersionFiles s'
     | EmptyString => false
     end.

(** The correction of upload paths, applied when the target domain is the
    generative-language one. *)
Definition uploadPath (method : string) (cleanPath : string) : string :=
  if hasUploadVersionFiles cleanPath then
    match JS.indexOf cleanPath "upload/" with
    | Some (S n) => JS.substringFrom (S n) cleanPath
    | _ => cleanPath
    end
  else if String.eqb method "POST" && startsWithVersionFiles cleanPath
  then "upload/" +:+ cleanPath
  else cleanPath.

Definition isFake (spec : requestSpec) : bool :=
  match streaming_mode spec with
  | Some m => String.eqb m "fake"
  | None => false
  end.

(** The path and query built from [path] and [query_params] when the frame
    has no [url]. *)
Definition queryParamsOf (spec : requestSpec) : Url.params :=
  if isFake spec && Url.has "alt" (query_params spec)
     && bool_decide (Url.get "alt" (query_params spec) = Some "sse")
  then Url.delete "alt" (query_params spec)
  else query_params spec.

Definition finalPathOf (spec : requestSpec) : string :=
  let pathSegment := JS.or_string (path spec) "" in
  if isFake spec && JS.includes pathSegment ":streamGenerateContent"
  then JS.replaceFirst pathSegment ":streamGenerateContent" ":generateContent"
  else pathSegment.

Definition builtPathAndQuery (spec : requestSpec) : string :=
  let queryString := Url.serialize (queryParamsOf spec) in
  finalPathOf spec +:+ (if String.eqb queryString "" then "" else "?" +:+ queryString).



(** What [_transmitHeaders] reads of the page: [location.protocol] and
    [location.host]. *)
Record location : Type := Location { pageProtocol : string; pageHost : string }.

(** One header of the upstream response, as it is put in the
    [response_headers] frame; [proxyHost] is the [host] header of the
    request frame. *)
Definition transmitHeader (loc : location) (proxyHost : option string) (k v : string)
  : string * string :=
  let lowerKey := JS.toLowerCase k in
  if (String.eqb lowerKey "location" || String.eqb lowerKey "x-goog-upload-url")
     && JS.includes v "googleapis.com" then
    match Url.parse v with
    | Some urlObj =>
        let host := JS.or_string proxyHost (pageHost loc) in
        let separator := if String.eqb (Url.search urlObj) "" then "?" else "&" in
        let newSearch := Url.search urlObj +:+ separator +:+ "__proxy_host__="
                         +:+ Url.host urlObj in
        (k, pageProtocol loc +:+ "//" +:+ host +:+ Url.pathname urlObj +:+ newSearch)
    | None => (k, v)
    end
  else (k, v).

(** The [headers] of the frame [_transmitHeaders] sends. *)
Definition _transmitHeaders (loc : location) (proxyHost : option string)
    (headers : list (string * string)) : list (string * string) :=
  List.map (fun h => transmitHeader loc proxyHost h.1 h.2) headers.

(** [_transmitChunk(data, operationId)]: the frame it transmits, none for
    an empty chunk. *)
Definition _transmitChunk (data operationId : string) : list Json.value :=
  if String.eqb data "" then []
  else [Json.Obj [("data", Json.Str data); ("event_type", Json.Str "chunk");
                  ("request_id", Json.Str operationId)]].

(** The frame of [_transmitStreamEnd(operationId)] *)
Definition _transmitStreamEnd (operationId : string) : Json.value :=
  Json.Obj [("event_type", Json.Str "stream_close"); ("request_id", Json.Str operationId)].

(** The frames [_processProxyRequest] transmits after the headers when the
    body of the upstream response is read in the chunks [chunks]: in mode
    [real] one frame per chunk, in mode [fake] one frame for the whole
    body, then the end of the stream. *)
Definition relayBody (streaming_mode : option string) (operationId : string)
    (chunks : list string) : list Json.value :=
  let mode := JS.or_string streaming_mode "fake" in
  (if String.eqb mode "real"
   then List.concat (List.map (fun chunk => _transmitChunk chunk operationId) chunks)
   else [])
  ++ (if String.eqb mode "fake"
      then _transmitChunk (String.concat "" chunks) operationId
      else [])
  ++ [_transmitStreamEnd operationId].

(** *** [_buildRequestConfig]: the headers and the body of the fetch *)

Import Json.

Definition forbiddenHeaders : list string :=
  ["host"; "connection"; "content-length"; "origin"; "referer"; "user-agent";
   "sec-fetch-mode"; "sec-fetch-site"; "sec-fetch-dest"].

(** [_sanitizeHeaders(headers)]; [None] is [undefined]. *)
Definition _sanitizeHeaders (headers : option (list (string * value)))
  : list (string * value) :=
  foldl (fun sanitized h => remove h sanitized) (default [] headers) forbiddenHeaders.

(** [if (Object.prototype.hasOwnProperty.call(bodyObj, key)) delete
    bodyObj[key]], for every key of the list; [bodyObj] is not [null]. *)
Definition deleteOwn (keys : list string) (bodyObj : value) : value :=
  match bodyObj with
  | Obj fs => Obj (foldl (fun fs key => remove key fs) fs keys)
  | _ => bodyObj
  end.

(** [if (bodyObj[k]) delete bodyObj[k]] *)
Definition deleteTruthy (k : string) (bodyObj : value) : value :=
  if truthy (get k bodyObj) then deleteOwn [k] bodyObj else bodyObj.

(** [if (bodyObj.generationConfig?.[k]) delete bodyObj.generationConfig[k]] *)
Definition deleteConfig (k : string) (bodyObj : value) : value :=
  match bodyObj with
  | Obj fs =>
      match assoc "generationConfig" fs with
      | Some (Obj gfs) =>
          if truthy (assoc k gfs)
          then Obj (assign "generationConfig" (Obj (remove k gfs)) fs)
          else bodyObj
      | _ => bodyObj
      end
  | _ => bodyObj
  end.

(** Module 1: what image, embedding and TTS models do not take. *)
Definition dropUnsupported (bodyObj : value) : value :=
  deleteConfig "responseMimeType"
    (deleteConfig "response_mime_type"
       (deleteTruthy "systemInstruction"
          (deleteConfig "thinkingConfig"
             (deleteOwn ["toolConfig"; "tool_config"; "toolChoice"; "tools"] bodyObj)))).

(** Module 1.5 for a TTS model: [generationConfig.responseModalities =
    ["AUDIO"]], the configuration being created when there is none. *)
Definition forceAudio (bodyObj : value) : bodyError + value :=
  match bodyObj with
  | Arr _ => inr bodyObj
  | _ =>
      match (if truthy (get "generationConfig" bodyObj) then inr bodyObj
             else setProperty "generationConfig" (Obj []) bodyObj) with
      | inr body1 =>
          match get "generationConfig" body1 with
          | Some generationConfig =>
              match setProperty "responseModalities" (Arr [Str "AUDIO"]) generationConfig with
              | inr generationConfig' =>
                  setProperty "generationConfig" generationConfig' body1
              | inl e => inl e
              end
          | None => inl (CannotSetProperty "responseModalities")
          end
      | inl e => inl e
      end
  end.

(** Module 2: computer-use models. *)
Definition dropForComputerUse (bodyObj : value) : value :=
  deleteConfig "responseModalities"
    (deleteOwn ["tool_config"; "toolChoice"; "tools"] bodyObj).

(** [tools.filter(t => !t.googleSearch && !t.urlContext)]; [None] when the
    callback throws on a [null] tool. *)
Fixpoint withoutSearchTools (tools : list value) : option (list value) :=
  match tools with
  | [] => Some []
  | Null :: _ => None
  | t :: rest =>
      match withoutSearchTools rest with
      | Some r =>
          Some (if negb (truthy (get "googleSearch" t)) && negb (truthy (get "urlContext" t))
                then t :: r else r)
      | None => None
      end
  end.

(** Module 3: robotics models. *)
Definition dropForRobotics (bodyObj : value) : option value :=
  match (match bodyObj with
         | Obj fs =>
             match assoc "tools" fs with
             | Some (Arr tools) =>
                 match withoutSearchTools tools with
                 | Some [] => Some (Obj (remove "tools" fs))
                 | Some kept => Some (Obj (assign "tools" (Arr kept) fs))
                 | None => None
                 end
             | _ => Some bodyObj
             end
         | _ => Some bodyObj
         end) with
  | Some body1 => Some (deleteConfig "responseModalities" body1)
  | None => None
  end.

Definition isJsonMode (bodyObj : value) : bool :=
  let generationConfig := get "generationConfig" bodyObj in
  isStr "application/json" (getOpt "responseMimeType" generationConfig)
  || isStr "application/json" (getOpt "response_mime_type" generationConfig).

(** [thinkingLevel] in upper case *)
Definition upperThinkingLevel (bodyObj : value) : value :=
  match bodyObj with
  | Obj fs =>
      match assoc "generationConfig" fs with
      | Some (Obj gfs) =>
          match assoc "thinkingConfig" gfs with
          | Some (Obj tfs) =>
              match assoc "thinkingLevel" tfs with
              | Some level =>
                  if truthy (Some level) then
                    Obj (assign "generationConfig"
                           (Obj (assign "thinkingConfig"
                                   (Obj (assign "thinkingLevel"
                                           (Str (JS.toUpperCase (toString level))) tfs))
                                   gfs)) fs)
                  else bodyObj
              | None => bodyObj
              end
          | _ => bodyObj
          end
      | _ => bodyObj
      end
  | _ => bodyObj
  end.

Definition upperModality (m : value) : value :=
  match m with
  | Str s => Str (JS.toUpperCase s)
  | _ => m
  end.

(** [responseModalities] in upper case, a single string becoming a list *)
Definition upperModalities (bodyObj : value) : value :=
  match bodyObj with
  | Obj fs =>
      match assoc "generationConfig" fs with
      | Some (Obj gfs) =>
          let set x := Obj (assign "generationConfig"
                                   (Obj (assign "responseModalities" x gfs)) fs) in
          match assoc "responseModalities" gfs with
          | Some (Arr l) => set (Arr (List.map upperModality l))
          | Some (Str (String c s)) => set (Arr [Str (JS.toUpperCase (String c s))])
          | _ => bodyObj
          end
      | _ => bodyObj
      end
  | _ => bodyObj
  end.

(** The body of the [try] in [_buildRequestConfig], on the result of
    [JSON.parse(requestSpec.body)]: [Some] of the object that is serialised,
    [None] when an exception sends the method to its [catch]. *)
Definition adaptBody (path : string) (bodyObj : value) : option value :=
  match bodyObj with
  | Null => None
  | _ =>
      let isImageModel := JS.includes path "-image" || JS.includes path "imagen" in
      let isEmbeddingModel := JS.includes path "embedding" in
      let isTtsModel := JS.includes path "tts" in
      let body1 := if isImageModel || isEmbeddingModel || isTtsModel
                   then dropUnsupported bodyObj else bodyObj in
      match (if isTtsModel then forceAudio body1
             else inr (if isEmbeddingModel then deleteConfig "responseModalities" body1
                       else body1)) with
      | inr body2 =>
          let body3 := if JS.includes path "computer-use"
                       then dropForComputerUse body2 else body2 in
          match (if JS.includes path "robotics" then dropForRobotics body3
                 else Some body3) with
          | Some body4 =>
              let body5 :=
                if JS.includes path "/models/gemini-2" && isJsonMode body4
                then deleteOwn ["toolConfig"; "tool_config"; "toolChoice"; "tools"] body4
                else body4 in
              Some (upperModalities (upperThinkingLevel body5))
          | None => None
          end
      | inl _ => None
      end
  end.

(** What [_buildRequestConfig] reads of the frame besides [method] and
    [path]; [None] is [undefined]. *)
Record requestPayload : Type := RequestPayload {
  headers : option (list (string * value));
  is_generative : bool;
  body_b64 : option string;
  body : option string
}.

(** The body given to [fetch]: the blob decoded from Base64, with its
    type, or a text. *)
Inductive fetchBody : Type :=
  | Blob (b64Data contentType : string)
  | Text (text : string).

Record fetchConfig : Type := FetchConfig {
  configHeaders : list (string * value);
  configMethod : option string;
  configBody : option fetchBody
}.

Section BuildRequestConfig.
(** [JSON.parse], [None] when it throws. *)
Variable parse : string → option value.

Definition _buildRequestConfig (requestSpec : requestSpec) (payload : requestPayload)
  : fetchConfig :=
  let hasBody :=
    match method requestSpec with
    | Some m => String.eqb m "POST" || String.eqb m "PUT" || String.eqb m "PATCH"
    | None => false
    end in
  let truthyString o := match o with Some (String _ _) => true | _ => false end in
  FetchConfig
    (_sanitizeHeaders (headers payload))
    (method requestSpec)
    (if hasBody then
       if negb (is_generative payload) && truthyString (body_b64 payload) then
         let contentType :=
           match getOpt "content-type" (Obj <$> headers payload) with
           | Some v => if truthy (Some v) then toString v else ""
           | None => ""
           end in
         Some (Blob (default "" (body_b64 payload)) contentType)
       else
         match body payload with
         | Some (String c text) =>
             let raw := String c text in
             match parse raw, path requestSpec with
             | Some bodyObj, Some path =>
                 match adaptBody path bodyObj with
                 | Some adapted => Some (Text (stringify adapted))
                 | None => Some (Text raw)
                 end
             | _, _ => Some (Text raw)
             end
         | _ => None
         end
     else None).

End BuildRequestConfig.

End Agent.

(** ** src/utils/ConfigLoader.js

    [loadConfiguration] as a function of the environment.  Strings are
    taken as ASCII: the white space that [parseInt] and [trim] skip is the
    ASCII one.  Integers are exact: the rounding of JavaScript numbers
    beyond 2^53 and their overflow are not modelled, so that what
    [parseInt] returns is finite whenever it is a number.  The list of
    models, which is read from a file, is left out. *)

Module ConfigLoader.

Definition isWhiteSpace (c : ascii) : bool :=
  let n := nat_of_ascii c in
  Nat.eqb n 9 || Nat.eqb n 10 || Nat.eqb n 11 || Nat.eqb n 12 || Nat.eqb n 13
  || Nat.eqb n 32.

Fixpoint trimStart (s : string) : string :=
  match s with
  | String c s' => if isWhiteSpace c then trimStart s' else s
  | EmptyString => EmptyString
  end.

Fixpoint trimEnd (s : string) : string :=
  match s with
  | String c s' =>
      match trimEnd s' with
      | EmptyString => if isWhiteSpace c then EmptyString else String c EmptyString
      | r => String c r
      end
  | EmptyString => EmptyString
  end.

(** [s.trim()] *)
Definition trim (s : string) : string := trimEnd (trimStart s).

Definition digitOf (c : ascii) : option Z :=
  let n := nat_of_ascii c in
  if (48 <=? n)%nat && (n <=? 57)%nat then Some (Z.of_nat (n - 48)) else None.

(** The value of the longest prefix of decimal digits; [None] when there
    is no digit. *)
Fixpoint digits (s : string) (acc : Z) (seen : bool) : option Z :=
  match s with
  | String c s' =>
      match digitOf c with
      | Some d => digits s' (10 * acc + d) true
      | None => if seen then Some acc else None
      end
  | EmptyString => if seen then Some acc else None
  end.

(** [parseInt(s, 10)]; [None] is [NaN]. *)
Definition parseInt (s : string) : option Z :=
  match trimStart s with
  | String c s' =>
      if Ascii.eqb c "-" then Z.opp <$> digits s' 0 false
      else if Ascii.eqb c "+" then digits s' 0 false
      else digits (String c s') 0 false
  | EmptyString => None
  end.

Record config : Type := Config {
  apiKeys : list string;
  apiKeySource : string;
  browserExecutablePath : option string;
  enableAuthUpdate : bool;
  failureThreshold : Z;
  forceThinking : bool;
  forceUrlContext : bool;
  forceWebSearch : bool;
  host : string;
  httpPort : Z;
  immediateSwitchStatusCodes : list Z;
  maxContexts : Z;
  maxRetries : Z;
  retryDelay : Z;
  streamingMode : string;
  switchOnUses : Z;
  wsPort : Z
}.

Section LoadConfiguration.
(** [process.env] *)
Variable env : gmap string string.

(** [if (process.env.NAME) { const parsed = parseInt(process.env.NAME,
    10); config.x = Number.isFinite(parsed) ? adjust(parsed) : config.x; }] *)
Definition fromEnvInt (name : string) (adjust : Z → Z) (current : Z) : Z :=
  match env !! name with
  | Some (String c s) =>
      match parseInt (String c s) with
      | Some parsed => adjust parsed
      | None => current
      end
  | _ => current
  end.

(** [if (process.env.NAME) config.x = process.env.NAME] *)
Definition fromEnv (name : string) (current : string) : string :=
  match env !! name with
  | Some (String c s) => String c s
  | _ => current
  end.

(** [if (process.env.NAME) config.x = test(process.env.NAME.toLowerCase())] *)
Definition fromEnvFlag (name : string) (test : string → bool) (current : bool) : bool :=
  match env !! name with
  | Some (String c s) => test (JS.toLowerCase (String c s))
  | _ => current
  end.

(** [rawCodes.split(",").map(code => parseInt(String(code).trim(), 10))
    .filter(code => !isNaN(code) && code >= 400 && code <= 599)] *)
Definition statusCodesOf (rawCodes : string) : list Z :=
  omap (fun code =>
          match parseInt (trim code) with
          | Some n => if (400 <=? n) && (n <=? 599) then Some n else None
          | None => None
          end)
       (JS.split "," rawCodes).

Definition loadConfiguration : config :=
  let rawCodes := default "429,503" (env !! "IMMEDIATE_SWITCH_STATUS_CODES") in
  let keys :=
    List.filter (fun k => negb (String.eqb k ""))
      (List.map trim
         (match env !! "API_KEYS" with
          | Some (String c s) => JS.split "," (String c s)
          | _ => []
          end)) in
  Config
    (match keys with [] => ["123456"] | _ => keys end)
    (match keys with [] => "Default" | _ => "Custom" end)
    (match env !! "CAMOUFOX_EXECUTABLE_PATH" with
     | Some (String c s) => Some (String c s)
     | _ => None
     end)
    (fromEnvFlag "ENABLE_AUTH_UPDATE" (fun v => negb (String.eqb v "false")) true)
    (fromEnvInt "FAILURE_THRESHOLD" (Z.max 0) 3)
    (fromEnvFlag "FORCE_THINKING" (fun v => String.eqb v "true") false)
    (fromEnvFlag "FORCE_URL_CONTEXT" (fun v => String.eqb v "true") false)
    (fromEnvFlag "FORCE_WEB_SEARCH" (fun v => String.eqb v "true") false)
    (fromEnv "HOST" "0.0.0.0")
    (fromEnvInt "PORT" id 7860)
    (match rawCodes with
     | EmptyString => []
     | _ => statusCodesOf rawCodes
     end)
    (fromEnvInt "MAX_CONTEXTS" (Z.max 0) 1)
    (fromEnvInt "MAX_RETRIES" (Z.max 1) 3)
    (fromEnvInt "RETRY_DELAY" (Z.max 50) 2000)
    (fromEnv "STREAMING_MODE" "real")
    (fromEnvInt "SWITCH_ON_USES" (Z.max 0) 40)
    9998.

End LoadConfiguration.

Definition doubleQuote : ascii := ascii_of_nat 34.

(** The replacement of one character by [escapeHtml]. *)
Definition escapeChar (c : ascii) : string :=
  if Ascii.eqb c "&" then "&amp;"
  else if Ascii.eqb c "<" then "&lt;"
  else if Ascii.eqb c ">" then "&gt;"
  else if Ascii.eqb c doubleQuote then "&quot;"
  else if Ascii.eqb c "'" then "&#x27;"
  else String c EmptyString.

(** [escapeHtml(value)] on a string *)
Fixpoint escapeHtml (value : string) : string :=
  match value with
  | String c s => escapeChar c +:+ escapeHtml s
  | EmptyString => EmptyString
  end.

End ConfigLoader.

(** ** src/core/BrowserManager.js: the seed of an identity *)

Module BrowserManager.

(** [n | 0]: the signed 32-bit integer congruent to [n]. *)
Definition toInt32 (n : Z) : Z :=
  let m := n mod 2 ^ 32 in
  if m <? 2 ^ 31 then m else m - 2 ^ 32.

(** One turn of the loop: [hashValue = (hashValue << 5) - hashValue +
    charCode; hashValue |= 0]. *)
Definition mix (hashValue charCode : Z) : Z :=
  toInt32 (toInt32 (Z.shiftl hashValue 5) - hashValue + charCode).

(** [_generateIdentitySeed(str)], [str] given by its UTF-16 code units
    ([str.charCodeAt(i)]). *)
Definition _generateIdentitySeed (str : list Z) : Z :=
  Z.abs (foldl mix 0 str).

End BrowserManager.

(** * Properties *)

(** ** The message queue *)

Section QueueFacts.
Context {A : Type}.
Import MessageQueue.
Implicit Types (q : t A) (l : list (nat * settlement A)) (ws : list resolver).

Definition values l : list A :=
  omap (fun x => match x.2 with Resolved v => Some v | Rejected _ => None end) l.

Lemma isSettled_false_app p l l' :
  isSettled p (l ++ l') = isSettled p l || isSettled p l'.
Proof. unfold isSettled. apply existsb_app. Qed.

Lemma values_settle_rejected p e l : values (settle p (Rejected e) l) = values l.
Proof.
  unfold settle. destruct (isSettled p l); [done|].
  unfold values. rewrite omap_app. simpl. by rewrite app_nil_r.
Qed.

Lemma values_settle_resolved p v l :
  isSettled p l = false → values (settle p (Resolved v) l) = values l ++ [v].
Proof.
  intros H. unfold settle. rewrite H. unfold values. by rewrite omap_app.
Qed.

Lemma settle_bound p o l n :
  (p < n)%nat → Forall (fun x => (x.1 < n)%nat) l →
  Forall (fun x => (x.1 < n)%nat) (settle p o l).
Proof.
  intros Hp Hl. unfold settle. destruct (isSettled p l); [done|].
  apply Forall_app. split; [done|]. by constructor.
Qed.

Lemma isSettled_settle_other p p' o l :
  p ≠ p' → isSettled p (settle p' o l) = isSettled p l.
Proof.
  intros Hne. unfold settle. destruct (isSettled p' l); [done|].
  rewrite isSettled_false_app. simpl.
  destruct (Nat.eqb_spec p' p); [congruence|]. by rewrite !orb_false_r.
Qed.

Lemma isSettled_settle p o l : isSettled p (settle p o l) = true.
Proof.
  unfold settle. destruct (isSettled p l) eqn:E; [done|].
  rewrite isSettled_false_app. simpl. by rewrite Nat.eqb_refl, orb_true_r.
Qed.

Lemma isSettled_bound p l n :
  Forall (fun x => (x.1 < n)%nat) l → (n ≤ p)%nat → isSettled p l = false.
Proof.
  intros Hl Hp. unfold isSettled. apply not_true_is_false. intros H.
  apply existsb_exists in H as (x & Hx & Heq).
  apply Nat.eqb_eq in Heq. rewrite Forall_forall in Hl.
  apply list_elem_of_In in Hx. specialize (Hl _ Hx). lia.
Qed.

Lemma NoDup_settle p o l : NoDup l.*1 → NoDup (settle p o l).*1.
Proof.
  intros Hnd. unfold settle. destruct (isSettled p l) eqn:E; [done|].
  rewrite fmap_app. simpl. apply NoDup_app. split; [done|]. split.
  - intros x Hx Hx'. apply list_elem_of_singleton in Hx'. subst x.
    assert (isSettled p l = true); [|congruence].
    unfold isSettled. apply existsb_exists.
    apply list_elem_of_fmap in Hx as (y & -> & Hy).
    exists y. split; [by apply list_elem_of_In|]. apply Nat.eqb_refl.
  - apply NoDup_singleton.
Qed.

(** Rejecting a list of waiters, as [close] does. *)
Definition rejectAll (r : string) (acc : list (nat * Z) * list (nat * settlement A))
    (ws : list resolver) :=
  foldl (fun acc resolver =>
           (clearTimeout (timeoutId resolver) acc.1,
            settle (promise resolver)
                   (Rejected (QueueClosedError (closedMessage r) r)) acc.2))
        acc ws.

Lemma rejectAll_values r ws : ∀ acc, values (rejectAll r acc ws).2 = values acc.2.
Proof.
  induction ws as [|w ws IH]; intros acc; [done|].
  unfold rejectAll in *. simpl. rewrite IH. simpl. apply values_settle_rejected.
Qed.

Lemma rejectAll_bound r n ws : ∀ acc,
  Forall (fun w => (promise w < n)%nat) ws →
  Forall (fun x => (x.1 < n)%nat) acc.2 →
  Forall (fun x => (x.1 < n)%nat) (rejectAll r acc ws).2.
Proof.
  induction ws as [|w ws IH]; intros acc Hws Hacc; [done|].
  inversion Hws; subst. unfold rejectAll in *. simpl. apply IH; [done|].
  simpl. by apply settle_bound.
Qed.

Lemma rejectAll_NoDup r ws : ∀ acc,
  NoDup acc.2.*1 → NoDup (rejectAll r acc ws).2.*1.
Proof.
  induction ws as [|w ws IH]; intros acc Hacc; [done|].
  unfold rejectAll in *. simpl. apply IH. simpl. by apply NoDup_settle.
Qed.

Lemma find_settle_keep p p' o l x :
  List.find (fun y => Nat.eqb y.1 p) l = Some x →
  List.find (fun y => Nat.eqb y.1 p) (settle p' o l) = Some x.
Proof.
  intros H. unfold settle. destruct (isSettled p' l); [done|].
  induction l as [|y l IH]; [done|]. simpl in *.
  destruct (Nat.eqb y.1 p); [done|]. by apply IH.
Qed.

Lemma find_settle_new p o l :
  isSettled p l = false →
  List.find (fun y => Nat.eqb y.1 p) (settle p o l) = Some (p, o).
Proof.
  intros H. unfold settle. rewrite H.
  induction l as [|y l IH]; simpl in *.
  - by rewrite Nat.eqb_refl.
  - destruct (Nat.eqb y.1 p); [done|]. by apply IH.
Qed.

Lemma rejectAll_find_keep r p x ws : ∀ acc,
  List.find (fun y => Nat.eqb y.1 p) acc.2 = Some x →
  List.find (fun y => Nat.eqb y.1 p) (rejectAll r acc ws).2 = Some x.
Proof.
  induction ws as [|w ws IH]; intros acc H; [done|].
  unfold rejectAll in *. simpl. apply IH. simpl. by apply find_settle_keep.
Qed.

Lemma rejectAll_find r p ws : ∀ acc,
  isWaiting p ws = true → isSettled p acc.2 = false →
  List.find (fun y => Nat.eqb y.1 p) (rejectAll r acc ws).2
  = Some (p, Rejected (QueueClosedError (closedMessage r) r)).
Proof.
  induction ws as [|w ws IH]; intros acc Hw Hs; [done|].
  unfold rejectAll in *. simpl in *.
  destruct (Nat.eqb_spec (promise w) p) as [->|Hne].
  - apply (rejectAll_find_keep r p _ ws (_, _)). simpl. by apply find_settle_new.
  - apply IH; [done|]. simpl. by rewrite isSettled_settle_other.
Qed.

End QueueFacts.

Section QueueInvariant.
Context {A : Type}.
Variable rev : MessageQueue.revision.
Import MessageQueue.
Implicit Types (q : t A) (ws : list resolver).

(** What holds of every queue reached from [new]: waiters carry a pending
    timer and an unsettled promise, a promise is settled once, and frames
    are buffered only while nobody waits. *)
Record wf (q : t A) : Prop := {
  wf_live : Forall (fun r => timeoutId r ≠ None) (waitingResolvers q);
  wf_parked : Forall (fun r => isSettled (promise r) (settled q) = false
                               ∧ (promise r < fresh q)%nat) (waitingResolvers q);
  wf_nodup : NoDup (promise <$> waitingResolvers q);
  wf_bound : Forall (fun x => (x.1 < fresh q)%nat) (settled q);
  wf_timers : Forall (fun x => (x.1 < fresh q)%nat) (timers q);
  wf_once : NoDup (settled q).*1;
  wf_buffer : waitingResolvers q ≠ [] → messages q = [];
  wf_closed : closed q = true → waitingResolvers q = [] ∧ messages q = []
}.

(** The frames accepted so far are those delivered followed by those
    buffered; closing drops the buffer. *)
Definition fifo (q : t A) (enq : list A) : Prop :=
  if closed q then values (settled q) `prefix_of` enq
  else enq = values (settled q) ++ messages q.

Lemma spliceResolver_sublist p ws : spliceResolver p ws `sublist_of` ws.
Proof.
  induction ws as [|r ws IH]; simpl; [done|].
  destruct (Nat.eqb (promise r) p).
  - by apply sublist_cons.
  - by apply sublist_skip.
Qed.

Lemma spliceResolver_other p ws r :
  NoDup (promise <$> ws) → r ∈ spliceResolver p ws → promise r ≠ p.
Proof.
  induction ws as [|r' ws IH]; simpl; intros Hnd Hin.
  - by apply elem_of_nil in Hin.
  - apply NoDup_cons in Hnd as [Hnotin Hnd].
    destruct (Nat.eqb_spec (promise r') p) as [Heq|Hne].
    + intros Hp. apply Hnotin. rewrite Heq, <- Hp.
      apply list_elem_of_fmap. by exists r.
    + apply elem_of_cons in Hin as [->|Hin]; [done|]. by apply IH.
Qed.

Lemma Forall_sub {B} (P : B → Prop) (l1 l2 : list B) :
  l1 `sublist_of` l2 → Forall P l2 → Forall P l1.
Proof.
  intros Hsub H. apply Forall_forall. intros x Hx.
  rewrite Forall_forall in H. apply H. by eapply elem_of_sublist.
Qed.

Lemma sublist_map {B C} (f : B → C) (l1 l2 : list B) :
  l1 `sublist_of` l2 → f <$> l1 `sublist_of` f <$> l2.
Proof.
  induction 1; simpl; [constructor|by apply sublist_skip|by apply sublist_cons].
Qed.

Lemma bound_weaken {B} (l : list (nat * B)) n :
  Forall (fun x => (x.1 < n)%nat) l → Forall (fun x => (x.1 < S n)%nat) l.
Proof. intros H. eapply Forall_impl; [exact H|]. simpl. intros; lia. Qed.

Lemma clearTimeout_bound h (ts : list (nat * Z)) n :
  Forall (fun x => (x.1 < n)%nat) ts →
  Forall (fun x => (x.1 < n)%nat) (clearTimeout h ts).
Proof.
  intros H. destruct h as [i|]; simpl; [|done].
  eapply Forall_sub; [apply sublist_filter|done].
Qed.

Lemma rejectAll_timers r n ws : ∀ acc : list (nat * Z) * list (nat * settlement A),
  Forall (fun x => (x.1 < n)%nat) acc.1 →
  Forall (fun x => (x.1 < n)%nat) (rejectAll r acc ws).1.
Proof.
  induction ws as [|w ws IH]; intros acc Hacc; [done|].
  unfold rejectAll in *. simpl. apply IH. simpl. by apply clearTimeout_bound.
Qed.

Lemma new_wf tm : wf (new tm).
Proof. split; simpl; try done; constructor. Qed.

Lemma new_fifo tm : fifo (new tm) [].
Proof. done. Qed.

Lemma enqueue_inv q m enq :
  wf q → fifo q enq →
  wf (enqueue rev m q) ∧ fifo (enqueue rev m q) (enq ++ [m]).
Proof.
  intros Hwf Hf. pose proof Hwf as [Hlive Hpark Hnd Hb Ht Honce Hbuf Hcl].
  unfold enqueue, fifo in *.
  destruct (closed q) eqn:Ec.
  { split; [done|]. rewrite Ec. by apply prefix_app_r. }
  destruct (waitingResolvers q) as [|r rest] eqn:Ew.
  { split; [split; simpl; try done; constructor|].
    simpl. by rewrite Hf, app_assoc. }
  assert (messages q = []) as Hm by (by apply Hbuf).
  rewrite Hm, app_nil_r in Hf.
  apply Forall_cons in Hlive as [Hr Hlive'].
  apply Forall_cons in Hpark as [[Hrs Hrf] Hpark'].
  apply NoDup_cons in Hnd as [Hnotin Hnd'].
  assert (Forall (fun r0 => isSettled (promise r0)
            (settle (promise r) (Resolved m) (settled q)) = false
            ∧ (promise r0 < fresh q)%nat) rest) as Hpark''.
  { apply Forall_forall. intros r' Hr'. rewrite Forall_forall in Hpark'.
    destruct (Hpark' _ Hr') as [? ?]. split; [|done].
    rewrite isSettled_settle_other; [done|].
    intros Heq. apply Hnotin. rewrite <- Heq.
    apply list_elem_of_fmap. by exists r'. }
  destruct rev, (timeoutId r) eqn:Et; try done.
  all: split; [split; simpl; try done|
               simpl; rewrite values_settle_resolved by done;
               by rewrite Hf, Hm, app_nil_r].
  all: try (by apply settle_bound).
  all: try (by apply NoDup_settle).
  all: by apply (clearTimeout_bound (Some _)).
Qed.

Lemma dequeue_inv q tm enq :
  wf q → fifo q enq →
  wf (dequeue rev tm q).2 ∧ fifo (dequeue rev tm q).2 enq.
Proof.
  intros [Hlive Hpark Hnd Hb Ht Honce Hbuf Hcl] Hf. unfold dequeue, fifo in *.
  assert (isSettled (fresh q) (settled q) = false) as Hfresh
    by (by eapply isSettled_bound).
  destruct (closed q) eqn:Ec.
  { destruct (Hcl eq_refl) as [Hw Hm]. simpl. rewrite Hw, Hm in *.
    split; [split; simpl; try done|by rewrite values_settle_rejected].
    - apply settle_bound; [lia|by apply bound_weaken].
    - by apply bound_weaken.
    - by apply NoDup_settle. }
  destruct (messages q) as [|m rest] eqn:Em; simpl.
  - split; [split; simpl; try done|done].
    + apply Forall_app. split; [done|]. by constructor.
    + apply Forall_app. split.
      * eapply Forall_impl; [exact Hpark|]. simpl. intros ? [? ?]. split; [done|lia].
      * constructor; [|done]. simpl. split; [done|lia].
    + rewrite fmap_app. simpl. apply NoDup_app. split; [done|]. split.
      * intros x Hx Hx'. apply list_elem_of_singleton in Hx'. subst x.
        apply list_elem_of_fmap in Hx as (r & Hr & Hin).
        rewrite Forall_forall in Hpark. destruct (Hpark _ Hin). lia.
      * apply NoDup_singleton.
    + by apply bound_weaken.
    + apply Forall_app. split; [by apply bound_weaken|].
      constructor; [simpl; lia|done].
  - assert (waitingResolvers q = []) as Hw.
    { destruct (waitingResolvers q); [done|]. by discriminate Hbuf. }
    split; [split; simpl; try done|].
    + rewrite Hw. constructor.
    + apply settle_bound; [lia|by apply bound_weaken].
    + by apply bound_weaken.
    + by apply NoDup_settle.
    + rewrite values_settle_resolved by done.
      by rewrite Hf, <- app_assoc.
Qed.

Lemma close_inv q r enq :
  wf q → fifo q enq → wf (close rev r q) ∧ fifo (close rev r q) enq.
Proof.
  intros [Hlive Hpark Hnd Hb Ht Honce Hbuf Hcl] Hf. unfold close, fifo in *.
  simpl. fold (rejectAll (default "unknown" r) (timers q, settled q) (waitingResolvers q)).
  split; [split; simpl; try done; try constructor|].
  - apply rejectAll_bound; [|done].
    eapply Forall_impl; [exact Hpark|]. by intros ? [? ?].
  - by apply rejectAll_timers.
  - by apply rejectAll_NoDup.
  - rewrite rejectAll_values. simpl.
    destruct (closed q); [done|]. rewrite Hf. by apply prefix_app_r.
Qed.

Lemma timeout_inv q p enq :
  wf q → fifo q enq → wf (timeout rev p q) ∧ fifo (timeout rev p q) enq.
Proof.
  intros Hwf Hf. unfold timeout.
  destruct (existsb _ (timers q)) eqn:Etimer; [|done].
  assert (p < fresh q)%nat as Hp.
  { apply existsb_exists in Etimer as (x & Hx & Heq).
    apply Nat.eqb_eq in Heq. subst p. apply list_elem_of_In in Hx.
    destruct Hwf as [_ _ _ _ Ht _ _ _]. rewrite Forall_forall in Ht. by apply Ht. }
  destruct Hwf as [Hlive Hpark Hnd Hb Ht Honce Hbuf Hcl].
  pose proof (spliceResolver_sublist p (waitingResolvers q)) as Hsub.
  assert (wf (Queue (messages q) (spliceResolver p (waitingResolvers q))
                    (defaultTimeout q) (closed q) (closeReason q)
                    (clearTimeout (Some p) (timers q))
                    (settle p (Rejected (QueueTimeoutError "Queue timeout")) (settled q))
                    (fresh q))) as Hmain.
  { split; simpl.
    - by eapply Forall_sub.
    - apply Forall_forall. intros r Hr.
      pose proof (spliceResolver_other _ _ _ Hnd Hr) as Hne.
      eapply elem_of_sublist in Hr; [|exact Hsub].
      rewrite Forall_forall in Hpark. destruct (Hpark _ Hr) as [? ?].
      split; [|done]. by rewrite isSettled_settle_other.
    - eapply sublist_NoDup; [exact Hnd|]. by apply sublist_map.
    - by apply settle_bound.
    - by apply (clearTimeout_bound (Some p)).
    - by apply NoDup_settle.
    - intros Hne. apply Hbuf. intros Heq. by rewrite Heq in Hne.
    - intros Hc. destruct (Hcl Hc) as [Hw Hm]. by rewrite Hw. }
  destruct rev.
  - destruct (isWaiting p (waitingResolvers q)).
    + split; [done|]. unfold fifo in *. simpl. by rewrite values_settle_rejected.
    + split; [split; simpl; try done|done]. by apply (clearTimeout_bound (Some p)).
  - split; [done|]. unfold fifo in *. simpl. by rewrite values_settle_rejected.
Qed.

Lemma run_inv ops : ∀ q enq,
  wf q → fifo q enq →
  wf (run rev ops q) ∧ fifo (run rev ops q) (enq ++ enqueued ops).
Proof.
  induction ops as [|o ops IH]; intros q enq Hwf Hf; simpl.
  - by rewrite app_nil_r.
  - destruct o as [m|tm|r|p]; simpl.
    + destruct (enqueue_inv q m enq Hwf Hf) as [H1 H2].
      destruct (IH _ _ H1 H2) as [H3 H4]. split; [done|].
      by rewrite <- app_assoc in H4.
    + destruct (dequeue_inv q tm enq Hwf Hf) as [H1 H2]. by apply IH.
    + destruct (close_inv q r enq Hwf Hf) as [H1 H2]. by apply IH.
    + destruct (timeout_inv q p enq Hwf Hf) as [H1 H2]. by apply IH.
Qed.

End QueueInvariant.

Section QueueClaims.
Context {A : Type}.
Import MessageQueue.

Lemma reachable_wf rev (ops : list (op (A:=A))) tm :
  wf (run rev ops (new tm)) ∧ fifo (run rev ops (new tm)) (enqueued ops).
Proof. apply (run_inv rev ops (new tm) []); [apply new_wf|apply new_fifo]. Qed.

Lemma delivered_prefix rev (ops : list (op (A:=A))) tm :
  delivered (run rev ops (new tm)) `prefix_of` enqueued ops.
Proof.
  destruct (reachable_wf rev ops tm) as [_ Hf]. unfold fifo in Hf.
  change (delivered (run rev ops (new tm)))
    with (values (settled (run rev ops (new tm)))).
  destruct (closed _); [done|]. rewrite Hf. by apply prefix_app_r.
Qed.

Lemma close_releases_parked rev r p (q : t A) :
  isParked p q = true →
  outcome p (close rev (Some r) q)
  = Some (Rejected (QueueClosedError (closedMessage r) r)).
Proof.
  unfold isParked. intros [Hw Hs]%andb_true_iff. apply negb_true_iff in Hs.
  unfold outcome, close. simpl.
  fold (rejectAll r (timers q, settled q) (waitingResolvers q)).
  by rewrite (rejectAll_find r p (waitingResolvers q) (timers q, settled q) Hw Hs).
Qed.

Lemma dequeue_closed_outcome rev tm (q : t A) :
  wf q → closed q = true →
  outcome (dequeue rev tm q).1 (dequeue rev tm q).2
  = Some (Rejected (closedError rev q)).
Proof.
  intros Hwf Hc. unfold dequeue, outcome. rewrite Hc. simpl.
  rewrite find_settle_new; [done|].
  eapply isSettled_bound; [apply Hwf|done].
Qed.

(** C5, in the current revision of [MessageQueue]: over every run of
    enqueue, dequeue, close and timer events from a new queue, the frames
    handed to dequeuers are, in order, an initial segment of the frames
    enqueued (each frame at most once, first in first out) and no promise is
    settled twice; a dequeuer parked when [close(r)] is called is rejected
    with [QueueClosedError] of reason [r]; and a dequeue on a queue that is
    closed with a non-empty reason [r] is rejected with [QueueClosedError]
    of reason [r]. *)
Theorem queue_fifo_and_close_reason (ops : list (op (A:=A))) :
  let q := run Current ops (new None) in
  delivered q `prefix_of` enqueued ops
  ∧ NoDup (settled q).*1
  ∧ (∀ r p, isParked p q = true →
       outcome p (close Current (Some r) q)
       = Some (Rejected (QueueClosedError (closedMessage r) r)))
  ∧ (∀ r, closed (close Current (Some r) q) = true
          ∧ closeReason (close Current (Some r) q) = Some r)
  ∧ (∀ r tm, closed q = true → closeReason q = Some r → r ≠ "" →
       outcome (dequeue Current tm q).1 (dequeue Current tm q).2
       = Some (Rejected (QueueClosedError (closedMessage r) r))).
Proof.
  intros q. destruct (reachable_wf Current ops None) as [Hwf _]. fold q in Hwf.
  split; [apply delivered_prefix|]. split; [apply Hwf|].
  split; [intros r p; apply close_releases_parked|].
  split; [done|].
  intros r tm Hc Hr Hne. rewrite dequeue_closed_outcome by done.
  unfold closedError. rewrite Hr. destruct r; [done|done].
Qed.

(** C5 as the specification words it: the reason is carried for every [r]. *)
Definition dequeue_after_close_carries_every_reason : Prop :=
  ∀ (ops : list (op (A:=nat))) (r : string) tm,
    let q := close Current (Some r) (run Current ops (new None)) in
    outcome (dequeue Current tm q).1 (dequeue Current tm q).2
    = Some (Rejected (QueueClosedError (closedMessage r) r)).

End QueueClaims.

(** A parked dequeuer is released by [close] with the reason given, and a
    later dequeue on the same queue reports it again. *)
Lemma queue_fifo_and_close_reason_witness :
  let q := MessageQueue.run MessageQueue.Current
             [MessageQueue.Enqueue 7%nat; MessageQueue.Dequeue None;
              MessageQueue.Dequeue None;
              MessageQueue.Close (Some "connection_lost")]
             (MessageQueue.new None) in
  MessageQueue.delivered q = [7%nat]
  ∧ MessageQueue.outcome 1 q
    = Some (MessageQueue.Rejected
              (MessageQueue.QueueClosedError
                 "Queue is closed (reason: connection_lost)" "connection_lost"))
  ∧ MessageQueue.outcome 2 (MessageQueue.dequeue MessageQueue.Current None q).2
    = Some (MessageQueue.Rejected
              (MessageQueue.QueueClosedError
                 "Queue is closed (reason: connection_lost)" "connection_lost")).
Proof.
  intros q. split; [reflexivity|]. split.
  - pose proof (queue_fifo_and_close_reason (A:=nat)
                  [MessageQueue.Enqueue 7%nat; MessageQueue.Dequeue None;
                   MessageQueue.Dequeue None]) as (_ & _ & H & _).
    apply (H "connection_lost" 1%nat). reflexivity.
  - pose proof (queue_fifo_and_close_reason (A:=nat)
                  [MessageQueue.Enqueue 7%nat; MessageQueue.Dequeue None;
                   MessageQueue.Dequeue None;
                   MessageQueue.Close (Some "connection_lost")]) as (_ & _ & _ & _ & H).
    apply (H "connection_lost" None); [reflexivity|reflexivity|discriminate].
Defined.

(** C5 fails as worded: after [close("")] a dequeue reports the reason
    ["unknown"], because [this.closeReason || "unknown"] takes the empty
    string for absent. *)
Lemma dequeue_after_close_empty_reason :
  ¬ dequeue_after_close_carries_every_reason.
Proof.
  intros H. specialize (H [] "" None). vm_compute in H. discriminate H.
Qed.

(** The earlier revision of the class reports ["unknown"] whatever the
    reason the queue was closed with. *)
Lemma earlier_revision_forgets_reason :
  let q := MessageQueue.close MessageQueue.Earlier (Some "connection_lost")
             (MessageQueue.new (A:=nat) None) in
  MessageQueue.outcome 0 (MessageQueue.dequeue MessageQueue.Earlier None q).2
  = Some (MessageQueue.Rejected
            (MessageQueue.QueueClosedError "Queue is closed" "unknown")).
Proof. reflexivity. Qed.

(** ** The connection registry *)

Section RegistryFacts.
Import ConnectionRegistry.

Lemma closeAll_lookup (m : gmap string nat) (st : gmap nat queue) l :
  closeAll m st !! l
  = (fun q => if decide (l ∈ (map_img m : gset nat))
              then MessageQueue.close MessageQueue.Current None q else q)
    <$> st !! l.
Proof.
  unfold closeAll. rewrite map_lookup_imap. by destruct (st !! l).
Qed.

Lemma closeAll_registered (m : gmap string nat) (st : gmap nat queue) id l q :
  m !! id = Some l → st !! l = Some q →
  MessageQueue.closed <$> closeAll m st !! l = Some true.
Proof.
  intros Hm Hq. rewrite closeAll_lookup, Hq. simpl.
  destruct (decide (l ∈ (map_img m : gset nat))) as [|Hn]; [done|].
  exfalso. apply Hn. apply elem_of_map_img. by exists id.
Qed.

Lemma clearTimeout_gone h (ts : list nat) : h ∉ clearTimeout (Some h) ts.
Proof.
  unfold clearTimeout. intros Hin. apply list_elem_of_filter in Hin as [Hne _]. done.
Qed.

(** C2, as the code has it: when a socket is added while the grace timer
    is set, the timer is cancelled for good and the reconnect callback is
    not invoked, but every registered queue is closed and the registry
    forgets all of them; when the grace timer fires, every registered queue
    is closed and forgotten, and the callback is invoked exactly once,
    provided one was configured and no reconnect is already running.  The
    timer in question is the one set when a socket closes. *)
Theorem grace_window (w : t) :
  (∀ websocket,
     reconnectGraceTimer (this (_removeConnection websocket w)) = Some (nextTimer w)
     ∧ nextTimer w ∈ graceTimers (_removeConnection websocket w)
     ∧ store (_removeConnection websocket w) = store w
     ∧ callbackCalls (_removeConnection websocket w) = callbackCalls w)
  ∧ (∀ websocket h, reconnectGraceTimer (this w) = Some h →
     let w' := addConnection websocket w in
     reconnectGraceTimer (this w') = None
     ∧ (h ∉ graceTimers w')
     ∧ graceTimerFire h w' = w'
     ∧ callbackCalls w' = callbackCalls w
     ∧ messageQueues (this w') = ∅
     ∧ (∀ id l q, messageQueues (this w) !! id = Some l → store w !! l = Some q →
          isClosed l w' = Some true))
  ∧ (∀ h, h ∈ graceTimers w →
     let w' := graceTimerFire h w in
     messageQueues (this w') = ∅
     ∧ (∀ id l q, messageQueues (this w) !! id = Some l → store w !! l = Some q →
          isClosed l w' = Some true)
     ∧ callbackCalls w'
       = (callbackCalls w
          + if onConnectionLostCallback (this w) && negb (isReconnecting (this w))
            then 1 else 0)%nat).
Proof.
  split; [|split].
  - intros websocket. unfold _removeConnection. simpl.
    split; [done|]. split; [|done]. apply elem_of_app. right. by left.
  - intros websocket h Hh w'. subst w'. unfold addConnection. rewrite Hh. simpl.
    split; [done|]. split; [apply clearTimeout_gone|].
    split.
    { unfold graceTimerFire. simpl.
      rewrite bool_decide_eq_false_2; [done|]. apply (clearTimeout_gone h). }
    split; [done|]. split; [done|].
    intros id l q Hid Hq. unfold isClosed. simpl. by eapply closeAll_registered.
  - intros h Hh w'. subst w'. unfold graceTimerFire.
    rewrite bool_decide_eq_true_2 by done.
    destruct (onConnectionLostCallback (this w) && negb (isReconnecting (this w)));
      simpl.
    + split; [done|]. split; [|lia].
      intros id l q Hid Hq. unfold isClosed. simpl. by eapply closeAll_registered.
    + split; [done|]. split; [|lia].
      intros id l q Hid Hq. unfold isClosed. simpl. by eapply closeAll_registered.
Qed.

(** C2 as the specification words it, first half: a queue that is
    registered and open stays open when a socket closes and another is
    added before the grace timer fires. *)
Definition reconnect_in_grace_keeps_queues : Prop :=
  ∀ (w : t) (closing added : nat) (id : string) (l : nat),
    messageQueues (this w) !! id = Some l →
    isClosed l w = Some false →
    isClosed l (addConnection added (_removeConnection closing w)) = Some false.

(** A registry with one socket and one request whose handler is parked on
    its queue. *)
Definition oneRequestParked : t :=
  let w1 := addConnection 0 (new true) in
  let w2 := (createMessageQueue "req_1" w1).2 in
  (dequeueOn 0 None w2).2.

End RegistryFacts.

Lemma grace_window_witness :
  let w := ConnectionRegistry._removeConnection 0 oneRequestParked in
  let w' := ConnectionRegistry.addConnection 1 w in
  ConnectionRegistry.reconnectGraceTimer (ConnectionRegistry.this w') = None
  ∧ ConnectionRegistry.callbackCalls w' = 0%nat
  ∧ ConnectionRegistry.isClosed 0 w' = Some true
  ∧ ConnectionRegistry.callbackCalls (ConnectionRegistry.graceTimerFire 0 w) = 1%nat.
Proof.
  intros w w'.
  destruct (grace_window w) as (_ & Hadd & Hfire).
  destruct (Hadd 1%nat 0%nat eq_refl) as (H1 & _ & _ & H2 & _ & H3).
  assert (0%nat ∈ ConnectionRegistry.graceTimers w) as Hin by (vm_compute; left).
  destruct (Hfire 0%nat Hin) as (_ & _ & H4).
  split; [exact H1|]. split; [exact H2|]. split.
  - eapply (H3 "req_1" 0%nat); reflexivity.
  - exact H4.
Defined.

(** C2 fails as worded: the socket comes back inside the grace window and
    the queue of the request in flight is closed all the same; its parked
    handler is rejected. *)
Lemma reconnect_in_grace_closes_queues : ¬ reconnect_in_grace_keeps_queues.
Proof.
  intros H. specialize (H oneRequestParked 0%nat 1%nat "req_1" 0%nat eq_refl eq_refl).
  vm_compute in H. discriminate H.
Qed.

Example reconnect_in_grace_rejects_waiter :
  ConnectionRegistry.outcomeOn 0 0
    (ConnectionRegistry.addConnection 1
       (ConnectionRegistry._removeConnection 0 oneRequestParked))
  = Some (MessageQueue.Rejected
            (MessageQueue.QueueClosedError "Queue is closed (reason: unknown)" "unknown")).
Proof. vm_compute. reflexivity. Qed.

(** [createMessageQueue] touches no queue that exists. *)
Lemma createMessageQueue_keeps_queues w id l :
  l ≠ ConnectionRegistry.nextQueue w →
  ConnectionRegistry.store (ConnectionRegistry.createMessageQueue id w).2 !! l
  = ConnectionRegistry.store w !! l.
Proof. intros Hne. simpl. by rewrite lookup_insert_ne. Qed.

(** [removeMessageQueue] releases a parked handler with the reason
    ["unknown"], whatever the caller meant. *)
Lemma removeMessageQueue_reason_unknown w id l q p :
  ConnectionRegistry.messageQueues (ConnectionRegistry.this w) !! id = Some l →
  ConnectionRegistry.store w !! l = Some q →
  MessageQueue.isParked p q = true →
  ConnectionRegistry.outcomeOn l p (ConnectionRegistry.removeMessageQueue id w)
  = Some (MessageQueue.Rejected
            (MessageQueue.QueueClosedError
               (MessageQueue.closedMessage "unknown") "unknown")).
Proof.
  intros Hl Hq Hp. unfold ConnectionRegistry.removeMessageQueue. rewrite Hl.
  unfold ConnectionRegistry.outcomeOn. simpl. rewrite lookup_alter_eq, Hq. simpl.
  by apply (close_releases_parked MessageQueue.Current "unknown").
Qed.

(** C1 on the code: [createMessageQueue] under an id that already has a
    queue binds the id to a new queue and leaves the prior queue as it was,
    open, with its waiter still parked. *)
Theorem createMessageQueue_leaves_prior_open :
  let w := (ConnectionRegistry.createMessageQueue "req_1" oneRequestParked).2 in
  ConnectionRegistry.messageQueues (ConnectionRegistry.this w) !! "req_1" = Some 1%nat
  ∧ ConnectionRegistry.isClosed 0 w = Some false
  ∧ ConnectionRegistry.outcomeOn 0 0 w = None
  ∧ (MessageQueue.isParked 0 <$> ConnectionRegistry.store w !! 0%nat) = Some true.
Proof. vm_compute. repeat split; reflexivity. Qed.

(** ** The attempt loop *)

Section RetryFacts.
Import Json RequestHandler.
Variable cfg : config.
Variable requestId : string.
Variable proxyRequest : list (string * value).
Variable env : Z → attemptEnv.

Local Abbreviation attempts := (attempts cfg requestId proxyRequest env).
Local Abbreviation reaches := (reaches cfg proxyRequest env).
Local Abbreviation run := (_executeRequestWithRetries cfg requestId proxyRequest env).
Local Abbreviation tryAttempt := (tryAttempt proxyRequest).

Lemma forwards_app (l1 l2 : list effect) :
  forwards (l1 ++ l2) = (forwards l1 + forwards l2)%nat.
Proof. unfold forwards. by rewrite filter_app, length_app. Qed.

Lemma forwards_tryAttempt e : (forwards (tryAttempt e).2 ≤ 1)%nat.
Proof.
  unfold RequestHandler.tryAttempt. destruct (connectedAtSend e); [|cbv; lia].
  destruct (dequeued e) as [[]|]; simpl;
    repeat (match goal with |- context [if ?b then _ else _] => destruct b end);
    cbv; lia.
Qed.

Lemma forwards_cancel connected auth :
  forwards (cancelEffects requestId connected auth) = 0%nat.
Proof. unfold cancelEffects. by destruct (connected auth). Qed.

Lemma reaches_pos attempt q auth le : reaches attempt q auth le → 1 <= attempt.
Proof. induction 1; lia. Qed.

(** From a point the loop reaches, the rest of the run is the rest of the
    iterations; what came before holds at most one forward per attempt. *)
Lemma run_from_reached attempt q auth le :
  reaches attempt q auth le → attempt <= maxRetries cfg + 1 →
  ∃ pre,
    run = ((attempts (Z.to_nat (maxRetries cfg - attempt + 1)) attempt q auth le).1,
           pre ++ (attempts (Z.to_nat (maxRetries cfg - attempt + 1)) attempt q auth le).2)
    ∧ (Z.of_nat (forwards pre) <= attempt - 1).
Proof.
  induction 1 as [|attempt q auth le errorPayload Hreach IH Hle Hjudge]; intros Hbound.
  - exists []. split; [|change (forwards []) with 0%nat; lia].
    unfold _executeRequestWithRetries. replace (maxRetries cfg - 1 + 1) with (maxRetries cfg) by lia.
    by destruct (RequestHandler.attempts _ _ _ _ _ _ _ _ _).
  - destruct IH as (pre & Hrun & Hcount); [lia|].
    replace (Z.to_nat (maxRetries cfg - attempt + 1))
      with (S (Z.to_nat (maxRetries cfg - (attempt + 1) + 1))) in Hrun by lia.
    simpl in Hrun. rewrite Hjudge in Hrun. simpl in Hrun.
    eexists (pre ++ (tryAttempt (env attempt)).2
                 ++ cancelEffects requestId (connectedAtCatch (env attempt)) auth
                 ++ [QueueClose q "retry_creating_new_queue";
                     CreateQueue requestId (authAtCatch (env attempt));
                     Sleep (retryDelay cfg)]).
    split.
    + rewrite Hrun. f_equal. by rewrite <- !app_assoc.
    + rewrite !forwards_app, forwards_cancel.
      pose proof (forwards_tryAttempt (env attempt)).
      change (forwards [QueueClose q "retry_creating_new_queue";
                        CreateQueue requestId (authAtCatch (env attempt));
                        Sleep (retryDelay cfg)]) with 0%nat.
      lia.
Qed.

(** An attempt that does not ask for a retry ends the run. *)
Lemma run_ends_at attempt q auth le r :
  reaches attempt q auth le → attempt <= maxRetries cfg →
  judge cfg attempt q (tryAttempt (env attempt)).1 = Return r →
  ∃ pre, run = (r, pre ++ (tryAttempt (env attempt)).2)
         ∧ (Z.of_nat (forwards pre) <= attempt - 1).
Proof.
  intros Hreach Hle Hjudge.
  destruct (run_from_reached _ _ _ _ Hreach) as (pre & Hrun & Hcount); [lia|].
  replace (Z.to_nat (maxRetries cfg - attempt + 1))
    with (S (Z.to_nat (maxRetries cfg - (attempt + 1) + 1))) in Hrun by lia.
  simpl in Hrun. rewrite Hjudge in Hrun. by exists pre.
Qed.

Lemma failure_has_error n : ∀ attempt q auth le err,
  (attempts n attempt q auth le).1 = Failure err →
  (n ≠ 0%nat ∨ is_Some le) → is_Some err.
Proof.
  induction n as [|n IH]; intros attempt q auth le err Hres Hor.
  - simpl in Hres. destruct Hor as [|Hle]; [done|]. by inversion Hres; subst.
  - simpl in Hres.
    destruct (judge cfg attempt q (tryAttempt (env attempt)).1) as [r|payload] eqn:Hj.
    + simpl in Hres. subst r. unfold judge in Hj.
      destruct (tryAttempt (env attempt)).1; [done|].
      repeat (match type of Hj with
              | context [if ?b then _ else _] => destruct b
              end); inversion Hj; by eexists.
    + simpl in Hres. eapply IH; [exact Hres|]. right. by eexists.
Qed.

End RetryFacts.

Section RetryClaims.
Import Json RequestHandler.
Variable cfg : config.
Variable requestId : string.
Variable proxyRequest : list (string * value).
Variable env : Z → attemptEnv.

Local Abbreviation reaches := (reaches cfg proxyRequest env).
Local Abbreviation run := (_executeRequestWithRetries cfg requestId proxyRequest env).
Local Abbreviation forwarded attempt :=
  (Forward (authAtSend (env attempt)) (spread "proxy_request" proxyRequest)).

Lemma error_frame_is_thrown e frame :
  connectedAtSend e = true → dequeued e = MessageQueue.Resolved frame →
  isStr "error" (get "event_type" frame) = true →
  tryAttempt proxyRequest e
  = (inr (ThrownJson frame), [Forward (authAtSend e) (spread "proxy_request" proxyRequest)]).
Proof.
  intros Hc Hd He. unfold tryAttempt. rewrite Hc, Hd.
  destruct frame; try done. rewrite He.
  destruct (get "event_type" (Obj fields)) as [[]|]; try done.
  simpl in *. apply String.eqb_eq in He. by subst.
Qed.

(** C6: when the dequeue of the first frame of an attempt is rejected
    because the queue was closed, the run ends with that attempt (the
    request is forwarded no further time), the result is the failure
    [{message: "Connection lost (client disconnect)", status: 503}], the
    non-stream caller answers 503 and leaves the switcher, hence the failure
    counter, as it was. *)
Theorem closed_queue_aborts_retries attempt q auth le m r
    (isUserAbortedError : option value → bool) codes failureThreshold res s :
  reaches attempt q auth le → attempt <= maxRetries cfg →
  connectedAtSend (env attempt) = true →
  dequeued (env attempt)
    = MessageQueue.Rejected (MessageQueue.QueueClosedError m r) →
  headersSent res = false →
  ∃ pre res',
    run = (Failure (Some connectionLost), pre ++ [forwarded attempt])
    ∧ Z.of_nat (forwards pre) <= attempt - 1
    ∧ nonStreamFailure isUserAbortedError codes failureThreshold
        (Some connectionLost) res s = inr (res', s)
    ∧ statusCode res' = Some (Num 503).
Proof.
  intros Hreach Hle Hc Hd Hres.
  assert (tryAttempt proxyRequest (env attempt)
          = (inr (ThrownQueue (MessageQueue.QueueClosedError m r)), [forwarded attempt]))
    as Htry by (unfold tryAttempt; by rewrite Hc, Hd).
  destruct (run_ends_at cfg requestId proxyRequest env attempt q auth le
              (Failure (Some connectionLost)) Hreach Hle) as (pre & Hrun & Hcount).
  { by rewrite Htry. }
  rewrite Htry in Hrun. exists pre.
  eexists. split; [exact Hrun|]. split; [exact Hcount|].
  unfold nonStreamFailure, _sendErrorResponse. rewrite Hres.
  change (_isConnectionResetError (Some connectionLost)) with true. simpl.
  destruct (isUserAbortedError _); by repeat split.
Qed.

(** C7, as the code has it: when the first frame of an attempt is an error
    frame, (1) a status in [immediateSwitchStatusCodes] ends the run with
    that attempt, retries left or not; (2) a status outside the set, on a
    frame whose serialised text contains none of "Queue closed", "Queue is
    closed", "Connection lost", leads to the next attempt while attempts
    remain, and ends the run with that frame as the error at the last
    attempt. *)
Theorem error_frame_switch_or_retry attempt q auth le frame :
  reaches attempt q auth le → attempt <= maxRetries cfg →
  connectedAtSend (env attempt) = true →
  dequeued (env attempt) = MessageQueue.Resolved frame →
  isStr "error" (get "event_type" frame) = true →
  (isImmediateSwitch cfg frame = true →
     ∃ pre, run = (Failure (Some (if resetWords (stringify frame)
                                  then connectionLost else frame)),
                   pre ++ [forwarded attempt])
            ∧ Z.of_nat (forwards pre) <= attempt - 1)
  ∧ (isImmediateSwitch cfg frame = false →
     resetWords (stringify frame) = false →
     (attempt < maxRetries cfg →
        reaches (attempt + 1) (S q) (authAtCatch (env attempt)) (Some frame))
     ∧ (attempt = maxRetries cfg →
        ∃ pre, run = (Failure (Some frame), pre ++ [forwarded attempt]))).
Proof.
  intros Hreach Hle Hc Hd He.
  pose proof (error_frame_is_thrown _ _ Hc Hd He) as Htry.
  split.
  - intros Himm.
    destruct (run_ends_at cfg requestId proxyRequest env attempt q auth le
                (Failure (Some (if resetWords (stringify frame)
                                then connectionLost else frame))) Hreach Hle)
      as (pre & Hrun & Hcount).
    { rewrite Htry. simpl. destruct (resetWords (stringify frame)); [done|].
      by rewrite Himm. }
    rewrite Htry in Hrun. by exists pre.
  - intros Himm Hwords. split.
    + intros Hlt.
      apply reaches_next with (lastError := le) (currentQueueAuthIndex := auth);
        [done|done|].
      rewrite Htry. simpl. rewrite Hwords, Himm.
      destruct (attempt >=? maxRetries cfg) eqn:E; [lia|done].
    + intros Heq.
      destruct (run_ends_at cfg requestId proxyRequest env attempt q auth le
                  (Failure (Some frame)) Hreach Hle) as (pre & Hrun & _).
      { rewrite Htry. simpl. rewrite Hwords, Himm.
        destruct (attempt >=? maxRetries cfg) eqn:E; [done|lia]. }
      rewrite Htry in Hrun. by exists pre.
Qed.


End RetryClaims.

(** Concrete runs of the attempt loop: three attempts allowed, 429 and 503
    switch at once, identity 0 connected throughout; the first dequeue
    settles as [d1], the later ones as [d2]. *)
Definition threeRetries : RequestHandler.config :=
  RequestHandler.Config 3 2000 (Some [429; 503]).

Definition settling (d1 d2 : MessageQueue.settlement Json.value)
  : Z → RequestHandler.attemptEnv :=
  fun attempt =>
    RequestHandler.AttemptEnv 0 true (if attempt =? 1 then d1 else d2) 0 (fun _ => true).

Definition errorFrame (status : Z) (message : string) : Json.value :=
  Json.Obj [("event_type", Json.Str "error"); ("message", Json.Str message);
            ("request_id", Json.Str "req_1"); ("status", Json.Num status)].

Definition queueClosed (reason : string) : MessageQueue.settlement Json.value :=
  MessageQueue.Rejected
    (MessageQueue.QueueClosedError (MessageQueue.closedMessage reason) reason).

Definition neverAborted : option Json.value → bool := fun _ => false.

Lemma closed_queue_aborts_retries_witness :
  let env := settling (MessageQueue.Resolved (errorFrame 500 "boom"))
                      (queueClosed "connection_lost") in
  ∃ pre res',
    RequestHandler._executeRequestWithRetries threeRetries "req_1" [] env
    = (RequestHandler.Failure (Some RequestHandler.connectionLost),
       pre ++ [RequestHandler.Forward 0 (RequestHandler.spread "proxy_request" [])])
    ∧ Z.of_nat (RequestHandler.forwards pre) <= 2 - 1
    ∧ RequestHandler.nonStreamFailure neverAborted [429; 503] 3
        (Some RequestHandler.connectionLost) RequestHandler.freshResponse
        (RequestHandler.Switcher 0 5 1 false false)
      = inr (res', RequestHandler.Switcher 0 5 1 false false)
    ∧ RequestHandler.statusCode res' = Some (Json.Num 503).
Proof.
  intros env.
  apply (closed_queue_aborts_retries threeRetries "req_1" [] env 2 1%nat 0
           (Some (errorFrame 500 "boom"))
           (MessageQueue.closedMessage "connection_lost") "connection_lost").
  - apply (RequestHandler.reaches_next threeRetries [] env 1 0%nat 0 None
             (errorFrame 500 "boom")).
    + apply RequestHandler.reaches_first.
    + vm_compute. discriminate.
    + vm_compute. reflexivity.
  - vm_compute. discriminate.
  - reflexivity.
  - reflexivity.
  - reflexivity.
Defined.

Lemma error_frame_switch_or_retry_witness :
  (∃ pre,
     RequestHandler._executeRequestWithRetries threeRetries "req_1" []
       (settling (MessageQueue.Resolved (errorFrame 429 "quota")) (queueClosed "unknown"))
     = (RequestHandler.Failure (Some (errorFrame 429 "quota")),
        pre ++ [RequestHandler.Forward 0 (RequestHandler.spread "proxy_request" [])])
     ∧ Z.of_nat (RequestHandler.forwards pre) <= 1 - 1)
  ∧ RequestHandler.reaches threeRetries []
      (settling (MessageQueue.Resolved (errorFrame 500 "boom")) (queueClosed "unknown"))
      2 1%nat 0 (Some (errorFrame 500 "boom")).
Proof.
  split.
  - destruct (error_frame_switch_or_retry threeRetries "req_1" []
                (settling (MessageQueue.Resolved (errorFrame 429 "quota"))
                          (queueClosed "unknown"))
                1 0%nat 0 None (errorFrame 429 "quota")) as [H _].
    + apply RequestHandler.reaches_first.
    + vm_compute. discriminate.
    + reflexivity.
    + reflexivity.
    + reflexivity.
    + apply H. vm_compute. reflexivity.
  - destruct (error_frame_switch_or_retry threeRetries "req_1" []
                (settling (MessageQueue.Resolved (errorFrame 500 "boom"))
                          (queueClosed "unknown"))
                1 0%nat 0 None (errorFrame 500 "boom")) as [_ H].
    + apply RequestHandler.reaches_first.
    + vm_compute. discriminate.
    + reflexivity.
    + reflexivity.
    + reflexivity.
    + destruct H as [H _].
      * vm_compute. reflexivity.
      * vm_compute. reflexivity.
      * apply H. vm_compute. reflexivity.
Defined.

(** C7 as the specification words it, second half: an error frame whose
    status is outside the set is followed by another attempt while attempts
    remain, so the request is forwarded a second time. *)
Definition error_outside_codes_always_retried : Prop :=
  ∀ cfg requestId proxyRequest env frame,
    RequestHandler.connectedAtSend (env 1) = true →
    RequestHandler.dequeued (env 1) = MessageQueue.Resolved frame →
    Json.isStr "error" (Json.get "event_type" frame) = true →
    RequestHandler.isImmediateSwitch cfg frame = false →
    1 < RequestHandler.maxRetries cfg →
    RequestHandler.connectedAtSend (env 2) = true →
    (2 ≤ RequestHandler.forwards
           (RequestHandler._executeRequestWithRetries cfg requestId proxyRequest env).2)%nat.

(** C7 fails as worded: an upstream error 500 whose text mentions
    "Connection lost" is taken for a connection reset and ends the run at
    the first of three attempts, with the 503 failure in place of the
    frame. *)
Lemma error_text_connection_lost_ends_run : ¬ error_outside_codes_always_retried.
Proof.
  intros H.
  specialize (H threeRetries "req_1" []
                (settling (MessageQueue.Resolved
                             (errorFrame 500 "Proxy browser error: Connection lost"))
                          (MessageQueue.Resolved (Json.Obj [("type", Json.Str "STREAM_END")])))
                (errorFrame 500 "Proxy browser error: Connection lost")
                eq_refl eq_refl eq_refl eq_refl eq_refl eq_refl).
  vm_compute in H. lia.
Qed.

Example error_text_connection_lost_result :
  RequestHandler._executeRequestWithRetries threeRetries "req_1" []
    (settling (MessageQueue.Resolved (errorFrame 500 "Proxy browser error: Connection lost"))
              (MessageQueue.Resolved (Json.Obj [("type", Json.Str "STREAM_END")])))
  = (RequestHandler.Failure (Some RequestHandler.connectionLost),
     [RequestHandler.Forward 0 (RequestHandler.spread "proxy_request" [])]).
Proof. vm_compute. reflexivity. Qed.


(** ** Response shaping *)

Section PseudoStream.
Import Json RequestHandler.



Lemma getOpt_obj k fs : getOpt k (Some (Obj fs)) = get k (Obj fs).
Proof. done. Qed.





Definition geminiResponse (parts : list value) (finishReason : option value) : value :=
  Obj ([("candidates",
         Arr [Obj ([("content", Obj [("parts", Arr parts); ("role", Str "model")])]
                   ++ field "finishReason" finishReason)])]
       ++ [("usageMetadata", Obj [("totalTokenCount", Num 42)])]).


Definition textPart (text : string) : value := Obj [("text", Str text)].

End PseudoStream.



Example pseudo_stream_no_parts_no_record :
  RequestHandler.splitPseudoStream (Some (geminiResponse [] None)) "{}" = [].
Proof. reflexivity. Qed.

Section ImageRewrite.
Import Json RequestHandler.

Lemma assoc_assign {V} k (x : V) fs : assoc k (assign k x fs) = Some x.
Proof.
  induction fs as [|[k' v] fs IH]; simpl.
  - by rewrite String.eqb_refl.
  - destruct (String.eqb k' k) eqn:E; simpl; rewrite E; [done|exact IH].
Qed.

Lemma first_assignFirst candidates c x :
  first (Some candidates) = Some (Obj c) →
  first (Some (assignFirst x candidates)) = Some x.
Proof.
  destruct candidates as [| | |s|l|fs]; simpl; try done.
  - by destruct s.
  - by destruct l.
  - intros _. apply assoc_assign.
Qed.

Lemma partsOf_withParts fs candidates cfs ofs parts :
  assoc "candidates" fs = Some candidates →
  first (Some candidates) = Some (Obj cfs) →
  assoc "content" cfs = Some (Obj ofs) →
  partsOf (withParts parts (Obj fs)) = Some parts.
Proof.
  intros Hc Hf Ho. unfold withParts. rewrite Hc, Hf, Ho.
  unfold partsOf. simpl get. rewrite assoc_assign.
  erewrite first_assignFirst by exact Hf.
  rewrite getOpt_obj. simpl get. rewrite assoc_assign.
  rewrite getOpt_obj. simpl get. by rewrite assoc_assign.
Qed.

Definition chunkFrame (data : string) : value :=
  Obj [("data", Str data); ("event_type", Str "chunk"); ("request_id", Str "req_1")].

Definition streamEnd : value := Obj [("type", Str "STREAM_END")].

(** C4, as the code has it: the non-stream handler sends the chunks it
    gathered, concatenated, as they came; the rewriting exists in the helper
    [_processImageInResponse], which no handler calls: applied to a body
    whose [candidates[0].content.parts] is an array in which the first part
    with [inlineData] is at index [i] and carries [mimeType] and [data], it
    returns the body with part [i] replaced by the single text part
    [![Generated Image](data:<mime>;base64,<data>)]. *)
Theorem image_rewrite_in_helper_only :
  (∀ headerMessage frames res chunks,
     collect frames [] = Body chunks →
     ∃ r, nonStreamSuccess headerMessage frames res = Some r
          ∧ body r = Some (String.concat "" chunks))
  ∧ (∀ fs candidates cfs ofs parts i img image mime data,
     assoc "candidates" fs = Some candidates →
     first (Some candidates) = Some (Obj cfs) →
     assoc "content" cfs = Some (Obj ofs) →
     assoc "parts" ofs = Some (Arr parts) →
     findInlineData parts 0 = Some (Some i) →
     parts !! i = Some img →
     get "inlineData" img = Some image →
     get "mimeType" image = Some (Str mime) →
     get "data" image = Some (Str data) →
     ∃ j', _processImageInResponse (Some (Obj fs)) = Some j'
           ∧ partsOf j'
             = Some (<[i := Obj [("text",
                                  Str ("![Generated Image](data:" +:+ mime
                                       +:+ ";base64," +:+ data +:+ ")"))]]> parts)).
Proof.
  split.
  - intros headerMessage frames res chunks Hc. unfold nonStreamSuccess.
    rewrite Hc. by eexists.
  - intros fs candidates cfs ofs parts i img image mime data
           Hc Hf Ho Hp Hfind Hi Himg Hmime Hdata.
    unfold _processImageInResponse. simpl get. rewrite Hc, Hf.
    rewrite getOpt_obj. simpl get. rewrite Ho, getOpt_obj. simpl get. rewrite Hp.
    rewrite Hfind, Hi. eexists. split; [done|].
    erewrite partsOf_withParts by done. do 2 f_equal.
    destruct img; try done. rewrite getOpt_obj, Himg.
    destruct image; try done. unfold imageMarkdown.
    by rewrite !getOpt_obj, Hmime, Hdata.
Qed.

(** C4 as the specification words it: whenever the body of a non-stream
    response holds an inline image that the rewriting applies to, the body
    sent is the rewritten one. *)
Definition nonstream_sends_image_as_markdown : Prop :=
  ∀ headerMessage j j',
    _processImageInResponse (Some j) = Some j' →
    ∃ r, nonStreamSuccess headerMessage
           [MessageQueue.Resolved (chunkFrame (stringify j));
            MessageQueue.Resolved streamEnd] freshResponse = Some r
         ∧ body r = Some (stringify j').

Definition imagePart (mime data : string) : value :=
  Obj [("inlineData", Obj [("mimeType", Str mime); ("data", Str data)])].

End ImageRewrite.

Lemma image_rewrite_in_helper_only_witness :
  let parts := [textPart "Here it is"; imagePart "image/png" "iVBORw0KGgo="] in
  ∃ j', RequestHandler._processImageInResponse
          (Some (geminiResponse parts (Some (Json.Str "STOP")))) = Some j'
        ∧ RequestHandler.partsOf j'
          = Some [textPart "Here it is";
                  textPart "![Generated Image](data:image/png;base64,iVBORw0KGgo=)"].
Proof.
  intros parts.
  destruct image_rewrite_in_helper_only as [_ H].
  apply (H _ (Json.Arr [Json.Obj [("content", Json.Obj [("parts", Json.Arr parts);
                                                        ("role", Json.Str "model")]);
                                  ("finishReason", Json.Str "STOP")]])
           [("content", Json.Obj [("parts", Json.Arr parts); ("role", Json.Str "model")]);
            ("finishReason", Json.Str "STOP")]
           [("parts", Json.Arr parts); ("role", Json.Str "model")]
           parts 1%nat (imagePart "image/png" "iVBORw0KGgo=")
           (Json.Obj [("mimeType", Json.Str "image/png"); ("data", Json.Str "iVBORw0KGgo=")])
           "image/png" "iVBORw0KGgo="); reflexivity.
Defined.

(** C4 fails as worded: the body with an inline image reaches the client
    byte for byte as the browser sent it. *)
Lemma nonstream_relays_image_unchanged : ¬ nonstream_sends_image_as_markdown.
Proof.
  intros H.
  destruct (H (Json.Obj [("status", Json.Num 200)])
              (geminiResponse [imagePart "image/png" "iVBORw0KGgo="] (Some (Json.Str "STOP")))
              _ eq_refl) as (r & Hr & Hbody).
  vm_compute in Hr. injection Hr as <-. vm_compute in Hbody. discriminate Hbody.
Qed.

(** ** Client disconnect *)

Section ClientDisconnect.
Import Json RequestHandler.
Variable getAuthIndexForRequest : string → option Z.
Variable getConnectionByAuth : Z → option nat.

Local Abbreviation onResponseClose :=
  (onResponseClose getAuthIndexForRequest getConnectionByAuth).

(** What the handler does do: with the response not ended, the cancel frame
    goes on the socket of the identity the registry gives for the request
    (the switcher's current identity only when the registry gives none), the
    queue of the request is closed and forgotten, and the switcher with its
    failure counter is untouched. *)
Lemma client_disconnect_cancels_on_owner res requestId s owner connection l q :
  writableEnded res = false →
  getAuthIndexForRequest requestId = Some owner →
  getConnectionByAuth owner = Some connection →
  ConnectionRegistry.messageQueues (ConnectionRegistry.this (registry s)) !! requestId
    = Some l →
  ConnectionRegistry.store (registry s) !! l = Some q →
  let s' := onResponseClose res requestId s in
  transmitted s' = transmitted s ++ [(connection, cancelFrame requestId)]
  ∧ ConnectionRegistry.isClosed l (registry s') = Some true
  ∧ ConnectionRegistry.messageQueues (ConnectionRegistry.this (registry s')) !! requestId
    = None
  ∧ auth s' = auth s.
Proof.
  intros Hres Hown Hconn Hl Hq s'. subst s'. unfold RequestHandler.onResponseClose.
  rewrite Hres, Hown. unfold _cancelBrowserRequest. simpl. rewrite Hconn. simpl.
  unfold call_removeMessageQueue, ConnectionRegistry.removeMessageQueue. rewrite Hl.
  split; [done|]. split; [|split; [apply lookup_delete_eq|done]].
  unfold ConnectionRegistry.isClosed. simpl. rewrite lookup_alter_eq, Hq. done.
Qed.

End ClientDisconnect.


(** ** Header rewriting and re-targeting *)

#[local] Arguments String.append !_ _ : simpl nomatch.
#[local] Arguments Ascii.eqb : simpl never.

Section StringFacts.

Fixpoint allChars (p : ascii → bool) (s : string) : bool :=
  match s with
  | EmptyString => true
  | String c s' => p c && allChars p s'
  end.

Definition avoids (stop : ascii → bool) (s : string) : bool :=
  allChars (fun c => negb (stop c)) s.

Lemma append_nil_r s : s +:+ "" = s.
Proof. induction s as [|c s IH]; simpl; [done|by rewrite IH]. Qed.


Lemma prefix_append a b : JS.isPrefix a (a +:+ b) = true.
Proof.
  induction a as [|c a IH]; simpl; [done|]. by rewrite Ascii.eqb_refl.
Qed.


Lemma substringFrom_append a b : JS.substringFrom (String.length a) (a +:+ b) = b.
Proof. induction a; simpl; [by destruct b|done]. Qed.

Lemma includes_cons c s sub :
  JS.includes (String c s) sub
  = if JS.isPrefix sub (String c s) then true else JS.includes s sub.
Proof. done. Qed.




Lemma includes_append_r a s sub :
  JS.includes s sub = true → JS.includes (a +:+ s) sub = true.
Proof.
  induction a as [|c a IH]; intros H; [done|].
  change (String c a +:+ s) with (String c (a +:+ s)). rewrite includes_cons.
  destruct (JS.isPrefix sub (String c (a +:+ s))); [done|by apply IH].
Qed.

Lemma includes_self s b : JS.includes (s +:+ b) s = true.
Proof.
  destruct (s +:+ b) as [|c r] eqn:E.
  - destruct s; [done|discriminate E].
  - rewrite includes_cons, <- E, prefix_append. done.
Qed.


Lemma avoids_append stop a b :
  avoids stop (a +:+ b) = avoids stop a && avoids stop b.
Proof.
  induction a as [|c a IH]; simpl; [done|].
  unfold avoids in *. simpl. by rewrite IH, andb_assoc.
Qed.

End StringFacts.

Section UrlFacts.
Import Url.














End UrlFacts.

Section HeaderRewrite.
Import Url RequestHandler.








End HeaderRewrite.

Section Retarget.
Import Url Agent.















Lemma get_has k v (l : params) : Url.get k l = Some v → has k l = true.
Proof.
  induction l as [|[k' v'] l IH]; [done|]. unfold Url.get, has. simpl.
  destruct (String.eqb k' k); [done|]. exact IH.
Qed.


Lemma get_delete_same k (l : params) : Url.get k (Url.delete k l) = None.
Proof.
  induction l as [|[k0 v0] l IH]; [done|].
  unfold Url.get, Url.delete in *. simpl.
  destruct (String.eqb k0 k) eqn:E; simpl; [exact IH|]. by rewrite E.
Qed.

End Retarget.

Section RetargetClaim.
Import Url Agent.














End RetargetClaim.



(** * Further properties *)

(** ** The message queue: timers, closing, waiting order *)

Section QueueTimers.
Context {A : Type}.
Variable rev : MessageQueue.revision.
Import MessageQueue.
Implicit Types (q : t A) (ws : list resolver) (ts : list (nat * Z)).

(** The pending timers are those of the waiters, in the same order, and a
    waiter's timer carries the identity of its promise. *)
Definition tidy (q : t A) : Prop :=
  (timers q).*1 = promise <$> waitingResolvers q
  ∧ Forall (fun r => timeoutId r = Some (promise r)) (waitingResolvers q).

Lemma filter_fst_ne p ts :
  (filter (fun x => x.1 ≠ p) ts).*1 = filter (fun i => i ≠ p) ts.*1.
Proof.
  induction ts as [|x ts IH]; [done|].
  rewrite fmap_cons, !filter_cons.
  destruct (decide (x.1 ≠ p)); rewrite ?fmap_cons; by rewrite IH.
Qed.

Lemma filter_ne_absent (p : nat) (l : list nat) :
  p ∉ l → filter (fun i => i ≠ p) l = l.
Proof.
  induction l as [|i l IH]; intros Hp; [done|].
  apply not_elem_of_cons in Hp as [Hne Hp].
  rewrite filter_cons. destruct (decide (i ≠ p)); [|lia]. by rewrite IH.
Qed.

Lemma filter_ne_head (p : nat) (l : list nat) :
  p ∉ l → filter (fun i => i ≠ p) (p :: l) = l.
Proof.
  intros Hp. rewrite filter_cons. destruct (decide (p ≠ p)); [done|].
  by apply filter_ne_absent.
Qed.

Lemma splice_promises p ws :
  NoDup (promise <$> ws) →
  promise <$> spliceResolver p ws = filter (fun i => i ≠ p) (promise <$> ws).
Proof.
  induction ws as [|r ws IH]; intros Hnd; [done|].
  rewrite fmap_cons in Hnd |- *. apply NoDup_cons in Hnd as [Hnotin Hnd].
  cbn [spliceResolver].
  destruct (Nat.eqb_spec (promise r) p) as [<-|Hne].
  - by rewrite filter_ne_head.
  - rewrite filter_cons. destruct (decide (promise r ≠ p)); [|done].
    rewrite fmap_cons. by rewrite IH.
Qed.

Lemma isWaiting_elem p ws : isWaiting p ws = true ↔ p ∈ promise <$> ws.
Proof.
  unfold isWaiting. rewrite existsb_exists. split.
  - intros (r & Hr & Heq). apply Nat.eqb_eq in Heq. subst p.
    apply list_elem_of_fmap. exists r. split; [done|]. by apply list_elem_of_In.
  - intros (r & -> & Hr)%list_elem_of_fmap. exists r.
    split; [by apply list_elem_of_In|apply Nat.eqb_refl].
Qed.

Lemma pending_elem p ts :
  existsb (fun x : nat * Z => Nat.eqb x.1 p) ts = true ↔ p ∈ ts.*1.
Proof.
  rewrite existsb_exists. split.
  - intros (x & Hx & Heq). apply Nat.eqb_eq in Heq. subst p.
    apply list_elem_of_fmap. exists x. split; [done|]. by apply list_elem_of_In.
  - intros (x & -> & Hx)%list_elem_of_fmap. exists x.
    split; [by apply list_elem_of_In|apply Nat.eqb_refl].
Qed.

Lemma rejectAll_clears r ws : ∀ (acc : list (nat * Z) * list (nat * settlement A)),
  Forall (fun w => timeoutId w = Some (promise w)) ws →
  (∀ i, i ∈ acc.1.*1 → i ∈ promise <$> ws) →
  (rejectAll r acc ws).1 = [].
Proof.
  induction ws as [|w ws IH]; intros acc Hids Hin.
  - simpl. destruct acc as [[|x ts] s]; [done|]. simpl in *.
    specialize (Hin x.1). rewrite elem_of_cons in Hin.
    exfalso. eapply elem_of_nil, Hin. by left.
  - apply Forall_cons in Hids as [Hid Hids].
    unfold rejectAll in *. simpl. apply IH; [done|]. simpl.
    rewrite Hid. simpl. intros i Hi. rewrite filter_fst_ne in Hi.
    apply list_elem_of_filter in Hi as [Hne Hi].
    specialize (Hin i Hi). simpl in Hin.
    apply elem_of_cons in Hin as [->|Hin]; [done|done].
Qed.

Lemma new_tidy tm : tidy (new (A:=A) tm).
Proof. split; [done|constructor]. Qed.

Lemma enqueue_tidy q m : wf q → tidy q → tidy (enqueue rev m q).
Proof.
  intros Hwf [Ht Hid]. unfold enqueue.
  destruct (closed q); [done|].
  destruct Hwf as [_ _ Hnd _ _ _ _ _].
  destruct (waitingResolvers q) as [|r rest] eqn:Ew; [done|].
  apply Forall_cons in Hid as [Hr Hid]. simpl in Ht, Hnd.
  apply NoDup_cons in Hnd as [Hnotin Hnd].
  rewrite Hr. destruct rev; (split; [|done]); simpl.
  all: by rewrite filter_fst_ne, Ht, filter_ne_head.
Qed.

Lemma dequeue_tidy q tm : tidy q → tidy (dequeue rev tm q).2.
Proof.
  intros [Ht Hid]. unfold dequeue.
  destruct (closed q); [done|].
  destruct (messages q); [|done].
  split; simpl.
  - by rewrite !fmap_app, Ht.
  - apply Forall_app. split; [done|]. by constructor.
Qed.

Lemma close_tidy q r : tidy q → tidy (close rev r q).
Proof.
  intros [Ht Hid]. split; simpl; [|constructor].
  fold (rejectAll (default "unknown" r) (timers q, settled q) (waitingResolvers q)).
  rewrite rejectAll_clears; [done|done|]. simpl. intros i Hi. by rewrite <- Ht.
Qed.

Lemma timeout_tidy q p : wf q → tidy q → tidy (timeout rev p q).
Proof.
  intros Hwf [Ht Hid]. unfold timeout.
  destruct (existsb _ (timers q)) eqn:Ep; [|done].
  apply pending_elem in Ep. rewrite Ht in Ep.
  destruct Hwf as [_ _ Hnd _ _ _ _ _].
  assert (tidy (Queue (messages q) (spliceResolver p (waitingResolvers q))
                      (defaultTimeout q) (closed q) (closeReason q)
                      (clearTimeout (Some p) (timers q))
                      (settle p (Rejected (QueueTimeoutError "Queue timeout")) (settled q))
                      (fresh q))) as Hmain.
  { split; simpl.
    - by rewrite filter_fst_ne, Ht, splice_promises.
    - eapply Forall_sub; [apply spliceResolver_sublist|done]. }
  destruct rev; [|done].
  apply isWaiting_elem in Ep. by rewrite Ep.
Qed.

Lemma fifo_own q : fifo q (values (settled q) ++ messages q).
Proof. unfold fifo. destruct (closed q); [by apply prefix_app_r|done]. Qed.

Lemma step_wf q o : wf q → wf (step rev q o).
Proof.
  intros Hwf. pose proof (fifo_own q) as Hf.
  destruct o as [m|tm|r|p]; simpl.
  - by destruct (enqueue_inv rev q m _ Hwf Hf).
  - by destruct (dequeue_inv rev q tm _ Hwf Hf).
  - by destruct (close_inv rev q r _ Hwf Hf).
  - by destruct (timeout_inv rev q p _ Hwf Hf).
Qed.

Lemma step_tidy q o : wf q → tidy q → tidy (step rev q o).
Proof.
  intros Hwf Ht. destruct o as [m|tm|r|p]; simpl.
  - by apply enqueue_tidy.
  - by apply dequeue_tidy.
  - by apply close_tidy.
  - by apply timeout_tidy.
Qed.

Lemma run_tidy ops : ∀ q, wf q → tidy q → wf (run rev ops q) ∧ tidy (run rev ops q).
Proof.
  induction ops as [|o ops IH]; intros q Hwf Ht; [done|]. simpl.
  apply IH; [by apply step_wf|by apply step_tidy].
Qed.

Lemma reachable_tidy ops tm :
  wf (run rev ops (new tm)) ∧ tidy (run rev ops (new tm)).
Proof. apply run_tidy; [apply new_wf|apply new_tidy]. Qed.

Lemma parked_elem q p : wf q → isParked p q = true ↔ p ∈ promise <$> waitingResolvers q.
Proof.
  intros [_ Hpark _ _ _ _ _ _]. unfold isParked. rewrite andb_true_iff, isWaiting_elem.
  split; [by intros [? _]|]. intros Hp. split; [done|].
  apply list_elem_of_fmap in Hp as (r & -> & Hr).
  rewrite Forall_forall in Hpark. destruct (Hpark _ Hr) as [-> _]. done.
Qed.

(** X1.  Over every run of either revision of the queue, the timers that
    are pending are exactly the timers of the dequeuers still parked, in
    the order they arrived: a dequeuer is parked if and only if its timer
    is pending, and a closed queue has no timer left. *)
Theorem pending_timers_are_parked_dequeuers (ops : list (op (A:=A))) tm :
  let q := run rev ops (new tm) in
  (timers q).*1 = promise <$> waitingResolvers q
  ∧ (∀ p, isParked p q = true ↔ p ∈ (timers q).*1)
  ∧ (closed q = true → timers q = []).
Proof.
  intros q. destruct (reachable_tidy ops tm) as [Hwf [Ht Hid]]. fold q in Hwf, Ht, Hid.
  split; [done|]. split.
  - intros p. rewrite Ht. by apply parked_elem.
  - intros Hc. destruct Hwf as [_ _ _ _ _ _ _ Hcl].
    destruct (Hcl Hc) as [Hw _]. rewrite Hw in Ht. simpl in Ht.
    by apply fmap_nil_inv in Ht.
Qed.

End QueueTimers.

Section QueueLife.
Context {A : Type}.
Variable rev : MessageQueue.revision.
Import MessageQueue.
Implicit Types (q : t A) (ws : list resolver).

Definition closedRejection (x : nat * settlement A) : Prop :=
  ∃ m r, x.2 = Rejected (QueueClosedError m r).

Lemma closed_step q o :
  wf q → tidy q → closed q = true →
  closed (step rev q o) = true
  ∧ ∃ extra, settled (step rev q o) = settled q ++ extra ∧ Forall closedRejection extra.
Proof.
  intros Hwf [Ht _] Hc.
  pose proof Hwf as [_ _ _ Hb _ _ _ Hcl]. destruct (Hcl Hc) as [Hw Hm].
  destruct o as [m|tm|r|p]; simpl.
  - unfold enqueue. rewrite Hc. split; [done|]. exists []. by rewrite app_nil_r.
  - unfold dequeue. rewrite Hc. simpl. split; [done|].
    unfold settle. rewrite (isSettled_bound _ _ (fresh q)) by done.
    eexists. split; [done|]. constructor; [|done].
    unfold closedRejection, closedError. simpl. destruct rev; by eauto.
  - unfold close. rewrite Hw. simpl. split; [done|]. exists []. by rewrite app_nil_r.
  - unfold timeout. rewrite Hw in Ht. simpl in Ht. apply fmap_nil_inv in Ht.
    rewrite Ht. simpl. split; [done|]. exists []. by rewrite app_nil_r.
Qed.

Lemma closed_run ops : ∀ q,
  wf q → tidy q → closed q = true →
  closed (run rev ops q) = true
  ∧ ∃ extra, settled (run rev ops q) = settled q ++ extra ∧ Forall closedRejection extra.
Proof.
  induction ops as [|o ops IH]; intros q Hwf Ht Hc.
  - split; [done|]. exists []. by rewrite app_nil_r.
  - simpl. destruct (closed_step q o Hwf Ht Hc) as (Hc' & e1 & He1 & Hf1).
    destruct (IH (step rev q o) (step_wf rev q o Hwf) (step_tidy rev q o Hwf Ht) Hc')
      as (Hc'' & e2 & He2 & Hf2).
    split; [done|]. exists (e1 ++ e2). split.
    + rewrite He2, He1. by rewrite app_assoc.
    + by apply Forall_app.
Qed.

Lemma values_closedRejections (extra : list (nat * settlement A)) :
  Forall closedRejection extra → values extra = [].
Proof.
  induction 1 as [|x l (m & r & Hx) _ IH]; [done|].
  unfold values in *. simpl. by rewrite Hx.
Qed.

(** X2.  Closing is final.  Whatever is done to a queue after [close]
    (frames enqueued, further dequeues, timers, another [close]), it stays
    closed and empty, no frame is handed to anybody any more, and the only
    new outcomes are rejections with [QueueClosedError]. *)
Theorem closed_queue_stays_silent (ops ops' : list (op (A:=A))) r tm :
  let q := close rev r (run rev ops (new tm)) in
  let q' := run rev ops' q in
  closed q' = true ∧ messages q' = [] ∧ waitingResolvers q' = []
  ∧ delivered q' = delivered q
  ∧ ∃ extra, settled q' = settled q ++ extra ∧ Forall closedRejection extra.
Proof.
  intros q q'. destruct (reachable_tidy rev ops tm) as [Hwf0 Ht0].
  assert (wf q) as Hwf by (by apply (step_wf rev _ (Close r))).
  assert (tidy q) as Ht by (by apply close_tidy).
  destruct (closed_run ops' q Hwf Ht eq_refl) as (Hc & extra & He & Hf).
  destruct (run_tidy rev ops' q Hwf Ht) as [[_ _ _ _ _ _ _ Hcl] _].
  destruct (Hcl Hc) as [Hw Hm]. fold q' in Hw, Hm, He, Hc.
  split; [done|]. split; [done|]. split; [done|]. split; [|by exists extra].
  change (values (settled q') = values (settled q)).
  rewrite He. unfold values. rewrite omap_app.
  fold (values extra). rewrite (values_closedRejections extra Hf). by rewrite app_nil_r.
Qed.

Lemma outcome_find p q x :
  outcome p q = Some x ↔ ∃ i, List.find (fun y => Nat.eqb y.1 p) (settled q) = Some (i, x).
Proof.
  unfold outcome. destruct (List.find _ _) as [[i y]|]; simpl.
  - split; [intros [= ->]; by exists i|intros (j & [= _ ->]); done].
  - split; [done|intros (j & [=])].
Qed.

Lemma outcome_step_keep q o p x :
  outcome p q = Some x → outcome p (step rev q o) = Some x.
Proof.
  rewrite !outcome_find. intros (i & Hi). exists i.
  destruct o as [m|tm|r|p']; simpl.
  - unfold enqueue. destruct (closed q); [done|].
    destruct (waitingResolvers q) as [|w ws]; [done|].
    destruct rev, (timeoutId w); simpl; try done; by apply find_settle_keep.
  - unfold dequeue. destruct (closed q); [by apply find_settle_keep|].
    destruct (messages q); simpl; [done|by apply find_settle_keep].
  - unfold close. simpl.
    fold (rejectAll (default "unknown" r) (timers q, settled q) (waitingResolvers q)).
    by apply (rejectAll_find_keep _ p _ _ (_, _)).
  - unfold timeout. destruct (existsb _ _); [|done].
    destruct rev; [destruct (isWaiting _ _)|]; simpl; try done; by apply find_settle_keep.
Qed.

Lemma outcome_run_keep ops : ∀ q p x,
  outcome p q = Some x → outcome p (run rev ops q) = Some x.
Proof.
  induction ops as [|o ops IH]; intros q p x H; [done|].
  simpl. apply IH. by apply outcome_step_keep.
Qed.

Lemma isWaiting_splice p ws :
  NoDup (promise <$> ws) → isWaiting p (spliceResolver p ws) = false.
Proof.
  intros Hnd. apply not_true_is_false. rewrite isWaiting_elem.
  rewrite splice_promises by done. intros [Hne _]%list_elem_of_filter. done.
Qed.

(** X3.  A parked dequeuer whose timer fires is rejected with
    [QueueTimeoutError], leaves the waiting list, and keeps that outcome
    whatever happens to the queue afterwards: a frame arriving later is not
    given to it. *)
Theorem timed_out_dequeuer_keeps_timeout (ops : list (op (A:=A))) tm p :
  let q := run rev ops (new tm) in
  isParked p q = true →
  isWaiting p (waitingResolvers (timeout rev p q)) = false
  ∧ ∀ ops', outcome p (run rev ops' (timeout rev p q))
            = Some (Rejected (QueueTimeoutError "Queue timeout")).
Proof.
  intros q Hp. destruct (reachable_tidy rev ops tm) as [Hwf [Ht Hid]].
  fold q in Hwf, Ht, Hid.
  pose proof Hp as Hin. apply (parked_elem q p Hwf) in Hin.
  assert (existsb (fun x : nat * Z => Nat.eqb x.1 p) (timers q) = true) as Hpending.
  { apply pending_elem. by rewrite Ht. }
  assert (isWaiting p (waitingResolvers q) = true) as Hw by (by apply isWaiting_elem).
  apply andb_true_iff in Hp as [_ Hs]. apply negb_true_iff in Hs.
  destruct Hwf as [_ _ Hnd _ _ _ _ _].
  split.
  - unfold timeout. rewrite Hpending.
    destruct rev; [rewrite Hw|]; simpl; by apply isWaiting_splice.
  - intros ops'. apply outcome_run_keep. apply outcome_find. exists p.
    unfold timeout. rewrite Hpending.
    destruct rev; [rewrite Hw|]; simpl; by apply find_settle_new.
Qed.

(** Runs without [close] and without timers firing. *)
Definition plain (ops : list (op (A:=A))) : bool :=
  forallb (fun o => match o with Enqueue _ | Dequeue _ => true | _ => false end) ops.

Definition isDequeue (o : op (A:=A)) : bool :=
  match o with Dequeue _ => true | _ => false end.

Definition dequeues (ops : list (op (A:=A))) : nat :=
  List.length (List.filter isDequeue ops).

(** The state after [d] dequeues and the frames [enq]: dequeuer [i] holds
    frame [i], the frames beyond the dequeuers are buffered and the
    dequeuers beyond the frames wait. *)
Record paired (q : t A) (enq : list A) (d : nat) : Prop := {
  paired_open : closed q = false;
  paired_fresh : fresh q = d;
  paired_served : ∀ i m, (i < d)%nat → enq !! i = Some m → outcome i q = Some (Resolved m);
  paired_settled : ∀ i, isSettled i (settled q) = true → (i < d ∧ i < List.length enq)%nat;
  paired_buffer : messages q = drop d enq;
  paired_waiting : promise <$> waitingResolvers q = seq (List.length enq) (d - List.length enq);
  paired_live : Forall (fun r => timeoutId r ≠ None) (waitingResolvers q)
}.

Lemma isSettled_settle_inv i p (o : settlement A) l :
  isSettled i (settle p o l) = true → i = p ∨ isSettled i l = true.
Proof.
  destruct (decide (i = p)) as [->|Hne]; [by left|].
  rewrite isSettled_settle_other by done. by right.
Qed.

Lemma outcome_settle_new p (o : settlement A) q q' :
  settled q' = settle p o (settled q) → isSettled p (settled q) = false →
  outcome p q' = Some o.
Proof.
  intros Hq Hs. apply outcome_find. exists p. rewrite Hq. by apply find_settle_new.
Qed.

Lemma outcome_settle_keep p (o : settlement A) q q' i x :
  settled q' = settle p o (settled q) → outcome i q = Some x → outcome i q' = Some x.
Proof.
  rewrite !outcome_find. intros Hq (j & Hj). exists j. rewrite Hq.
  by apply find_settle_keep.
Qed.

Lemma paired_enqueue q enq d m :
  paired q enq d → paired (enqueue rev m q) (enq ++ [m]) d.
Proof.
  intros [Ho Hf Hserved Hset Hbuf Hwait Hlive]. unfold enqueue. rewrite Ho.
  destruct (waitingResolvers q) as [|r rest] eqn:Ew.
  - simpl in Hwait. symmetry in Hwait.
    assert (d - List.length enq = 0)%nat as Hd.
    { destruct (d - List.length enq)%nat; [done|discriminate Hwait]. }
    split; simpl; try done.
    + intros i x Hi Hx. apply Hserved; [done|].
      rewrite lookup_app_l in Hx by lia. done.
    + intros i Hi. destruct (Hset i Hi). rewrite length_app. simpl. lia.
    + rewrite Hbuf. rewrite drop_app_le by lia. done.
    + rewrite length_app. simpl. by replace (d - (List.length enq + 1))%nat with 0%nat by lia.
  - rewrite fmap_cons in Hwait.
    destruct (d - List.length enq)%nat as [|k] eqn:Hd; [discriminate Hwait|].
    simpl in Hwait. injection Hwait as Hr Hrest.
    apply Forall_cons in Hlive as [Hrl Hlive].
    assert (isSettled (promise r) (settled q) = false) as Hns.
    { apply not_true_is_false. intros Hs. destruct (Hset _ Hs). lia. }
    assert (paired (Queue (messages q) rest (defaultTimeout q) false (closeReason q)
                          (clearTimeout (timeoutId r) (timers q))
                          (settle (promise r) (Resolved m) (settled q)) (fresh q))
                   (enq ++ [m]) d) as Hmain.
    { split; simpl; try done.
      - intros i x Hi Hx. destruct (decide (i < List.length enq)%nat) as [Hlt|Hge].
        + rewrite lookup_app_l in Hx by done.
          eapply outcome_settle_keep; [done|]. by apply Hserved.
        + assert (i = List.length enq) as ->.
          { apply lookup_lt_Some in Hx. rewrite length_app in Hx. simpl in Hx. lia. }
          rewrite list_lookup_middle in Hx by done. injection Hx as <-.
          rewrite <- Hr. by eapply outcome_settle_new.
      - intros i Hi. rewrite length_app. simpl.
        apply isSettled_settle_inv in Hi as [->|Hi]; [lia|].
        destruct (Hset i Hi). lia.
      - rewrite Hbuf. rewrite !drop_ge; [done| |lia].
        rewrite length_app. simpl. lia.
      - rewrite Hrest, length_app. simpl.
        replace (d - (List.length enq + 1))%nat with k by lia.
        by replace (List.length enq + 1)%nat with (S (List.length enq)) by lia. }
    destruct rev, (timeoutId r) eqn:Et; try done.
Qed.

Lemma paired_dequeue q enq d tm :
  paired q enq d → paired (dequeue rev tm q).2 enq (S d).
Proof.
  intros [Ho Hf Hserved Hset Hbuf Hwait Hlive]. unfold dequeue. rewrite Ho, Hf.
  assert (isSettled d (settled q) = false) as Hns.
  { apply not_true_is_false. intros Hs. destruct (Hset _ Hs). lia. }
  destruct (messages q) as [|m rest] eqn:Em.
  - symmetry in Hbuf.
    assert (List.length enq ≤ d)%nat as Hle.
    { destruct (decide (List.length enq ≤ d)%nat); [done|].
      assert (is_Some (enq !! d)) as [x Hx] by (apply lookup_lt_is_Some; lia).
      by rewrite (drop_S _ _ _ Hx) in Hbuf. }
    split; simpl; try done.
    + intros i x Hi Hx. apply lookup_lt_Some in Hx as Hlt. apply Hserved; [lia|done].
    + intros i Hi. destruct (Hset i Hi). lia.
    + rewrite drop_ge by lia. done.
    + rewrite fmap_app, Hwait. simpl.
      replace (S d - List.length enq)%nat with (S (d - List.length enq)) by lia.
      rewrite seq_S. by replace (List.length enq + (d - List.length enq))%nat with d by lia.
    + apply Forall_app. split; [done|]. by constructor.
  - assert (enq !! d = Some m ∧ rest = drop (S d) enq) as [Hd Hrest].
    { destruct (enq !! d) as [x|] eqn:Hx.
      - rewrite (drop_S _ _ _ Hx) in Hbuf. by injection Hbuf as -> ->.
      - apply lookup_ge_None in Hx. rewrite drop_ge in Hbuf by done. discriminate Hbuf. }
    apply lookup_lt_Some in Hd as Hlt.
    split; simpl; try done.
    + intros i x Hi Hx. destruct (decide (i = d)) as [->|Hne].
      * rewrite Hd in Hx. injection Hx as <-. by eapply outcome_settle_new.
      * eapply outcome_settle_keep; [done|]. apply Hserved; [lia|done].
    + intros i Hi. apply isSettled_settle_inv in Hi as [->|Hi]; [lia|].
      destruct (Hset i Hi). lia.
    + rewrite Hwait. by replace (d - List.length enq)%nat with (S d - List.length enq)%nat by lia.
Qed.

Lemma paired_run ops : ∀ q enq d,
  plain ops = true → paired q enq d →
  paired (run rev ops q) (enq ++ enqueued ops) (d + dequeues ops).
Proof.
  induction ops as [|o ops IH]; intros q enq d Hplain Hp.
  - simpl. rewrite app_nil_r. unfold dequeues. simpl. by rewrite Nat.add_0_r.
  - simpl in Hplain. apply andb_true_iff in Hplain as [Ho Hplain].
    destruct o as [m|tm|r|p]; try discriminate Ho; simpl.
    + pose proof (IH _ _ d Hplain (paired_enqueue q enq d m Hp)) as H.
      rewrite <- app_assoc in H. exact H.
    + pose proof (IH _ _ (S d) Hplain (paired_dequeue q enq d tm Hp)) as H.
      unfold dequeues in *. simpl.
      by replace (d + S (List.length (List.filter isDequeue ops)))%nat
        with (S d + List.length (List.filter isDequeue ops))%nat by lia.
Qed.

Lemma paired_new tm : paired (new (A:=A) tm) [] 0.
Proof. split; simpl; done. Qed.

(** X4.  Dequeuers are served in the order they arrived.  In a run of
    enqueues and dequeues (no close, no timer firing) the [i]-th dequeue
    receives the [i]-th frame enqueued, whichever of the two came first. *)
Theorem dequeuers_served_in_arrival_order (ops : list (op (A:=A))) tm i m :
  plain ops = true →
  enqueued ops !! i = Some m →
  (i < dequeues ops)%nat →
  outcome i (run rev ops (new tm)) = Some (Resolved m).
Proof.
  intros Hplain Hm Hi.
  pose proof (paired_run ops (new tm) [] 0%nat Hplain (paired_new tm)) as [_ _ Hserved _ _ _ _].
  by apply Hserved.
Qed.

End QueueLife.

(** Two dequeuers arrive before any frame; the frames reach them in
    order. *)
Lemma dequeuers_served_in_arrival_order_witness :
  MessageQueue.outcome 1
    (MessageQueue.run MessageQueue.Current
       [MessageQueue.Dequeue None; MessageQueue.Dequeue (Some 1000);
        MessageQueue.Enqueue "a"; MessageQueue.Enqueue "b"; MessageQueue.Enqueue "c"]
       (MessageQueue.new None))
  = Some (MessageQueue.Resolved "b").
Proof.
  apply (dequeuers_served_in_arrival_order MessageQueue.Current
           [MessageQueue.Dequeue None; MessageQueue.Dequeue (Some 1000);
            MessageQueue.Enqueue "a"; MessageQueue.Enqueue "b"; MessageQueue.Enqueue "c"]
           None 1%nat "b" eq_refl eq_refl).
  vm_compute. lia.
Defined.

(** A dequeuer parked behind a served one times out; the frame that comes
    afterwards is buffered for the next dequeuer. *)
Lemma timed_out_dequeuer_keeps_timeout_witness :
  let q := MessageQueue.run MessageQueue.Current
             [MessageQueue.Dequeue None; MessageQueue.Enqueue "a"; MessageQueue.Dequeue None]
             (MessageQueue.new None) in
  MessageQueue.outcome 1
    (MessageQueue.run MessageQueue.Current
       [MessageQueue.Enqueue "b"; MessageQueue.Dequeue None]
       (MessageQueue.timeout MessageQueue.Current 1 q))
  = Some (MessageQueue.Rejected (MessageQueue.QueueTimeoutError "Queue timeout"))
  ∧ MessageQueue.outcome 2
      (MessageQueue.run MessageQueue.Current
         [MessageQueue.Enqueue "b"; MessageQueue.Dequeue None]
         (MessageQueue.timeout MessageQueue.Current 1 q))
    = Some (MessageQueue.Resolved "b").
Proof.
  intros q. split; [|reflexivity].
  destruct (timed_out_dequeuer_keeps_timeout MessageQueue.Current
              [MessageQueue.Dequeue None; MessageQueue.Enqueue "a"; MessageQueue.Dequeue None]
              None 1%nat eq_refl) as [_ H].
  apply (H [MessageQueue.Enqueue "b"; MessageQueue.Dequeue None]).
Defined.

(** ** The connection registry: routing and the grace timer *)

(** Case analysis on a string that is matched against literals: one
    character, one bit at a time, leaving the branches of the literals. *)
Ltac split_literal_by tac :=
  repeat (first
    [ tac
    | match goal with
      | |- context [match ?b with true => _ | false => _ end] =>
          is_var b; destruct b; cbv beta iota
      | |- context [match ?a with Ascii _ _ _ _ _ _ _ _ => _ end] =>
          is_var a; destruct a; cbv beta iota
      | |- context [match ?s with EmptyString => _ | String _ _ => _ end] =>
          is_var s; destruct s; cbv beta iota
      end ]).

Ltac split_literal := split_literal_by ltac:(idtac; reflexivity).

Section RegistryRouting.
Import ConnectionRegistry.

Definition streamEndFrame : Json.value := Json.Obj [("type", Json.Str "STREAM_END")].

Definition relayedKinds : list string := ["response_headers"; "chunk"; "error"].

Lemma routeMessage_relayed m l w kind :
  kind ∈ relayedKinds → Json.get "event_type" m = Some (Json.Str kind) →
  _routeMessage m l w
  = updateStore (alter (MessageQueue.enqueue MessageQueue.Current m) l (store w)) w.
Proof.
  intros Hk He. unfold _routeMessage. rewrite He.
  unfold relayedKinds in Hk. rewrite !elem_of_cons in Hk.
  destruct Hk as [->|[->|[->|Hk]]]; [done|done|done|by apply elem_of_nil in Hk].
Qed.

Lemma routeMessage_close m l w :
  Json.get "event_type" m = Some (Json.Str "stream_close") →
  _routeMessage m l w
  = updateStore (alter (MessageQueue.enqueue MessageQueue.Current streamEndFrame) l (store w)) w.
Proof. intros He. unfold _routeMessage. by rewrite He. Qed.

Lemma handleIncoming_registered m id l w :
  id ≠ "" → Json.get "request_id" m = Some (Json.Str id) →
  messageQueues (this w) !! id = Some l →
  _handleIncomingMessage (Some m) w = _routeMessage m l w.
Proof.
  intros Hne Hid Hl. unfold _handleIncomingMessage.
  destruct m; try discriminate Hid. rewrite Hid.
  destruct (String.eqb_spec id ""); [done|]. by rewrite Hl.
Qed.

Lemma parked_then_enqueued (q : queue) tm frame :
  wf q → MessageQueue.closed q = false → MessageQueue.messages q = [] →
  MessageQueue.waitingResolvers q = [] →
  let r := MessageQueue.dequeue MessageQueue.Current tm q in
  MessageQueue.outcome r.1 (MessageQueue.enqueue MessageQueue.Current frame r.2)
  = Some (MessageQueue.Resolved frame).
Proof.
  intros [_ _ _ Hb _ _ _ _] Hc Hm Hw r. subst r.
  unfold MessageQueue.dequeue. rewrite Hc, Hm, Hw. simpl.
  unfold MessageQueue.enqueue. simpl. unfold MessageQueue.outcome. simpl.
  rewrite find_settle_new; [done|]. by eapply isSettled_bound.
Qed.

(** X5.  A handler parked on the queue of its request receives what the
    browser sends for that request: a [response_headers], [chunk] or
    [error] frame arrives as it was sent, a [stream_close] frame arrives as
    the end signal [{type: "STREAM_END"}], and a frame of any other type is
    dropped. *)
Theorem frame_reaches_parked_handler w id l (q : queue) tm p w1 m kind :
  messageQueues (this w) !! id = Some l →
  store w !! l = Some q →
  wf q → MessageQueue.closed q = false →
  MessageQueue.messages q = [] → MessageQueue.waitingResolvers q = [] →
  dequeueOn l tm w = (Some p, w1) →
  id ≠ "" →
  Json.get "request_id" m = Some (Json.Str id) →
  Json.get "event_type" m = Some (Json.Str kind) →
  let w2 := _handleIncomingMessage (Some m) w1 in
  (kind ∈ relayedKinds → outcomeOn l p w2 = Some (MessageQueue.Resolved m))
  ∧ (kind = "stream_close" → outcomeOn l p w2 = Some (MessageQueue.Resolved streamEndFrame))
  ∧ (kind ∉ relayedKinds → kind ≠ "stream_close" → w2 = w1).
Proof.
  intros Hl Hq Hwf Hc Hm Hw Hd Hne Hid Hk w2. subst w2.
  unfold dequeueOn in Hd. rewrite Hq in Hd. injection Hd as <- <-.
  rewrite (handleIncoming_registered m id l) by done.
  split; [|split].
  - intros Hin. rewrite (routeMessage_relayed m l _ kind) by done.
    unfold outcomeOn. simpl. rewrite lookup_alter_eq, lookup_insert_eq. simpl.
    by apply parked_then_enqueued.
  - intros ->. rewrite routeMessage_close by done.
    unfold outcomeOn. simpl. rewrite lookup_alter_eq, lookup_insert_eq. simpl.
    by apply parked_then_enqueued.
  - intros Hnot Hnc. unfold _routeMessage. rewrite Hk.
    unfold relayedKinds in Hnot. rewrite !not_elem_of_cons in Hnot.
    destruct Hnot as (H1 & H2 & H3 & _).
    split_literal.
    all: exfalso; first [by apply H1|by apply H2|by apply H3|by apply Hnc].
Qed.

(** X6.  Frames that arrive late are dropped.  Once the queue of a
    request has been removed, or every queue has been dropped because the
    grace timer fired or a socket was added while it was set, a frame from
    the browser changes nothing: no queue receives it. *)
Theorem late_frames_are_dropped w m :
  (∀ id, id ≠ "" → Json.get "request_id" m = Some (Json.Str id) →
     _handleIncomingMessage (Some m) (removeMessageQueue id w) = removeMessageQueue id w)
  ∧ (∀ h parsed, h ∈ graceTimers w →
       _handleIncomingMessage parsed (graceTimerFire h w) = graceTimerFire h w)
  ∧ (∀ h websocket parsed, reconnectGraceTimer (this w) = Some h →
       _handleIncomingMessage parsed (addConnection websocket w) = addConnection websocket w).
Proof.
  assert (∀ parsed w', messageQueues (this w') = ∅ →
            _handleIncomingMessage parsed w' = w') as Hempty.
  { intros parsed w' He. unfold _handleIncomingMessage.
    destruct parsed as [[]|]; try done. simpl.
    destruct (Json.assoc "request_id" fields) as [[]|]; try done.
    destruct (String.eqb s ""); [done|]. by rewrite He, lookup_empty. }
  split; [|split].
  - intros id Hne Hid. unfold _handleIncomingMessage.
    destruct m; try discriminate Hid. rewrite Hid.
    destruct (String.eqb_spec id ""); [done|].
    unfold removeMessageQueue.
    destruct (messageQueues (this w) !! id) as [l|] eqn:Hl; simpl.
    + by rewrite lookup_delete_eq.
    + by rewrite Hl.
  - intros h parsed Hh. apply Hempty.
    unfold graceTimerFire. rewrite bool_decide_eq_true_2 by done.
    by destruct (onConnectionLostCallback (this w) && negb (isReconnecting (this w))).
  - intros h websocket parsed Hh. apply Hempty.
    unfold addConnection. by rewrite Hh.
Qed.

End RegistryRouting.

Section RegistryTimers.
Import ConnectionRegistry.

(** What can happen to a registry: sockets open and close, a grace timer
    fires, the reconnect callback returns, frames arrive, and request
    handlers create, use and remove their queues. *)
Inductive event : Type :=
  | SocketOpened (websocket : nat)
  | SocketClosed (websocket : nat)
  | GraceTimerFired (h : nat)
  | CallbackReturned
  | FrameArrived (parsedMessage : option Json.value)
  | QueueCreated (requestId : string)
  | QueueRemoved (requestId : string)
  | Dequeued (queue : nat) (timeoutMs : option Z)
  | Closed (queue : nat) (reason : option string).

Definition happen (w : t) (e : event) : t :=
  match e with
  | SocketOpened websocket => addConnection websocket w
  | SocketClosed websocket => _removeConnection websocket w
  | GraceTimerFired h => graceTimerFire h w
  | CallbackReturned => callbackReturn w
  | FrameArrived parsedMessage => _handleIncomingMessage parsedMessage w
  | QueueCreated requestId => (createMessageQueue requestId w).2
  | QueueRemoved requestId => removeMessageQueue requestId w
  | Dequeued l timeoutMs => (dequeueOn l timeoutMs w).2
  | Closed l reason => closeOn l reason w
  end.

Definition history (es : list event) (w : t) : t := foldl happen w es.

(** The timer the registry knows of is the only one pending. *)
Definition oneTimer (w : t) : Prop :=
  onConnectionLostCallback (this w) = false
  ∧ isReconnecting (this w) = false
  ∧ graceTimers w = option_list (reconnectGraceTimer (this w)).

Lemma routeMessage_timers m l w :
  this (_routeMessage m l w) = this w
  ∧ graceTimers (_routeMessage m l w) = graceTimers w.
Proof.
  unfold _routeMessage.
  destruct (Json.get "event_type" m) as [[]|]; try done.
  split_literal_by ltac:(by split).
Qed.

Lemma handleIncoming_timers parsed w :
  this (_handleIncomingMessage parsed w) = this w
  ∧ graceTimers (_handleIncomingMessage parsed w) = graceTimers w.
Proof.
  unfold _handleIncomingMessage. destruct parsed as [m|]; [|done].
  destruct m; try done.
  destruct (Json.get "request_id" _) as [[]|]; try done.
  destruct (String.eqb _ _); [done|].
  destruct (_ !! _); [|done]. apply routeMessage_timers.
Qed.

Lemma clear_only (h : nat) : clearTimeout (Some h) [h] = [].
Proof.
  unfold clearTimeout. rewrite filter_cons.
  destruct (decide (h ≠ h)); [done|]. done.
Qed.

Lemma happen_oneTimer w e : oneTimer w → oneTimer (happen w e).
Proof.
  intros (Hcb & Hrec & Ht). destruct e; simpl.
  - unfold addConnection.
    destruct (reconnectGraceTimer (this w)) as [h|] eqn:Hh; simpl in *.
    + split; [done|]. split; [done|]. rewrite Ht. apply clear_only.
    + split; [done|]. split; [done|]. by rewrite Hh.
  - unfold _removeConnection, oneTimer. simpl.
    split; [done|]. split; [done|]. rewrite Ht.
    destruct (reconnectGraceTimer (this w)) as [h|]; simpl; [|done].
    change (filter (fun x => x ≠ h) [h]) with (clearTimeout (Some h) [h]).
    by rewrite (clear_only h).
  - unfold graceTimerFire. destruct (bool_decide _) eqn:Hin; [|done].
    apply bool_decide_eq_true in Hin. rewrite Hcb. simpl.
    split; [done|]. split; [done|]. rewrite Ht in Hin |- *.
    destruct (reconnectGraceTimer (this w)) as [h0|]; simpl in *.
    + apply list_elem_of_singleton in Hin as ->. apply clear_only.
    + by apply elem_of_nil in Hin.
  - unfold callbackReturn. by rewrite Hrec.
  - destruct (handleIncoming_timers parsedMessage w) as [H1 H2].
    unfold oneTimer. by rewrite H1, H2.
  - done.
  - unfold removeMessageQueue. by destruct (_ !! _).
  - unfold dequeueOn. by destruct (_ !! _).
  - done.
Qed.

Lemma history_oneTimer es : ∀ w, oneTimer w → oneTimer (history es w).
Proof.
  induction es as [|e es IH]; intros w H; [done|].
  simpl. apply IH. by apply happen_oneTimer.
Qed.

(** X7.  In a registry built without a reconnect callback, whatever
    happens, at most one grace timer is pending and it is the one the
    registry holds: a socket that closes while a timer is set replaces that
    timer, and [isInGracePeriod] answers true exactly while a timer is
    pending. *)
Theorem grace_timer_is_unique (es : list event) :
  let w := history es (new false) in
  graceTimers w = option_list (reconnectGraceTimer (this w))
  ∧ (List.length (graceTimers w) ≤ 1)%nat
  ∧ (isInGracePeriod w = true ↔ graceTimers w ≠ []).
Proof.
  intros w. assert (oneTimer w) as (_ & _ & Ht) by (by apply history_oneTimer).
  split; [done|]. unfold isInGracePeriod. rewrite Ht.
  destruct (reconnectGraceTimer (this w)); simpl; split; try lia; by split.
Qed.

(** X8.  With a reconnect callback the registry can lose track of a
    timer.  If a socket closed while the callback was running, the timer
    set for it is still pending when the callback returns, but the registry
    then forgets it: [isInGracePeriod] answers false, a socket that is added
    afterwards does not cancel it, and when it fires the queues of the
    requests in flight are closed although a socket is connected. *)
Theorem callback_return_forgets_newer_timer w h websocket :
  isReconnecting (this w) = true →
  h ∈ graceTimers w →
  let w1 := callbackReturn w in
  let w2 := addConnection websocket w1 in
  isInGracePeriod w1 = false
  ∧ h ∈ graceTimers w2
  ∧ messageQueues (this w2) = messageQueues (this w)
  ∧ hasActiveConnections w2 = true
  ∧ ∀ id l q, messageQueues (this w2) !! id = Some l → store w2 !! l = Some q →
      isClosed l (graceTimerFire h w2) = Some true.
Proof.
  intros Hrec Hh w1 w2. subst w1 w2.
  unfold callbackReturn. rewrite Hrec. unfold addConnection. simpl.
  split; [done|]. split; [done|]. split; [done|]. split.
  - unfold hasActiveConnections. simpl.
    destruct (bool_decide _) eqn:Hin.
    + apply bool_decide_eq_true in Hin.
      destruct (connections (this w)); [by apply elem_of_nil in Hin|done].
    + rewrite length_app. simpl. apply negb_true_iff, Nat.eqb_neq. lia.
  - intros id l q Hid Hq. unfold graceTimerFire. simpl.
    rewrite bool_decide_eq_true_2 by done. unfold isClosed.
    destruct (onConnectionLostCallback (this w) && _); simpl;
      by eapply closeAll_registered.
Qed.

End RegistryTimers.

(** A socket closes, the grace timer fires and the reconnect callback
    starts; while it runs a socket opens, a request arrives and the socket
    closes again.  The callback returns, the socket comes back, and the
    timer of the second closing still fires. *)
Lemma callback_return_forgets_newer_timer_witness :
  let w := history [SocketOpened 0; SocketClosed 0; GraceTimerFired 0;
                    SocketOpened 1; QueueCreated "req_1"; SocketClosed 1]
                   (ConnectionRegistry.new true) in
  let w2 := ConnectionRegistry.addConnection 2 (ConnectionRegistry.callbackReturn w) in
  ConnectionRegistry.isInGracePeriod (ConnectionRegistry.callbackReturn w) = false
  ∧ ConnectionRegistry.hasActiveConnections w2 = true
  ∧ ConnectionRegistry.isClosed 0 w2 = Some false
  ∧ ConnectionRegistry.isClosed 0 (ConnectionRegistry.graceTimerFire 1 w2) = Some true.
Proof.
  intros w w2.
  assert (1%nat ∈ ConnectionRegistry.graceTimers w) as Hin by (vm_compute; left).
  destruct (callback_return_forgets_newer_timer w 1%nat 2%nat eq_refl Hin)
    as (H1 & _ & _ & H2 & H3).
  split; [exact H1|]. split; [exact H2|]. split; [reflexivity|].
  apply (H3 "req_1" 0%nat (MessageQueue.new None)); reflexivity.
Defined.

(** ** The attempt loop: what it sends, and how often *)

Section RetryShape.
Import Json RequestHandler.
Variable cfg : config.
Variable requestId : string.
Variable proxyRequest : list (string * value).
Variable env : Z → attemptEnv.

Local Abbreviation attempts := (attempts cfg requestId proxyRequest env).
Local Abbreviation run := (_executeRequestWithRetries cfg requestId proxyRequest env).
Local Abbreviation tryAttempt := (tryAttempt proxyRequest).

Definition isCreate (e : effect) : bool :=
  match e with CreateQueue _ _ => true | _ => false end.
Definition isClose (e : effect) : bool :=
  match e with QueueClose _ _ => true | _ => false end.
Definition isSleep (e : effect) : bool :=
  match e with Sleep _ => true | _ => false end.
Definition isCancel (e : effect) : bool :=
  match e with Cancel _ _ => true | _ => false end.

Definition count (p : effect → bool) (l : list effect) : nat :=
  List.length (List.filter p l).

(** The only things the loop sends or asks for. *)
Definition expected (e : effect) : Prop :=
  match e with
  | Forward _ frame => frame = spread "proxy_request" proxyRequest
  | Cancel _ frame => frame = cancelFrame requestId
  | QueueClose _ reason => reason = "retry_creating_new_queue"
  | CreateQueue id _ => id = requestId
  | Sleep ms => ms = retryDelay cfg
  end.

Lemma count_app p l1 l2 : count p (l1 ++ l2) = (count p l1 + count p l2)%nat.
Proof. unfold count. by rewrite List.filter_app, length_app. Qed.

Lemma tryAttempt_effects e :
  (tryAttempt e).2 = [] ∨
  (tryAttempt e).2 = [Forward (authAtSend e) (spread "proxy_request" proxyRequest)].
Proof.
  unfold RequestHandler.tryAttempt. destruct (connectedAtSend e); [right|by left].
  destruct (dequeued e) as [[]|]; simpl;
    repeat (match goal with |- context [if ?b then _ else _] => destruct b end); done.
Qed.

Lemma tryAttempt_counts e p :
  (∀ a f, p (Forward a f) = false) → count p (tryAttempt e).2 = 0%nat.
Proof. intros Hp. destruct (tryAttempt_effects e) as [->| ->]; [done|]. cbv. by rewrite Hp. Qed.

Lemma tryAttempt_expected e : Forall expected (tryAttempt e).2.
Proof. destruct (tryAttempt_effects e) as [->| ->]; [done|]. by constructor. Qed.

Lemma cancel_counts connected auth p :
  (∀ a f, p (Cancel a f) = false) → count p (cancelEffects requestId connected auth) = 0%nat.
Proof. intros Hp. unfold cancelEffects. destruct (connected auth); [|done]. cbv. by rewrite Hp. Qed.

Lemma cancel_at_most_one connected auth :
  (count isCancel (cancelEffects requestId connected auth) ≤ 1)%nat.
Proof. unfold cancelEffects. destruct (connected auth); cbv; lia. Qed.

Lemma cancel_expected connected auth : Forall expected (cancelEffects requestId connected auth).
Proof. unfold cancelEffects. destruct (connected auth); [|done]. by constructor. Qed.

Lemma judge_retry_lt attempt q outcome payload :
  judge cfg attempt q outcome = Retry payload → attempt < maxRetries cfg.
Proof.
  unfold judge. destruct outcome as [|error]; [done|].
  destruct (_isConnectionResetError_thrown error); [done|].
  destruct (isImmediateSwitch cfg _); [done|].
  destruct (Z.geb_spec attempt (maxRetries cfg)); [done|]. intros _. lia.
Qed.

Lemma attempts_S n attempt q auth le :
  attempts (S n) attempt q auth le
  = match judge cfg attempt q (tryAttempt (env attempt)).1 with
    | Return r => (r, (tryAttempt (env attempt)).2)
    | Retry payload =>
        ((attempts n (attempt + 1) (S q) (authAtCatch (env attempt)) (Some payload)).1,
         (tryAttempt (env attempt)).2
         ++ cancelEffects requestId (connectedAtCatch (env attempt)) auth
         ++ [QueueClose q "retry_creating_new_queue";
             CreateQueue requestId (authAtCatch (env attempt));
             Sleep (retryDelay cfg)]
         ++ (attempts n (attempt + 1) (S q) (authAtCatch (env attempt)) (Some payload)).2)
    end.
Proof. reflexivity. Qed.

Lemma replacement_counts q auth :
  let l := [QueueClose q "retry_creating_new_queue"; CreateQueue requestId auth;
            Sleep (retryDelay cfg)] in
  forwards l = 0%nat ∧ count isCreate l = 1%nat ∧ count isClose l = 1%nat
  ∧ count isSleep l = 1%nat ∧ count isCancel l = 0%nat ∧ Forall expected l.
Proof. repeat split; try reflexivity. by repeat constructor. Qed.

Lemma attempts_shape n : ∀ attempt q auth le,
  attempt + Z.of_nat n = maxRetries cfg + 1 →
  let tr := (attempts n attempt q auth le).2 in
  (forwards tr ≤ n)%nat
  ∧ count isClose tr = count isCreate tr
  ∧ count isSleep tr = count isCreate tr
  ∧ (count isCancel tr ≤ count isCreate tr)%nat
  ∧ (count isCreate tr ≤ n - 1)%nat
  ∧ Forall expected tr.
Proof.
  induction n as [|n IH]; intros attempt q auth le Hn; [by cbv|].
  cbv zeta. rewrite attempts_S.
  pose proof (forwards_tryAttempt proxyRequest (env attempt)) as Hf.
  destruct (judge cfg attempt q (tryAttempt (env attempt)).1) as [r|payload] eqn:Hj;
    cbn [fst snd].
  - rewrite !tryAttempt_counts by done.
    repeat split; try lia. apply tryAttempt_expected.
  - apply judge_retry_lt in Hj.
    destruct (IH (attempt + 1) (S q) (authAtCatch (env attempt)) (Some payload))
      as (H1 & H2 & H3 & H4 & H5 & H6); [lia|].
    destruct (replacement_counts q (authAtCatch (env attempt)))
      as (R1 & R2 & R3 & R4 & R5 & R6).
    pose proof (cancel_at_most_one (connectedAtCatch (env attempt)) auth).
    rewrite !forwards_app, !count_app, forwards_cancel, R1, R2, R3, R4, R5.
    rewrite !tryAttempt_counts by done.
    rewrite !(cancel_counts _ _ isClose), !(cancel_counts _ _ isCreate),
      !(cancel_counts _ _ isSleep) by done.
    repeat split; try lia.
    repeat (apply Forall_app; split);
      first [apply tryAttempt_expected|apply cancel_expected|done].
Qed.

(** X9.  Whatever the browser answers, [_executeRequestWithRetries]
    forwards the request at most [maxRetries] times and replaces the queue
    at most [maxRetries - 1] times; every replacement closes the old queue
    with the reason [retry_creating_new_queue], creates a queue under the
    same request id and sleeps [retryDelay], and is preceded by at most one
    [cancel_request] frame for that request id. *)
Theorem retry_loop_is_bounded :
  let tr := run.2 in
  (forwards tr ≤ Z.to_nat (maxRetries cfg))%nat
  ∧ (count isCreate tr ≤ Z.to_nat (maxRetries cfg) - 1)%nat
  ∧ count isClose tr = count isCreate tr
  ∧ count isSleep tr = count isCreate tr
  ∧ (count isCancel tr ≤ count isCreate tr)%nat
  ∧ Forall expected tr.
Proof.
  intros tr. subst tr. unfold _executeRequestWithRetries.
  destruct (Z.le_gt_cases (maxRetries cfg) 0) as [Hle|Hgt].
  - replace (Z.to_nat (maxRetries cfg)) with 0%nat by lia. by cbv.
  - destruct (attempts_shape (Z.to_nat (maxRetries cfg)) 1 0%nat (authAtSend (env 1)) None)
      as (H1 & H2 & H3 & H4 & H5 & H6); [lia|].
    repeat split; done.
Qed.

Lemma attempts_success n : ∀ attempt q auth le m q',
  (attempts n attempt q auth le).1 = Success m q' →
  let tr := (attempts n attempt q auth le).2 in
  let k := count isCreate tr in
  q' = (q + k)%nat
  ∧ (k < n)%nat
  ∧ connectedAtSend (env (attempt + Z.of_nat k)) = true
  ∧ dequeued (env (attempt + Z.of_nat k)) = MessageQueue.Resolved m
  ∧ last tr = Some (Forward (authAtSend (env (attempt + Z.of_nat k)))
                            (spread "proxy_request" proxyRequest))
  ∧ m ≠ Null
  ∧ isStr "error" (get "event_type" m) = false
  ∧ isStr "timeout" (get "event_type" m) = false.
Proof.
  induction n as [|n IH]; intros attempt q auth le m q' Hres; [done|].
  cbv zeta. rewrite attempts_S in Hres |- *.
  destruct (judge cfg attempt q (tryAttempt (env attempt)).1) as [r|payload] eqn:Hj.
  - cbn [fst snd] in Hres |- *. subst r. rewrite tryAttempt_counts by done.
    rewrite Z.add_0_r, Nat.add_0_r.
    unfold judge in Hj. unfold RequestHandler.tryAttempt in *.
    destruct (connectedAtSend (env attempt)); simpl in Hj.
    + destruct (dequeued (env attempt)) as [frame|err]; simpl in Hj |- *.
      * destruct frame; simpl in Hj |- *;
          try (injection Hj as <- <-; repeat split; (done || lia)).
        { repeat (match type of Hj with
                  | context [if ?b then _ else _] => destruct b
                  end); discriminate Hj. }
        destruct (isStr "timeout" _) eqn:Et; simpl in Hj.
        { repeat (match type of Hj with
                  | context [if ?b then _ else _] => destruct b
                  end); discriminate Hj. }
        destruct (isStr "error" _) eqn:Ee; simpl in Hj.
        { repeat (match type of Hj with
                  | context [if ?b then _ else _] => destruct b
                  end); discriminate Hj. }
        injection Hj as <- <-. repeat split; (done || lia).
      * repeat (match type of Hj with
                | context [if ?b then _ else _] => destruct b
                end); discriminate Hj.
    + repeat (match type of Hj with
              | context [if ?b then _ else _] => destruct b
              end); discriminate Hj.
  - cbn [fst snd] in Hres |- *.
    destruct (IH _ _ _ _ _ _ Hres) as (H1 & H2 & H3 & H4 & H5 & H6 & H7 & H8).
    destruct (replacement_counts q (authAtCatch (env attempt))) as (_ & R2 & _).
    rewrite !count_app, tryAttempt_counts, (cancel_counts _ _ isCreate), R2 by done.
    set (k := count isCreate (attempts n _ _ _ _).2) in *.
    replace (attempt + Z.of_nat (0 + (0 + (1 + k))))
      with (attempt + 1 + Z.of_nat k) by lia.
    repeat split; try done; try lia.
    rewrite !app_assoc. rewrite last_app, H5. done.
Qed.

(** X10.  When the loop reports success, the frame it returns is the
    first frame of the last attempt made, neither [null] nor an error or
    timeout frame, the last thing the loop did was to forward the request
    for that attempt, and the queue it returns is the one created last (its
    argument if none was created). *)
Theorem success_returns_last_queue m q :
  run.1 = Success m q →
  let tr := run.2 in
  let k := count isCreate tr in
  q = k
  ∧ dequeued (env (1 + Z.of_nat k)) = MessageQueue.Resolved m
  ∧ last tr = Some (Forward (authAtSend (env (1 + Z.of_nat k)))
                            (spread "proxy_request" proxyRequest))
  ∧ m ≠ Null
  ∧ isStr "error" (get "event_type" m) = false
  ∧ isStr "timeout" (get "event_type" m) = false.
Proof.
  intros Hres. unfold _executeRequestWithRetries in *.
  destruct (attempts_success _ _ _ _ _ _ _ Hres) as (H1 & _ & _ & H4 & H5 & H6 & H7 & H8).
  repeat split; done.
Qed.

Definition queueTimeout : MessageQueue.settlement value :=
  MessageQueue.Rejected (MessageQueue.QueueTimeoutError "Queue timeout").

Definition queueTimeoutPayload : value :=
  Obj [("message", Str "Queue timeout"); ("status", Num 500)].

Lemma attempts_all_time_out n : ∀ attempt q auth le,
  (0 < n)%nat →
  attempt + Z.of_nat n = maxRetries cfg + 1 →
  (∀ codes, immediateSwitchStatusCodes cfg = Some codes → 500 ∉ codes) →
  (∀ a, attempt <= a <= maxRetries cfg →
        connectedAtSend (env a) = true ∧ dequeued (env a) = queueTimeout) →
  (attempts n attempt q auth le).1 = Failure (Some queueTimeoutPayload)
  ∧ forwards (attempts n attempt q auth le).2 = n
  ∧ count isCreate (attempts n attempt q auth le).2 = (n - 1)%nat.
Proof.
  induction n as [|n IH]; intros attempt q auth le Hpos Hn Hcodes Henv; [lia|].
  destruct (Henv attempt) as [Hc Hd]; [lia|].
  assert (tryAttempt (env attempt)
          = (inr (ThrownQueue (MessageQueue.QueueTimeoutError "Queue timeout")),
             [Forward (authAtSend (env attempt)) (spread "proxy_request" proxyRequest)]))
    as Htry.
  { unfold RequestHandler.tryAttempt. by rewrite Hc, Hd. }
  assert (isImmediateSwitch cfg queueTimeoutPayload = false) as Hsw.
  { unfold isImmediateSwitch. destruct (immediateSwitchStatusCodes cfg) as [codes|] eqn:E;
      [|done]. simpl. apply bool_decide_eq_false_2. by apply Hcodes. }
  assert (judge cfg attempt q (tryAttempt (env attempt)).1
          = if attempt >=? maxRetries cfg then Return (Failure (Some queueTimeoutPayload))
            else Retry queueTimeoutPayload) as Hjudge.
  { rewrite Htry. unfold judge. cbn [fst errorPayloadOf messageOf].
    change (_isConnectionResetError_thrown _) with false. cbv iota.
    fold queueTimeoutPayload. by rewrite Hsw. }
  rewrite attempts_S, Hjudge, Htry.
  destruct (Z.geb_spec attempt (maxRetries cfg)) as [Hge|Hlt]; cbn [fst snd].
  - assert (n = 0%nat) as -> by lia. by cbv.
  - destruct (IH (attempt + 1) (S q) (authAtCatch (env attempt)) (Some queueTimeoutPayload))
      as (H1 & H2 & H3); [lia|lia|done|intros a Ha; apply Henv; lia|].
    destruct (replacement_counts q (authAtCatch (env attempt))) as (R1 & R2 & _).
    rewrite !forwards_app, !count_app, forwards_cancel, R1, R2, H1, H2, H3.
    rewrite (cancel_counts _ _ isCreate) by done.
    split; [done|]. split; [cbv [forwards]; simpl; lia|].
    change (count isCreate [Forward _ _]) with 0%nat. lia.
Qed.

(** X11.  When the browser stays silent, so that the dequeue of the
    first frame times out in every attempt, the request is forwarded exactly
    [maxRetries] times, over [maxRetries - 1] new queues, and the loop fails
    with [{message: "Queue timeout", status: 500}]: the status is 500, not
    504 (provided 500 is not configured as an immediate-switch status). *)
Theorem silent_browser_exhausts_retries :
  1 <= maxRetries cfg →
  (∀ codes, immediateSwitchStatusCodes cfg = Some codes → 500 ∉ codes) →
  (∀ a, 1 <= a <= maxRetries cfg →
        connectedAtSend (env a) = true ∧ dequeued (env a) = queueTimeout) →
  run.1 = Failure (Some queueTimeoutPayload)
  ∧ forwards run.2 = Z.to_nat (maxRetries cfg)
  ∧ count isCreate run.2 = (Z.to_nat (maxRetries cfg) - 1)%nat.
Proof.
  intros Hmax Hcodes Henv. unfold _executeRequestWithRetries.
  apply attempts_all_time_out; [lia|lia|done|done].
Qed.

End RetryShape.

Definition headersFrame (status : Z) : Json.value :=
  Json.Obj [("event_type", Json.Str "response_headers"); ("headers", Json.Obj []);
            ("request_id", Json.Str "req_1"); ("status", Json.Num status)].

(** The first attempt meets an error frame with status 500, the second
    the response headers: the loop returns the second queue. *)
Lemma success_returns_last_queue_witness :
  let env := settling (MessageQueue.Resolved (errorFrame 500 "boom"))
                      (MessageQueue.Resolved (headersFrame 200)) in
  let tr := (RequestHandler._executeRequestWithRetries threeRetries "req_1" [] env).2 in
  1%nat = count isCreate tr
  ∧ RequestHandler.dequeued (env (1 + Z.of_nat (count isCreate tr)))
    = MessageQueue.Resolved (headersFrame 200)
  ∧ last tr
    = Some (RequestHandler.Forward
              (RequestHandler.authAtSend (env (1 + Z.of_nat (count isCreate tr))))
              (RequestHandler.spread "proxy_request" []))
  ∧ headersFrame 200 ≠ Json.Null
  ∧ Json.isStr "error" (Json.get "event_type" (headersFrame 200)) = false
  ∧ Json.isStr "timeout" (Json.get "event_type" (headersFrame 200)) = false.
Proof.
  intros env.
  apply (success_returns_last_queue threeRetries "req_1" [] env (headersFrame 200) 1%nat).
  vm_compute. reflexivity.
Defined.

Definition silentBrowser : Z → RequestHandler.attemptEnv :=
  fun _ => RequestHandler.AttemptEnv 0 true queueTimeout 0 (fun _ => true).

Lemma silent_browser_exhausts_retries_witness :
  (RequestHandler._executeRequestWithRetries threeRetries "req_1" [] silentBrowser).1
  = RequestHandler.Failure (Some queueTimeoutPayload)
  ∧ RequestHandler.forwards
      (RequestHandler._executeRequestWithRetries threeRetries "req_1" [] silentBrowser).2
    = 3%nat
  ∧ count isCreate
      (RequestHandler._executeRequestWithRetries threeRetries "req_1" [] silentBrowser).2
    = 2%nat.
Proof.
  apply (silent_browser_exhausts_retries threeRetries "req_1" [] silentBrowser).
  - vm_compute. discriminate.
  - intros codes [= <-] Hin.
    repeat (apply elem_of_cons in Hin as [Hin|Hin]; [discriminate Hin|]).
    by apply elem_of_nil in Hin.
  - intros a _. split; reflexivity.
Defined.

(** ** The response: headers, errors, streaming *)

Section RelayedHeaders.
Import RequestHandler.

(** The headers that are never relayed: the three CORS [allow] headers
    and [content-length], in any letter case. *)
Definition withheld (name : string) : bool :=
  existsb (String.eqb (JS.toLowerCase name)) forbiddenHeaders
  || String.eqb (JS.toLowerCase name) "content-length".

(** The headers whose value is re-authored: redirects to a host of
    googleapis.com. *)
Definition reauthored (name value : string) : bool :=
  isRedirectHeader (JS.toLowerCase name) && JS.includes value "googleapis.com".

Lemma relayHeader_withheld o name value :
  withheld name = true → relayHeader o name value = None.
Proof.
  unfold withheld, relayHeader. intros [H|H]%orb_true_iff.
  - by rewrite H.
  - rewrite H. by destruct (existsb _ _).
Qed.

Lemma relayHeader_kept o name value :
  withheld name = false →
  ∃ value', relayHeader o name value = Some (name, value')
            ∧ (reauthored name value = false → value' = value).
Proof.
  unfold withheld, relayHeader, reauthored. intros [H1 H2]%orb_false_iff.
  rewrite H1, H2. destruct (isRedirectHeader _ && _).
  - destruct (Url.parse value); eexists; (split; [done|done]).
  - by eexists.
Qed.

(** X12.  [_setResponseHeaders] never relays a CORS [allow] header or
    [content-length], however the name is capitalised; every other header
    of the frame is set, under its own name and in the order of the frame,
    and with its own value unless it is a redirect ([location],
    [x-goog-upload-url]) to googleapis.com. *)
Theorem cors_and_length_headers_are_withheld o headers :
  let out := _setResponseHeaders o headers in
  Forall (fun h => withheld h.1 = false) out
  ∧ out.*1 = List.filter (fun name => negb (withheld name)) headers.*1
  ∧ (∀ name value, (name, value) ∈ headers → withheld name = false →
       reauthored name value = false → (name, value) ∈ out).
Proof.
  intros out. subst out. unfold _setResponseHeaders.
  induction headers as [|[name value] headers (IH1 & IH2 & IH3)]; [by repeat split; [constructor|set_solver..]|].
  cbn [omap list_omap fst snd]. rewrite fmap_cons. cbn [List.filter fst].
  destruct (withheld name) eqn:Hw.
  - rewrite (relayHeader_withheld o name value Hw). cbn [negb].
    split; [done|]. split; [done|].
    intros n v [[= -> ->]|Hin]%elem_of_cons Hn Hr; [congruence|by apply IH3].
  - destruct (relayHeader_kept o name value Hw) as (value' & -> & Hsame). cbn [negb].
    split; [by constructor|]. split; [by rewrite fmap_cons, IH2|].
    intros n v [[= -> ->]|Hin]%elem_of_cons Hn Hr.
    + rewrite Hsame by done. by left.
    + right. by apply IH3.
Qed.

End RelayedHeaders.

Section ErrorsOnResponse.
Import Json RequestHandler.

Definition statusOfError (error : thrown) : Z :=
  if JS.includes (JS.toLowerCase (messageOf error)) "timeout" then 504
  else if _isConnectionResetError_thrown error then 503 else 500.

(** X13.  [_handleRequestError] never restarts a response.  If the
    headers have not been sent it sends one JSON error, with status 504 for
    an error whose message contains "timeout" in any letter case (a dequeue
    that timed out, for one), else 503 for a connection reset, else 500, and
    writes nothing to the stream.  If the headers have been sent it leaves
    status and body alone: a response that is still writable gets at most
    one more record and is ended, one that is not is left untouched. *)
Theorem request_error_never_restarts_response streamingMode contentType error res :
  let res' := _handleRequestError streamingMode contentType error res in
  (headersSent (sent res) = false →
     statusCode (sent res') = Some (Num (statusOfError error))
     ∧ statusOfError error ∈ [504; 503; 500]
     ∧ headersSent (sent res') = true ∧ writableEnded (sent res') = true
     ∧ written res' = written res)
  ∧ (headersSent (sent res) = true →
       statusCode (sent res') = statusCode (sent res)
       ∧ body (sent res') = body (sent res)
       ∧ (_isResponseWritable res = true →
            writableEnded (sent res') = true
            ∧ ∃ extra, written res' = written res ++ extra ∧ (List.length extra ≤ 1)%nat)
       ∧ (_isResponseWritable res = false → res' = res))
  ∧ statusOfError (ThrownQueue (MessageQueue.QueueTimeoutError "Queue timeout")) = 504.
Proof.
  intros res'. subst res'. unfold _handleRequestError, statusOfError.
  split; [|split].
  - intros Hh. rewrite Hh. unfold _sendErrorResponse. rewrite Hh. cbn [sent statusCode written headersSent writableEnded].
    destruct (JS.includes _ "timeout"); [|destruct (_isConnectionResetError_thrown error)];
      (split; [done|]); (split; [set_solver|done]).
  - intros Hh. rewrite Hh. destruct (_isResponseWritable res) eqn:Hw.
    + split; [|split; [|split; [|done]]].
      * destruct contentType as [c|]; [destruct (JS.includes c _)|];
          try done; destruct (String.eqb streamingMode "fake"); try done;
          unfold _sendErrorChunkToClient; by rewrite Hw.
      * destruct contentType as [c|]; [destruct (JS.includes c _)|];
          try done; destruct (String.eqb streamingMode "fake"); try done;
          unfold _sendErrorChunkToClient; by rewrite Hw.
      * intros _. split; [done|].
        destruct contentType as [c|]; [destruct (JS.includes c _)|];
          try (eexists [_]; split; [done|simpl; lia]);
          destruct (String.eqb streamingMode "fake");
          unfold _sendErrorChunkToClient; rewrite ?Hw;
          first [eexists [_]; split; [done|simpl; lia]
                |exists []; split; [by rewrite app_nil_r|simpl; lia]].
    + by repeat split.
  - reflexivity.
Qed.

End ErrorsOnResponse.

Section RealStream.
Import Json RequestHandler.

(** A frame that carries the non-empty piece [d] of the body. *)
Definition dataFrame (m : value) (d : string) : Prop :=
  m ≠ Null
  ∧ isStr "STREAM_END" (get "type" m) = false
  ∧ isStr "error" (get "event_type" m) = false
  ∧ get "data" m = Some (Str d)
  ∧ d ≠ "".

Definition writeAll (ds : list string) (res : stream) : stream :=
  foldl (fun r d => write d r) res ds.

Lemma writeAll_written ds : ∀ res,
  written (writeAll ds res) = written res ++ ds
  ∧ writableEnded (sent (writeAll ds res)) = writableEnded (sent res).
Proof.
  induction ds as [|d ds IH]; intros res; simpl.
  - by rewrite app_nil_r.
  - destruct (IH (write d res)) as [-> ->]. simpl. by rewrite <- app_assoc.
Qed.

Lemma truthy_str d : d ≠ "" → truthy (Some (Str d)) = true.
Proof. intros Hd. simpl. by destruct (String.eqb_spec d ""). Qed.

Lemma relayChunks_data ms : ∀ ds rest res,
  Forall2 dataFrame ms ds →
  relayChunks ((MessageQueue.Resolved <$> ms) ++ rest) res
  = relayChunks rest (writeAll ds res).
Proof.
  induction ms as [|m ms IH]; intros ds rest res Hf.
  - by apply Forall2_nil_inv_l in Hf as ->.
  - apply Forall2_cons_inv_l in Hf as (d & ds' & (Hn & Hend & Herr & Hdata & Hd) & Hf & ->).
    rewrite fmap_cons. cbn [app relayChunks].
    rewrite Hend, Herr, Hdata, (truthy_str d Hd).
    destruct m; try done; by rewrite (IH ds' rest _ Hf).
Qed.

Lemma relayChunks_end rest res :
  relayChunks (MessageQueue.Resolved streamEndFrame :: rest) res = (res, Finished).
Proof. reflexivity. Qed.

Lemma relayChunks_timeout rest res :
  relayChunks (queueTimeout :: rest) res = (res, Finished).
Proof. reflexivity. Qed.

Lemma relayChunks_closed reason rest res :
  let e := MessageQueue.QueueClosedError (MessageQueue.closedMessage reason) reason in
  relayChunks (MessageQueue.Rejected e :: rest) res = (res, Rethrown (ThrownQueue e)).
Proof.
  intros e. subst e. cbn [relayChunks messageOf].
  replace (String.eqb _ "Queue timeout") with false; [done|].
  symmetry. apply String.eqb_neq. unfold MessageQueue.closedMessage. simpl.
  discriminate.
Qed.

(** X14.  The real-stream handler writes the pieces of the body to the
    client as they come, unchanged and in order, and reads nothing after
    the end signal.  A dequeue that times out in mid-stream ends the
    response like the end signal does, with no error record; a queue that
    is closed in mid-stream ends the response too and the error is thrown
    on to the caller. *)
Theorem real_stream_relays_chunks_in_order ms ds res :
  Forall2 dataFrame ms ds →
  writableEnded (sent res) = false →
  let served := MessageQueue.Resolved <$> ms in
  (∀ rest,
     let r := streamBody (served ++ MessageQueue.Resolved streamEndFrame :: rest) res in
     written r.1 = written res ++ ds ∧ writableEnded (sent r.1) = true ∧ r.2 = Finished)
  ∧ (∀ rest,
     let r := streamBody (served ++ queueTimeout :: rest) res in
     written r.1 = written res ++ ds ∧ writableEnded (sent r.1) = true ∧ r.2 = Finished)
  ∧ (∀ reason rest,
     let e := MessageQueue.QueueClosedError (MessageQueue.closedMessage reason) reason in
     let r := streamBody (served ++ MessageQueue.Rejected e :: rest) res in
     written r.1 = written res ++ ds ∧ writableEnded (sent r.1) = true
     ∧ r.2 = Rethrown (ThrownQueue e)).
Proof.
  intros Hf He served. subst served.
  destruct (writeAll_written ds res) as [Hw Hend]. rewrite He in Hend.
  split; [|split].
  - intros rest r. subst r. unfold streamBody.
    rewrite (relayChunks_data ms ds _ res Hf), relayChunks_end.
    cbn [fst snd]. by rewrite Hend.
  - intros rest r. subst r. unfold streamBody.
    rewrite (relayChunks_data ms ds _ res Hf), relayChunks_timeout.
    cbn [fst snd]. by rewrite Hend.
  - intros reason rest e r. subst r e. unfold streamBody.
    rewrite (relayChunks_data ms ds _ res Hf), relayChunks_closed.
    cbn [fst snd]. by rewrite Hend.
Qed.

End RealStream.

(** ** From the agent to the client: the body of a non-stream response *)

Section BodyEndToEnd.
Import Json RequestHandler.

Local Abbreviation queue := ConnectionRegistry.queue.

(** What a handler receives from [n] calls of [dequeue] in a row, none of
    them having to wait. *)
Fixpoint drain (n : nat) (q : queue) : list (MessageQueue.settlement value) :=
  match n with
  | O => []
  | S n' =>
      let r := MessageQueue.dequeue MessageQueue.Current None q in
      match MessageQueue.outcome r.1 r.2 with
      | Some o => o :: drain n' r.2
      | None => []
      end
  end.

(** The frames arrive at the registry one after the other. *)
Definition arrive (frames : list value) (w : ConnectionRegistry.t) : ConnectionRegistry.t :=
  foldl (fun w frame => ConnectionRegistry._handleIncomingMessage (Some frame) w) w frames.

Definition chunkOf (operationId data : string) : value :=
  Obj [("data", Str data); ("event_type", Str "chunk"); ("request_id", Str operationId)].

Lemma concat_cons x xs : String.concat "" (x :: xs) = x +:+ String.concat "" xs.
Proof. destruct xs; simpl; [by rewrite append_nil_r|done]. Qed.

Lemma transmitChunks_shape operationId chunks :
  ∃ ds, List.concat (List.map (fun c => Agent._transmitChunk c operationId) chunks)
        = chunkOf operationId <$> ds
        ∧ Forall (fun d => d ≠ "") ds
        ∧ String.concat "" ds = String.concat "" chunks.
Proof.
  induction chunks as [|c chunks (ds & IH1 & IH2 & IH3)]; [by exists []|].
  cbn [List.map List.concat]. rewrite IH1. unfold Agent._transmitChunk.
  destruct (String.eqb_spec c "") as [->|Hne].
  - exists ds. split; [done|]. split; [done|]. by rewrite concat_cons, IH3.
  - exists (c :: ds). split; [done|]. split; [by constructor|].
    by rewrite !concat_cons, IH3.
Qed.

Lemma relayBody_shape mode operationId chunks :
  mode = Some "real" ∨ mode = Some "fake" ∨ mode = None →
  ∃ ds, Agent.relayBody mode operationId chunks
        = (chunkOf operationId <$> ds) ++ [Agent._transmitStreamEnd operationId]
        ∧ Forall (fun d => d ≠ "") ds
        ∧ String.concat "" ds = String.concat "" chunks.
Proof.
  intros Hmode. unfold Agent.relayBody.
  assert (JS.or_string mode "fake" = "real" ∨ JS.or_string mode "fake" = "fake") as [-> | ->]
    by (destruct Hmode as [->|[->| ->]]; by eauto).
  - destruct (transmitChunks_shape operationId chunks) as (ds & H1 & H2 & H3).
    exists ds. change (String.eqb "real" "real") with true.
    change (String.eqb "real" "fake") with false. cbv iota. by rewrite H1.
  - change (String.eqb "fake" "real") with false.
    change (String.eqb "fake" "fake") with true. cbv iota.
    unfold Agent._transmitChunk.
    destruct (String.eqb_spec (String.concat "" chunks) "") as [Hnil|Hne].
    + exists []. by rewrite Hnil.
    + exists [String.concat "" chunks]. split; [done|]. split; [by constructor|done].
Qed.

(** A queue nobody waits on. *)
Definition buffering (q : queue) (msgs : list value) : Prop :=
  wf q ∧ MessageQueue.closed q = false ∧ MessageQueue.waitingResolvers q = []
  ∧ MessageQueue.messages q = msgs.

Lemma buffering_enqueue q msgs frame :
  buffering q msgs →
  buffering (MessageQueue.enqueue MessageQueue.Current frame q) (msgs ++ [frame]).
Proof.
  intros (Hwf & Hc & Hw & Hm).
  destruct (enqueue_inv MessageQueue.Current q frame _ Hwf (fifo_own q)) as [Hwf' _].
  split; [done|]. unfold MessageQueue.enqueue in *. rewrite Hc, Hw in *. simpl.
  by rewrite Hm.
Qed.

Lemma arrive_buffers id l frames : ∀ w q msgs,
  id ≠ "" →
  ConnectionRegistry.messageQueues (ConnectionRegistry.this w) !! id = Some l →
  ConnectionRegistry.store w !! l = Some q →
  buffering q msgs →
  Forall (fun frame => get "request_id" frame = Some (Str id)
                       ∧ get "event_type" frame = Some (Str "chunk")) frames →
  ∃ q', ConnectionRegistry.store (arrive frames w) !! l = Some q'
        ∧ ConnectionRegistry.messageQueues (ConnectionRegistry.this (arrive frames w)) !! id
          = Some l
        ∧ buffering q' (msgs ++ frames).
Proof.
  induction frames as [|frame frames IH]; intros w q msgs Hne Hl Hq Hb Hf.
  - exists q. by rewrite app_nil_r.
  - apply Forall_cons in Hf as [[Hid Hkind] Hf]. cbn [arrive foldl].
    rewrite (handleIncoming_registered frame id l w Hne Hid Hl).
    rewrite (routeMessage_relayed frame l w "chunk") by (done || set_solver).
    destruct (IH (ConnectionRegistry.updateStore
                    (alter (MessageQueue.enqueue MessageQueue.Current frame) l
                           (ConnectionRegistry.store w)) w)
                 (MessageQueue.enqueue MessageQueue.Current frame q) (msgs ++ [frame]))
      as (q' & H1 & H2 & H3); try done.
    + simpl. by rewrite lookup_alter_eq, Hq.
    + by apply buffering_enqueue.
    + exists q'. by rewrite <- app_assoc in H3.
Qed.

Lemma drain_buffered msgs : ∀ q,
  buffering q msgs → drain (List.length msgs) q = MessageQueue.Resolved <$> msgs.
Proof.
  induction msgs as [|m msgs IH]; intros q (Hwf & Hc & Hw & Hm); [done|].
  cbn [List.length drain].
  destruct (dequeue_inv MessageQueue.Current q None _ Hwf (fifo_own q)) as [Hwf' _].
  pose proof Hwf as [_ _ _ Hb _ _ _ _].
  unfold MessageQueue.dequeue in *. rewrite Hc, Hm in *. cbn [fst snd] in *.
  unfold MessageQueue.outcome at 1. cbn [MessageQueue.settled].
  rewrite find_settle_new by (by eapply isSettled_bound). cbn [fmap option_fmap option_map snd].
  rewrite fmap_cons. f_equal. by apply IH.
Qed.

Lemma collect_chunks id ds : ∀ rest acc,
  Forall (fun d => d ≠ "") ds →
  collect ((MessageQueue.Resolved <$> (chunkOf id <$> ds))
           ++ MessageQueue.Resolved streamEndFrame :: rest) acc
  = Body (acc ++ ds).
Proof.
  induction ds as [|d ds IH]; intros rest acc Hf.
  - simpl. by rewrite app_nil_r.
  - apply Forall_cons in Hf as [Hd Hf]. rewrite !fmap_cons. cbn [app collect chunkOf].
    change (isStr "STREAM_END" _) with false.
    change (isStr "error" _) with false.
    change (isStr "chunk" _) with true.
    change (get "data" _) with (Some (Str d)).
    rewrite (truthy_str d Hd). cbv iota. cbn [andb].
    fold (chunkOf id). rewrite IH by done. by rewrite <- app_assoc.
Qed.

(** X15.  The body of the upstream response reaches the client of a
    non-stream request whole.  The agent reads it in chunks and sends it in
    frames (one per chunk in mode [real], one for all in mode [fake]), the
    registry routes the frames to the queue of the request, and the handler
    that drains the queue sends the concatenation of the chunks, with the
    status of the headers frame (200 if it has none). *)
Theorem upstream_body_reaches_client w id l q mode chunks headerMessage res :
  id ≠ "" →
  ConnectionRegistry.messageQueues (ConnectionRegistry.this w) !! id = Some l →
  ConnectionRegistry.store w !! l = Some q →
  wf q → MessageQueue.closed q = false →
  MessageQueue.waitingResolvers q = [] → MessageQueue.messages q = [] →
  mode = Some "real" ∨ mode = Some "fake" ∨ mode = None →
  let w' := arrive (Agent.relayBody mode id chunks) w in
  ∃ q', ConnectionRegistry.store w' !! l = Some q'
        ∧ nonStreamSuccess headerMessage
            (drain (List.length (MessageQueue.messages q')) q') res
          = Some (Response true (Some (or200 (get "status" headerMessage)))
                           (Some (String.concat "" chunks)) true).
Proof.
  intros Hne Hl Hq Hwf Hc Hw Hm Hmode w'. subst w'.
  destruct (relayBody_shape mode id chunks Hmode) as (ds & -> & Hds & Hconcat).
  unfold arrive. rewrite foldl_app. fold (arrive (chunkOf id <$> ds) w).
  destruct (arrive_buffers id l (chunkOf id <$> ds) w q [] Hne Hl Hq)
    as (q1 & Hq1 & Hl1 & Hb1); [done| |].
  { apply Forall_fmap, Forall_forall. by intros d _. }
  cbn [foldl].
  rewrite (handleIncoming_registered (Agent._transmitStreamEnd id) id l _ Hne eq_refl Hl1).
  rewrite routeMessage_close by done.
  exists (MessageQueue.enqueue MessageQueue.Current streamEndFrame q1).
  split; [simpl; by rewrite lookup_alter_eq, Hq1|].
  pose proof (buffering_enqueue q1 _ streamEndFrame Hb1) as Hb2.
  destruct Hb2 as (Hwf2 & Hc2 & Hw2 & Hm2). rewrite Hm2.
  rewrite (drain_buffered _ _ (conj Hwf2 (conj Hc2 (conj Hw2 Hm2)))).
  unfold nonStreamSuccess. cbn [app]. rewrite fmap_app, fmap_cons.
  rewrite (collect_chunks id ds _ [] Hds). cbn [app]. by rewrite Hconcat.
Qed.

End BodyEndToEnd.

(** A request in flight whose body comes in two chunks, in mode [real]. *)
Lemma upstream_body_reaches_client_witness :
  let w := (ConnectionRegistry.createMessageQueue "req_1"
              (ConnectionRegistry.addConnection 0 (ConnectionRegistry.new true))).2 in
  let w' := arrive (Agent.relayBody (Some "real") "req_1" ["Hel"; ""; "lo"]) w in
  ∃ q', ConnectionRegistry.store w' !! 0%nat = Some q'
        ∧ RequestHandler.nonStreamSuccess (headersFrame 200)
            (drain (List.length (MessageQueue.messages q')) q') RequestHandler.freshResponse
          = Some (RequestHandler.Response true (Some (Json.Num 200)) (Some "Hello") true).
Proof.
  intros w.
  apply (upstream_body_reaches_client w "req_1" 0%nat (MessageQueue.new None)
           (Some "real") ["Hel"; ""; "lo"] (headersFrame 200)
           RequestHandler.freshResponse);
    try reflexivity.
  - discriminate.
  - apply new_wf.
  - by left.
Defined.

(** ** What the server forces into the body of a request *)

Section ForcedBody.
Import Json RequestHandler.

Lemma assoc_assign_ne {V} k k' (x : V) fs :
  k' ≠ k → assoc k' (assign k x fs) = assoc k' fs.
Proof.
  intros Hne. induction fs as [|[k0 v] fs IH]; simpl.
  - destruct (String.eqb_spec k k'); [congruence|done].
  - destruct (String.eqb_spec k0 k) as [->|Hk0]; simpl.
    + destruct (String.eqb_spec k k'); [congruence|done].
    + destruct (String.eqb_spec k0 k'); [done|apply IH].
Qed.

Lemma assign_assign {V} k (x y : V) fs : assign k y (assign k x fs) = assign k y fs.
Proof.
  induction fs as [|[k0 v] fs IH]; simpl.
  - by rewrite String.eqb_refl.
  - destruct (String.eqb_spec k0 k) as [->|Hk0]; simpl.
    + by rewrite String.eqb_refl.
    + destruct (String.eqb_spec k0 k); [done|by rewrite IH].
Qed.

Lemma assign_same {V} k (x : V) fs : assoc k fs = Some x → assign k x fs = fs.
Proof.
  induction fs as [|[k0 v] fs IH]; simpl; [done|].
  destruct (String.eqb_spec k0 k) as [->|Hk0].
  - by intros [= ->].
  - intros H. by rewrite IH.
Qed.

Lemma contents_object body :
  truthy (get "contents" body) = true → ∃ fs, body = Obj fs.
Proof. destruct body; try done. by eexists. Qed.

(** The tools of the client: [bodyObj.tools] when it is an array. *)
Definition clientTools (bodyObj : value) : list value :=
  match get "tools" bodyObj with
  | Some (Arr tools) => tools
  | _ => []
  end.

Lemma someTool_app_true k tools extra :
  someTool k tools = inr true → someTool k (tools ++ extra) = inr true.
Proof.
  induction tools as [|t tools IH]; [done|]. simpl.
  destruct t; try done; destruct (truthy _); try done.
Qed.

Lemma someTool_push k tools :
  someTool k tools = inr false → someTool k (tools ++ [Obj [(k, Obj [])]]) = inr true.
Proof.
  induction tools as [|t tools IH]; simpl.
  - intros _. by rewrite String.eqb_refl.
  - destruct t; try done; destruct (truthy _); try done.
Qed.

Lemma forceTool_spec k tools tools' :
  forceTool k tools = inr tools' →
  someTool k tools' = inr true
  ∧ tools `prefix_of` tools'
  ∧ (List.length tools' ≤ List.length tools + 1)%nat
  ∧ forceTool k tools' = inr tools'
  ∧ ∀ k', someTool k' tools = inr true → someTool k' tools' = inr true.
Proof.
  unfold forceTool. destruct (someTool k tools) as [e|[]] eqn:Hs; [done| |].
  - intros [= <-]. rewrite Hs. repeat split; try done. lia.
  - intros [= <-]. rewrite (someTool_push k tools Hs).
    repeat split; try done.
    + by apply prefix_app_r.
    + rewrite length_app. simpl. lia.
    + intros k'. apply someTool_app_true.
Qed.

(** X16.  When web search or URL context is forced, the tools of the
    body that leaves hold a [googleSearch] (a [urlContext]) tool; the
    client's own tools stay in front, in their order; a tool the client
    already asked for is not added again, so at most two are added and
    forcing twice changes nothing; no other property of the body is
    touched. *)
Theorem forced_tools_are_added_once forceWebSearch forceUrlContext bodyObj bodyObj' :
  truthy (get "contents" bodyObj) = true →
  forceToolsIn forceWebSearch forceUrlContext bodyObj = inr bodyObj' →
  clientTools bodyObj `prefix_of` clientTools bodyObj'
  ∧ get "tools" bodyObj' = Some (Arr (clientTools bodyObj'))
  ∧ (forceWebSearch = true → someTool "googleSearch" (clientTools bodyObj') = inr true)
  ∧ (forceUrlContext = true → someTool "urlContext" (clientTools bodyObj') = inr true)
  ∧ (List.length (clientTools bodyObj') ≤ List.length (clientTools bodyObj) + 2)%nat
  ∧ (∀ k, k ≠ "tools" → get k bodyObj' = get k bodyObj)
  ∧ forceToolsIn forceWebSearch forceUrlContext bodyObj' = inr bodyObj'.
Proof.
  intros (fs & ->)%contents_object. unfold forceToolsIn, clientTools. cbn [get].
  set (tools0 := if truthy (assoc "tools" fs) then assoc "tools" fs else Some (Arr [])).
  assert (∀ tools, tools0 = Some (Arr tools) →
            tools = match assoc "tools" fs with Some (Arr l) => l | _ => [] end) as Hclient.
  { subst tools0. intros tools. destruct (assoc "tools" fs) as [[]|]; simpl;
      try destruct b; try destruct (_ =? _)%Z; try destruct (String.eqb _ _);
      by intros [= <-]. }
  destruct tools0 as [[| | | |tools|]|]; try done.
  rewrite <- (Hclient tools eq_refl).
  destruct (if forceWebSearch then forceTool "googleSearch" tools else inr tools)
    as [e|tools1] eqn:H1; [done|].
  destruct (if forceUrlContext then forceTool "urlContext" tools1 else inr tools1)
    as [e|tools2] eqn:H2; [done|].
  cbn [setProperty]. intros [= <-]. cbn [get]. rewrite assoc_assign. cbn [truthy].
  assert (tools `prefix_of` tools1 ∧ (List.length tools1 ≤ List.length tools + 1)%nat
          ∧ (forceWebSearch = true → someTool "googleSearch" tools1 = inr true)
          ∧ (if forceWebSearch then forceTool "googleSearch" tools1 else inr tools1)
            = inr tools1) as (P1 & L1 & S1 & I1).
  { destruct forceWebSearch.
    - destruct (forceTool_spec _ _ _ H1) as (? & ? & ? & ? & _). done.
    - injection H1 as <-. repeat split; try done. lia. }
  assert (tools1 `prefix_of` tools2 ∧ (List.length tools2 ≤ List.length tools1 + 1)%nat
          ∧ (forceUrlContext = true → someTool "urlContext" tools2 = inr true)
          ∧ (∀ k', someTool k' tools1 = inr true → someTool k' tools2 = inr true)
          ∧ (if forceUrlContext then forceTool "urlContext" tools2 else inr tools2)
            = inr tools2) as (P2 & L2 & S2 & K2 & I2).
  { destruct forceUrlContext.
    - destruct (forceTool_spec _ _ _ H2) as (? & ? & ? & ? & ?). done.
    - injection H2 as <-. repeat split; try done. lia. }
  split; [by etrans|]. split; [done|]. split; [by intros Hw; apply K2, S1|].
  split; [done|]. split; [lia|]. split; [by intros k Hk; apply assoc_assign_ne|].
  assert ((if forceWebSearch then forceTool "googleSearch" tools2 else inr tools2)
          = inr tools2) as I1'.
  { destruct forceWebSearch; [|done]. unfold forceTool.
    by rewrite (K2 "googleSearch" (S1 eq_refl)). }
  rewrite I1', I2. cbn [setProperty]. by rewrite assign_assign.
Qed.

(** The [thinkingConfig] that is injected over the client's. *)
Definition injected (thinkingConfig : option value) : value :=
  Obj (assign "includeThoughts" (Bool true)
              (spreadOf (if truthy thinkingConfig then thinkingConfig else Some (Obj [])))).

Definition asksForThoughts (thinkingConfig : option value) : bool :=
  truthy thinkingConfig && truthy (getOpt "includeThoughts" thinkingConfig).

Lemma injected_asks thinkingConfig : asksForThoughts (Some (injected thinkingConfig)) = true.
Proof. unfold asksForThoughts, injected. cbn [truthy getOpt get]. by rewrite assoc_assign. Qed.

Lemma forceThinkingIn_object fs gfs :
  assoc "generationConfig" fs = Some (Obj gfs) →
  forceThinkingIn (Obj fs)
  = inr (if asksForThoughts (assoc "thinkingConfig" gfs) then Obj fs
         else Obj (assign "generationConfig"
                          (Obj (assign "thinkingConfig"
                                       (injected (assoc "thinkingConfig" gfs)) gfs)) fs)).
Proof.
  intros Hgc. unfold forceThinkingIn, ensureGenerationConfig, asksForThoughts.
  cbn [get]. rewrite Hgc. cbn [truthy get]. rewrite Hgc, !getOpt_obj. cbn [get].
  destruct (truthy (assoc "thinkingConfig" gfs)) eqn:Ht; cbn [negb orb andb].
  - destruct (truthy (getOpt "includeThoughts" _)); cbn [negb]; [done|].
    unfold setThinkingConfig. cbn [get]. rewrite Hgc. cbn [setProperty].
    unfold injected. by rewrite Ht.
  - unfold setThinkingConfig. cbn [get]. rewrite Hgc. cbn [setProperty].
    unfold injected. by rewrite Ht.
Qed.

Lemma forceThinkingIn_absent fs :
  truthy (assoc "generationConfig" fs) = false →
  forceThinkingIn (Obj fs)
  = inr (Obj (assign "generationConfig"
                     (Obj [("thinkingConfig", Obj [("includeThoughts", Bool true)])]) fs)).
Proof.
  intros Hgc. unfold forceThinkingIn, ensureGenerationConfig.
  cbn [get]. rewrite Hgc. cbn [setProperty get]. rewrite assoc_assign.
  cbn. unfold setThinkingConfig. cbn [get]. rewrite assoc_assign. cbn [setProperty].
  by rewrite assign_assign.
Qed.

Lemma forceThinkingIn_primitive fs generationConfig :
  assoc "generationConfig" fs = Some generationConfig →
  truthy (Some generationConfig) = true →
  (∀ gfs, generationConfig ≠ Obj gfs) → (∀ l, generationConfig ≠ Arr l) →
  ∃ e, forceThinkingIn (Obj fs) = inl e.
Proof.
  intros Hgc Ht Hno Hna. unfold forceThinkingIn, ensureGenerationConfig.
  cbn [get]. rewrite Hgc, Ht. cbn [get]. rewrite Hgc.
  destruct generationConfig; try done; try (by destruct (Hno fields));
    try (by destruct (Hna items)); cbn; unfold setThinkingConfig; cbn [get];
    rewrite Hgc; cbn; by eexists.
Qed.

(** X17.  When thinking is forced, the body that leaves asks for
    thoughts: [generationConfig.thinkingConfig.includeThoughts] is truthy,
    and it is [true] if the client did not ask.  The other fields of the
    client's [thinkingConfig] and of its [generationConfig] are kept, the
    rest of the body is not touched, a body that already asks for thoughts
    is left as it is, and forcing twice changes nothing.  (A
    [generationConfig] that is a primitive value makes the block throw; one
    that is an array is set aside.) *)
Theorem forced_thinking_includes_thoughts bodyObj bodyObj' :
  truthy (get "contents" bodyObj) = true →
  (∀ l, get "generationConfig" bodyObj ≠ Some (Arr l)) →
  forceThinkingIn bodyObj = inr bodyObj' →
  let thinkingConfig := getOpt "thinkingConfig" (get "generationConfig" bodyObj) in
  let thinkingConfig' := getOpt "thinkingConfig" (get "generationConfig" bodyObj') in
  asksForThoughts thinkingConfig' = true
  ∧ (asksForThoughts thinkingConfig = true → bodyObj' = bodyObj)
  ∧ (asksForThoughts thinkingConfig = false →
       getOpt "includeThoughts" thinkingConfig' = Some (Bool true))
  ∧ (∀ k, k ≠ "generationConfig" → get k bodyObj' = get k bodyObj)
  ∧ (∀ gfs k, get "generationConfig" bodyObj = Some (Obj gfs) → k ≠ "thinkingConfig" →
       getOpt k (get "generationConfig" bodyObj') = assoc k gfs)
  ∧ (∀ tfs k, thinkingConfig = Some (Obj tfs) → k ≠ "includeThoughts" →
       getOpt k thinkingConfig' = assoc k tfs)
  ∧ forceThinkingIn bodyObj' = inr bodyObj'.
Proof.
  intros (fs & ->)%contents_object Hna Hres. cbn [get] in *.
  destruct (assoc "generationConfig" fs) as [generationConfig|] eqn:Hgc.
  2: { rewrite forceThinkingIn_absent in Hres by (by rewrite Hgc). injection Hres as <-.
       cbn [get]. rewrite assoc_assign. cbn.
       split; [done|]. split; [done|]. split; [done|].
       split; [by intros k Hk; apply assoc_assign_ne|]. split; [done|]. split; [done|].
       erewrite forceThinkingIn_object by apply assoc_assign.
       cbn. by rewrite assign_assign. }
  destruct (truthy (Some generationConfig)) eqn:Htruthy.
  2: { rewrite forceThinkingIn_absent in Hres by (by rewrite Hgc). injection Hres as <-.
       cbn [get]. rewrite assoc_assign.
       assert (getOpt "thinkingConfig" (Some generationConfig) = None) as ->
         by (by destruct generationConfig).
       cbn.
       split; [done|]. split; [done|]. split; [done|].
       split; [by intros k Hk; apply assoc_assign_ne|].
       split; [by intros gfs k [= ->]|]. split; [done|].
       erewrite forceThinkingIn_object by apply assoc_assign.
       cbn. by rewrite assign_assign. }
  destruct generationConfig as [| | | | |gfs];
    try (destruct (forceThinkingIn_primitive fs _ Hgc Htruthy) as [e He];
         [done|done|by rewrite He in Hres]).
  { by destruct (Hna items). }
  rewrite (forceThinkingIn_object fs gfs Hgc) in Hres. injection Hres as <-.
  rewrite getOpt_obj. cbn [get].
  destruct (asksForThoughts (assoc "thinkingConfig" gfs)) eqn:Hasks.
  - cbn [get]. rewrite Hgc, getOpt_obj. cbn [get].
    split; [done|]. split; [done|]. split; [done|]. split; [done|].
    split; [by intros g k [= ->] _; rewrite getOpt_obj|].
    split; [by intros tfs k -> _; rewrite getOpt_obj|].
    by rewrite (forceThinkingIn_object fs gfs Hgc), Hasks.
  - cbn [get]. rewrite assoc_assign, getOpt_obj. cbn [get]. rewrite assoc_assign.
    split; [apply injected_asks|]. split; [done|].
    split; [intros _; unfold injected; rewrite getOpt_obj; cbn [get]; apply assoc_assign|].
    split; [by intros k Hk; apply assoc_assign_ne|].
    split.
    { intros g k [= <-] Hk. rewrite getOpt_obj. cbn [get]. by apply assoc_assign_ne. }
    split.
    { intros tfs k Htc Hk. unfold injected. rewrite getOpt_obj. cbn [get].
      rewrite assoc_assign_ne by done. by rewrite Htc. }
    erewrite forceThinkingIn_object by apply assoc_assign.
    rewrite assoc_assign, injected_asks. done.
Qed.

End ForcedBody.

(** A request with a search tool of its own, for which both tools are
    forced. *)
Lemma forced_tools_are_added_once_witness :
  let body := Json.Obj [("contents", Json.Arr [Json.Obj [("role", Json.Str "user")]]);
                        ("tools", Json.Arr [Json.Obj [("googleSearch", Json.Obj [])]])] in
  ∃ body',
    RequestHandler.forceToolsIn true true body = inr body'
    ∧ clientTools body'
      = [Json.Obj [("googleSearch", Json.Obj [])]; Json.Obj [("urlContext", Json.Obj [])]]
    ∧ RequestHandler.forceToolsIn true true body' = inr body'.
Proof.
  intros body. eexists. split; [reflexivity|]. split; [reflexivity|].
  eapply (forced_tools_are_added_once true true body); reflexivity.
Defined.

(** A request that sets a thinking budget and does not ask for
    thoughts. *)
Lemma forced_thinking_includes_thoughts_witness :
  let body :=
    Json.Obj [("contents", Json.Arr [Json.Obj [("role", Json.Str "user")]]);
              ("generationConfig",
               Json.Obj [("thinkingConfig", Json.Obj [("thinkingBudget", Json.Num 1024)])])] in
  ∃ body',
    RequestHandler.forceThinkingIn body = inr body'
    ∧ Json.getOpt "thinkingConfig" (Json.get "generationConfig" body')
      = Some (Json.Obj [("thinkingBudget", Json.Num 1024); ("includeThoughts", Json.Bool true)])
    ∧ RequestHandler.forceThinkingIn body' = inr body'.
Proof.
  intros body. eexists. split; [reflexivity|]. split; [reflexivity|].
  eapply (forced_thinking_includes_thoughts body); [reflexivity|discriminate|reflexivity].
Defined.

(** ** The agent: what it sends upstream *)

Section AgentBody.
Import Json Agent.

Lemma assoc_remove_same {V} k (fs : list (string * V)) : assoc k (remove k fs) = None.
Proof.
  induction fs as [|[k0 v] fs IH]; [done|]. unfold remove in *. cbn [List.filter fst].
  destruct (String.eqb_spec k0 k) as [->|Hne]; cbn [negb]; [done|].
  cbn [assoc]. destruct (String.eqb_spec k0 k); [done|apply IH].
Qed.

Lemma assoc_remove_ne {V} k k' (fs : list (string * V)) :
  k' ≠ k → assoc k' (remove k fs) = assoc k' fs.
Proof.
  intros Hne. induction fs as [|[k0 v] fs IH]; [done|]. unfold remove in *.
  cbn [List.filter fst assoc].
  destruct (String.eqb_spec k0 k) as [->|Hk0]; cbn [negb].
  - destruct (String.eqb_spec k k'); [congruence|apply IH].
  - cbn [assoc]. destruct (String.eqb_spec k0 k'); [done|apply IH].
Qed.

Lemma assoc_remove {V} k k' (fs : list (string * V)) :
  assoc k' (remove k fs) = if String.eqb k k' then None else assoc k' fs.
Proof.
  destruct (String.eqb_spec k k') as [->|Hne].
  - apply assoc_remove_same.
  - apply assoc_remove_ne. congruence.
Qed.

Lemma assoc_removeAll {V} keys k (fs : list (string * V)) :
  assoc k (foldl (fun fs key => remove key fs) fs keys)
  = if existsb (fun key => String.eqb key k) keys then None else assoc k fs.
Proof.
  revert fs. induction keys as [|key keys IH]; intros fs; [done|].
  cbn [foldl existsb]. rewrite IH, assoc_remove.
  destruct (String.eqb key k); cbn [orb]; [by destruct (existsb _ _)|done].
Qed.

(** What is read of a body: a property of the body, and a property of its
    [generationConfig]. *)
Definition top (k : string) (bodyObj : value) : option value := get k bodyObj.
Definition cfg (k : string) (bodyObj : value) : option value :=
  getOpt k (get "generationConfig" bodyObj).

Lemma truthy_none_or o : o = None → truthy o = false.
Proof. by intros ->. Qed.

Lemma deleteOwn_top keys k bodyObj :
  top k (deleteOwn keys bodyObj)
  = if existsb (fun key => String.eqb key k) keys then None else top k bodyObj.
Proof.
  unfold top, deleteOwn. destruct bodyObj; cbn [get]; try by destruct (existsb _ _).
  apply assoc_removeAll.
Qed.

Lemma deleteOwn_cfg keys k bodyObj :
  existsb (fun key => String.eqb key "generationConfig") keys = false →
  cfg k (deleteOwn keys bodyObj) = cfg k bodyObj.
Proof.
  intros Hk. unfold cfg. change (get "generationConfig" ?b) with (top "generationConfig" b).
  by rewrite deleteOwn_top, Hk.
Qed.

Lemma deleteConfig_top k K bodyObj :
  K ≠ "generationConfig" → top K (deleteConfig k bodyObj) = top K bodyObj.
Proof.
  intros HK. unfold top, deleteConfig. destruct bodyObj; try done.
  destruct (assoc "generationConfig" fields) as [[]|]; try done.
  destruct (truthy _); [|done]. cbn [get]. by apply assoc_assign_ne.
Qed.

Lemma deleteConfig_cfg k k' bodyObj :
  truthy (cfg k' (deleteConfig k bodyObj))
  = if String.eqb k k' then false else truthy (cfg k' bodyObj).
Proof.
  unfold cfg, deleteConfig. destruct bodyObj; cbn [get getOpt];
    try by destruct (String.eqb k k').
  destruct (assoc "generationConfig" fields) as [gc|] eqn:Hgc.
  2: { cbn [get]. rewrite Hgc. by destruct (String.eqb k k'). }
  destruct gc; cbn [get]; rewrite ?Hgc; cbn [getOpt get];
    try by destruct (String.eqb k k').
  destruct (truthy (assoc k fields0)) eqn:Hk.
  - cbn [get]. rewrite assoc_assign. cbn [getOpt get]. rewrite assoc_remove.
    by destruct (String.eqb k k').
  - cbn [get]. rewrite Hgc. cbn [getOpt get].
    destruct (String.eqb_spec k k') as [<-|]; done.
Qed.

Lemma deleteTruthy_top k K bodyObj :
  truthy (top K (deleteTruthy k bodyObj))
  = if String.eqb k K then false else truthy (top K bodyObj).
Proof.
  unfold deleteTruthy. fold (top k bodyObj).
  destruct (truthy (top k bodyObj)) eqn:Hk.
  - rewrite deleteOwn_top. cbn [existsb orb]. rewrite orb_false_r.
    by destruct (String.eqb k K).
  - destruct (String.eqb_spec k K) as [<-|]; done.
Qed.

Lemma deleteTruthy_none k K bodyObj :
  top K bodyObj = None → top K (deleteTruthy k bodyObj) = None.
Proof.
  intros H. unfold deleteTruthy. destruct (truthy _); [|done].
  rewrite deleteOwn_top, H. by destruct (existsb _ _).
Qed.

Lemma deleteTruthy_cfg k k' bodyObj :
  k ≠ "generationConfig" → cfg k' (deleteTruthy k bodyObj) = cfg k' bodyObj.
Proof.
  intros Hk. unfold deleteTruthy. destruct (truthy _); [|done].
  apply deleteOwn_cfg. cbn [existsb]. by destruct (String.eqb_spec k "generationConfig").
Qed.

(** The fields that image, embedding and TTS models do not take are
    absent. *)
Record supported (bodyObj : value) : Prop := {
  no_toolConfig : top "toolConfig" bodyObj = None;
  no_tool_config : top "tool_config" bodyObj = None;
  no_toolChoice : top "toolChoice" bodyObj = None;
  no_tools : top "tools" bodyObj = None;
  no_systemInstruction : truthy (top "systemInstruction" bodyObj) = false;
  no_thinkingConfig : truthy (cfg "thinkingConfig" bodyObj) = false;
  no_response_mime_type : truthy (cfg "response_mime_type" bodyObj) = false;
  no_responseMimeType : truthy (cfg "responseMimeType" bodyObj) = false
}.

Lemma dropUnsupported_supported bodyObj : supported (dropUnsupported bodyObj).
Proof.
  unfold dropUnsupported.
  split; rewrite ?deleteConfig_top by done; rewrite ?deleteConfig_cfg;
    cbn [String.eqb Ascii.eqb]; try done.
  1-4: apply deleteTruthy_none; rewrite deleteConfig_top by done;
       by rewrite deleteOwn_top.
  - by rewrite deleteTruthy_top.
  - rewrite deleteTruthy_cfg by done. by rewrite deleteConfig_cfg.
Qed.

Lemma supported_deleteConfig k bodyObj :
  supported bodyObj → supported (deleteConfig k bodyObj).
Proof.
  intros [H1 H2 H3 H4 H5 H6 H7 H8].
  split; rewrite ?deleteConfig_top by done; rewrite ?deleteConfig_cfg; try done;
    by destruct (String.eqb k _).
Qed.

Lemma supported_deleteOwn keys bodyObj :
  existsb (fun key => String.eqb key "generationConfig") keys = false →
  supported bodyObj → supported (deleteOwn keys bodyObj).
Proof.
  intros Hk [H1 H2 H3 H4 H5 H6 H7 H8].
  split; rewrite ?deleteOwn_top, ?deleteOwn_cfg by done; try done;
    match goal with |- context [existsb ?f keys] => by destruct (existsb f keys) end.
Qed.

Lemma forceAudio_supported bodyObj bodyObj' :
  forceAudio bodyObj = inr bodyObj' → supported bodyObj → supported bodyObj'.
Proof.
  unfold forceAudio. intros Hres Hs.
  destruct bodyObj as [| | | |items|fs]; try done.
  - by injection Hres as <-.
  - destruct Hs as [H1 H2 H3 H4 H5 H6 H7 H8]. unfold top, cfg in *. cbn [get] in *.
    destruct (truthy (assoc "generationConfig" fs)) eqn:Ht.
    + destruct (assoc "generationConfig" fs) as [gc|] eqn:Hgc; [|done].
      cbn [get] in Hres. rewrite Hgc in Hres.
      destruct gc as [| | | |items|gfs]; try done.
      * cbn in Hres. injection Hres as <-. rewrite (assign_same _ _ _ Hgc).
        split; unfold top, cfg; cbn [get]; rewrite ?Hgc; done.
      * cbn in Hres. injection Hres as <-.
        split; unfold top, cfg; cbn [get];
          rewrite ?assoc_assign, ?assoc_assign_ne by done; try done;
          cbn [getOpt get]; rewrite assoc_assign_ne by done; done.
    + cbn [setProperty get] in Hres. rewrite assoc_assign in Hres. cbn in Hres.
      injection Hres as <-. rewrite assign_assign.
      split; unfold top, cfg; cbn [get];
        rewrite ?assoc_assign, ?assoc_assign_ne by done; done.
Qed.

Lemma dropForRobotics_supported bodyObj bodyObj' :
  dropForRobotics bodyObj = Some bodyObj' → supported bodyObj → supported bodyObj'.
Proof.
  unfold dropForRobotics. intros Hres Hs.
  assert (top "tools" bodyObj = None) as Htools by apply Hs.
  unfold top in Htools.
  destruct bodyObj as [| | | | |fs]; cbn [get] in Htools; rewrite ?Htools in Hres;
    injection Hres as Hres; rewrite <- Hres;
    first [done|by apply (supported_deleteConfig "responseModalities" (Obj fs))].
Qed.

Lemma upperThinkingLevel_supported bodyObj :
  supported bodyObj → upperThinkingLevel bodyObj = bodyObj.
Proof.
  intros [_ _ _ _ _ H _ _]. unfold cfg in H. unfold upperThinkingLevel.
  destruct bodyObj as [| | | | |fs]; try done. cbn [get] in H.
  destruct (assoc "generationConfig" fs) as [[| | | | |gfs]|]; try done.
  cbn [getOpt get] in H.
  destruct (assoc "thinkingConfig" gfs) as [[| | | | |tfs]|]; try done.
Qed.

Lemma upperModalities_supported bodyObj :
  supported bodyObj → supported (upperModalities bodyObj).
Proof.
  intros Hs. unfold upperModalities.
  destruct bodyObj as [| | | | |fs]; try done.
  destruct (assoc "generationConfig" fs) as [[| | | | |gfs]|] eqn:Hgc; try done.
  pose proof Hs as [H1 H2 H3 H4 H5 H6 H7 H8].
  unfold top, cfg in H1, H2, H3, H4, H5, H6, H7, H8.
  cbn [get] in H1, H2, H3, H4, H5, H6, H7, H8.
  rewrite Hgc in H6, H7, H8. cbn [getOpt get] in H6, H7, H8.
  destruct (assoc "responseModalities" gfs) as [[| | |[|c s]|l|]|]; try done;
    (split; unfold top, cfg; cbn [get];
     rewrite ?assoc_assign, ?assoc_assign_ne by done; try done;
     cbn [getOpt get]; rewrite assoc_assign_ne by done; done).
Qed.

(** X18.  What an image, embedding or TTS model does not take never
    reaches it.  For such a model, the body the agent sends upstream, when
    it is the adapted one, has no [tools], [toolConfig], [tool_config] or
    [toolChoice], no [systemInstruction], and in its [generationConfig] no
    [thinkingConfig], [responseMimeType] or [response_mime_type]. *)
Theorem unsupported_fields_are_dropped path bodyObj adapted :
  (JS.includes path "-image" || JS.includes path "imagen"
   || JS.includes path "embedding" || JS.includes path "tts") = true →
  adaptBody path bodyObj = Some adapted →
  get "tools" adapted = None ∧ get "toolConfig" adapted = None
  ∧ get "tool_config" adapted = None ∧ get "toolChoice" adapted = None
  ∧ truthy (get "systemInstruction" adapted) = false
  ∧ truthy (getOpt "thinkingConfig" (get "generationConfig" adapted)) = false
  ∧ truthy (getOpt "responseMimeType" (get "generationConfig" adapted)) = false
  ∧ truthy (getOpt "response_mime_type" (get "generationConfig" adapted)) = false.
Proof.
  intros Hspecial Hres.
  assert (supported adapted) as [H1 H2 H3 H4 H5 H6 H7 H8]; [|by repeat split].
  unfold adaptBody in Hres.
  assert (bodyObj ≠ Null) as Hnn by (by intros ->).
  assert (∀ X : option value, match bodyObj with Null => None | _ => X end = X) as Hm
    by (intros X; by destruct bodyObj).
  rewrite Hm in Hres. clear Hm. cbv zeta in Hres. rewrite Hspecial in Hres.
  pose proof (dropUnsupported_supported bodyObj) as Hs1.
  set (body1 := dropUnsupported bodyObj) in *.
  destruct (if JS.includes path "tts" then forceAudio body1
            else inr (if JS.includes path "embedding"
                      then deleteConfig "responseModalities" body1 else body1))
    as [e|body2] eqn:H2; [done|].
  assert (supported body2) as Hs2.
  { destruct (JS.includes path "tts").
    - by eapply forceAudio_supported.
    - injection H2 as <-. destruct (JS.includes path "embedding"); [|done].
      by apply supported_deleteConfig. }
  set (body3 := if JS.includes path "computer-use" then dropForComputerUse body2 else body2)
    in *.
  assert (supported body3) as Hs3.
  { subst body3. destruct (JS.includes path "computer-use"); [|done].
    unfold dropForComputerUse. apply supported_deleteConfig.
    by apply supported_deleteOwn. }
  destruct (if JS.includes path "robotics" then dropForRobotics body3 else Some body3)
    as [body4|] eqn:H4; [|done].
  assert (supported body4) as Hs4.
  { destruct (JS.includes path "robotics").
    - by eapply dropForRobotics_supported.
    - by injection H4 as <-. }
  injection Hres as <-.
  set (body5 := if _ && _ then _ else body4).
  assert (supported body5) as Hs5.
  { subst body5. destruct (_ && _); [|done]. by apply supported_deleteOwn. }
  rewrite (upperThinkingLevel_supported body5 Hs5).
  by apply upperModalities_supported.
Qed.

Section Headers.
Variable parse : string → option value.

(** X19.  The agent never forwards the client's [host], [connection],
    [content-length], [origin], [referer], [user-agent] or [sec-fetch-*]
    headers to the upstream; every other header of the frame is passed on
    with its value, and the method is the one of the frame. *)
Theorem forbidden_headers_are_not_forwarded requestSpec payload k :
  let config := _buildRequestConfig parse requestSpec payload in
  assoc k (configHeaders config)
  = (if bool_decide (k ∈ forbiddenHeaders) then None
     else assoc k (default [] (headers payload)))
  ∧ configMethod config = method requestSpec.
Proof.
  intros config. subst config. unfold _buildRequestConfig. cbn [configHeaders configMethod].
  split; [|done]. unfold _sanitizeHeaders. rewrite assoc_removeAll.
  destruct (existsb _ forbiddenHeaders) eqn:He.
  - rewrite bool_decide_eq_true_2; [done|].
    apply existsb_exists in He as (key & Hin & Heq). apply String.eqb_eq in Heq.
    subst key. by apply list_elem_of_In.
  - rewrite bool_decide_eq_false_2; [done|]. intros Hin.
    assert (existsb (fun key => String.eqb key k) forbiddenHeaders = true); [|congruence].
    apply existsb_exists. exists k. split; [by apply list_elem_of_In|apply String.eqb_refl].
Qed.

End Headers.

End AgentBody.

(** ** Instances *)

(** A request to an image model that carries tools, a system instruction
    and a thinking configuration. *)
Lemma unsupported_fields_are_dropped_witness :
  let body :=
    Json.Obj [("contents", Json.Arr []);
              ("tools", Json.Arr [Json.Obj [("googleSearch", Json.Obj [])]]);
              ("systemInstruction", Json.Obj [("parts", Json.Arr [])]);
              ("generationConfig",
               Json.Obj [("thinkingConfig", Json.Obj [("includeThoughts", Json.Bool true)]);
                         ("responseModalities", Json.Arr [Json.Str "image"])])] in
  let path := "/v1beta/models/gemini-2.5-flash-image:generateContent" in
  Agent.adaptBody path body
  = Some (Json.Obj [("contents", Json.Arr []);
                    ("generationConfig",
                     Json.Obj [("responseModalities", Json.Arr [Json.Str "IMAGE"])])])
  ∧ Json.get "tools"
      (Json.Obj [("contents", Json.Arr []);
                 ("generationConfig",
                  Json.Obj [("responseModalities", Json.Arr [Json.Str "IMAGE"])])]) = None.
Proof.
  intros body path. split; [reflexivity|].
  by destruct (unsupported_fields_are_dropped path body _ eq_refl eq_refl) as [H _].
Defined.

(** Two dequeuers park; their timers are the pending ones. *)
Lemma pending_timers_are_parked_dequeuers_witness :
  let q := MessageQueue.run MessageQueue.Current
             [MessageQueue.Dequeue None; MessageQueue.Dequeue (Some 1000)]
             (MessageQueue.new (A:=nat) None) in
  MessageQueue.isParked 1 q = true
  ∧ MessageQueue.timers q = [(0%nat, 300000); (1%nat, 1000)].
Proof.
  intros q. split; [|reflexivity].
  destruct (pending_timers_are_parked_dequeuers (A:=nat) MessageQueue.Current
              [MessageQueue.Dequeue None; MessageQueue.Dequeue (Some 1000)] None)
    as (_ & H & _).
  apply (H 1%nat). vm_compute. right. left.
Defined.

(** The handler of [req_1] is parked when a chunk arrives for it. *)
Lemma frame_reaches_parked_handler_witness :
  let w := (ConnectionRegistry.createMessageQueue "req_1"
              (ConnectionRegistry.addConnection 0 (ConnectionRegistry.new true))).2 in
  let m := Json.Obj [("data", Json.Str "abc"); ("event_type", Json.Str "chunk");
                     ("request_id", Json.Str "req_1")] in
  ConnectionRegistry.outcomeOn 0 0
    (ConnectionRegistry._handleIncomingMessage (Some m)
       (ConnectionRegistry.dequeueOn 0 None w).2)
  = Some (MessageQueue.Resolved m).
Proof.
  intros w m.
  assert ("req_1" ≠ "") as Hne by discriminate.
  destruct (frame_reaches_parked_handler w "req_1" 0%nat (MessageQueue.new None) None 0%nat
              (ConnectionRegistry.dequeueOn 0 None w).2 m "chunk"
              eq_refl eq_refl (new_wf None) eq_refl eq_refl eq_refl eq_refl Hne
              eq_refl eq_refl) as [H _].
  apply H. unfold relayedKinds. right. left.
Defined.

(** The request is over and its queue removed when a last chunk comes. *)
Lemma late_frames_are_dropped_witness :
  let w := (ConnectionRegistry.createMessageQueue "req_1"
              (ConnectionRegistry.addConnection 0 (ConnectionRegistry.new true))).2 in
  let m := Json.Obj [("data", Json.Str "abc"); ("event_type", Json.Str "chunk");
                     ("request_id", Json.Str "req_1")] in
  ConnectionRegistry._handleIncomingMessage (Some m)
    (ConnectionRegistry.removeMessageQueue "req_1" w)
  = ConnectionRegistry.removeMessageQueue "req_1" w.
Proof.
  intros w m. destruct (late_frames_are_dropped w m) as [H _].
  apply (H "req_1"); [discriminate|reflexivity].
Defined.

(** The headers of an upstream answer as the agent relays them. *)
Lemma cors_and_length_headers_are_withheld_witness :
  let o := RequestHandler.Origin (Some "localhost:7860") false "0.0.0.0" 7860 in
  let headers := [("Content-Type", "application/json");
                  ("Access-Control-Allow-Origin", "*");
                  ("Content-Length", "42"); ("vary", "Origin")] in
  RequestHandler._setResponseHeaders o headers
  = [("Content-Type", "application/json"); ("vary", "Origin")]
  ∧ ("vary", "Origin") ∈ RequestHandler._setResponseHeaders o headers.
Proof.
  intros o headers. split; [reflexivity|].
  destruct (cors_and_length_headers_are_withheld o headers) as (_ & _ & H).
  apply H; [|reflexivity|reflexivity]. do 3 right. left.
Defined.

(** A dequeue times out while the body of a non-stream response is
    gathered, before anything was sent: the client gets a 504. *)
Lemma request_error_never_restarts_response_witness :
  let res := RequestHandler.Stream RequestHandler.freshResponse [] false
               (Some (RequestHandler.Socket false (Some true))) in
  let error := RequestHandler.ThrownQueue (MessageQueue.QueueTimeoutError "Queue timeout") in
  RequestHandler.statusCode
    (RequestHandler.sent (RequestHandler._handleRequestError "real" None error res))
  = Some (Json.Num 504).
Proof.
  intros res error.
  destruct (request_error_never_restarts_response "real" None error res) as [H _].
  by destruct (H eq_refl) as [-> _].
Defined.

(** Two pieces of a stream, then the end signal; what follows is not
    read. *)
Lemma real_stream_relays_chunks_in_order_witness :
  let res := RequestHandler.Stream RequestHandler.freshResponse [] false
               (Some (RequestHandler.Socket false (Some true))) in
  let frames := [chunkOf "req_1" "data: a"; chunkOf "req_1" "data: b"] in
  RequestHandler.written
    (RequestHandler.streamBody
       ((MessageQueue.Resolved <$> frames)
        ++ MessageQueue.Resolved streamEndFrame
           :: [MessageQueue.Resolved (chunkOf "req_1" "late")]) res).1
  = ["data: a"; "data: b"].
Proof.
  intros res frames.
  destruct (real_stream_relays_chunks_in_order frames ["data: a"; "data: b"] res)
    as [H _].
  - repeat constructor; discriminate.
  - reflexivity.
  - by destruct (H [MessageQueue.Resolved (chunkOf "req_1" "late")]) as [-> _].
Defined.

(** ** The configuration that is loaded *)

Section ConfigFacts.
Import ConfigLoader.
Variable env : gmap string string.

Lemma fromEnvInt_bound name adjust current lo :
  (∀ parsed, lo <= adjust parsed) → lo <= current →
  lo <= fromEnvInt env name adjust current.
Proof.
  intros Ha Hc. unfold fromEnvInt.
  destruct (env !! name) as [[|c s]|]; try done.
  destruct (parseInt _); [apply Ha|done].
Qed.

(** What the request handler keeps of the configuration
    ([this.maxRetries = this.config.maxRetries], and so on). *)
Definition handlerConfig (c : config) : RequestHandler.config :=
  RequestHandler.Config (maxRetries c) (retryDelay c) (Some (immediateSwitchStatusCodes c)).

(** X20.  Whatever the environment holds, the configuration that is
    loaded allows at least one attempt per request and at least 50 ms
    between attempts, its thresholds are not negative, and the WebSocket
    port is 9998.  So the attempt loop of a handler built on a loaded
    configuration never ends without an error to report. *)
Theorem loaded_settings_are_in_range :
  let c := loadConfiguration env in
  1 <= maxRetries c ∧ 50 <= retryDelay c
  ∧ 0 <= failureThreshold c ∧ 0 <= switchOnUses c ∧ 0 <= maxContexts c
  ∧ wsPort c = 9998
  ∧ ∀ requestId proxyRequest attemptEnv,
      (RequestHandler._executeRequestWithRetries (handlerConfig c) requestId proxyRequest
         attemptEnv).1 ≠ RequestHandler.Failure None.
Proof.
  intros c. subst c. cbn [maxRetries retryDelay failureThreshold switchOnUses maxContexts
                           wsPort loadConfiguration].
  assert (1 <= fromEnvInt env "MAX_RETRIES" (Z.max 1) 3) as Hmax
    by (apply fromEnvInt_bound; lia).
  split; [done|]. split; [apply fromEnvInt_bound; lia|].
  split; [apply fromEnvInt_bound; lia|]. split; [apply fromEnvInt_bound; lia|].
  split; [apply fromEnvInt_bound; lia|]. split; [done|].
  intros requestId proxyRequest attemptEnv Hres.
  unfold RequestHandler._executeRequestWithRetries in Hres.
  eapply failure_has_error in Hres as [err Herr]; [done|].
  left. cbn [handlerConfig RequestHandler.maxRetries maxRetries loadConfiguration]. lia.
Qed.

Lemma statusCodesOf_range rawCodes :
  Forall (fun n => 400 <= n <= 599) (statusCodesOf rawCodes).
Proof.
  unfold statusCodesOf. induction (JS.split "," rawCodes) as [|code l IH]; [done|].
  cbn [omap list_omap]. destruct (parseInt (trim code)) as [n|]; [|done].
  destruct (Z.leb_spec 400 n), (Z.leb_spec n 599); cbn [andb]; try done.
  constructor; [lia|done].
Qed.

(** X21.  The status codes that switch the identity at once are, whatever
    the environment holds, codes of HTTP errors, between 400 and 599; they
    are 429 and 503 when [IMMEDIATE_SWITCH_STATUS_CODES] is not set, and
    there is none when it is set to the empty string. *)
Theorem immediate_switch_codes_are_error_codes :
  let codes := immediateSwitchStatusCodes (loadConfiguration env) in
  Forall (fun n => 400 <= n <= 599) codes
  ∧ (env !! "IMMEDIATE_SWITCH_STATUS_CODES" = None → codes = [429; 503])
  ∧ (env !! "IMMEDIATE_SWITCH_STATUS_CODES" = Some "" → codes = []).
Proof.
  intros codes. subst codes. cbn [immediateSwitchStatusCodes loadConfiguration].
  split; [|split].
  - destruct (default _ _); [done|apply statusCodesOf_range].
  - intros ->. reflexivity.
  - intros ->. reflexivity.
Qed.

Lemma trimStart_head s :
  trimStart s = "" ∨ ∃ c r, trimStart s = String c r ∧ isWhiteSpace c = false.
Proof.
  induction s as [|c s IH]; [by left|]. cbn [trimStart].
  destruct (isWhiteSpace c) eqn:Hc; [done|]. right. by exists c, s.
Qed.

Lemma trimEnd_idem s : trimEnd (trimEnd s) = trimEnd s.
Proof.
  induction s as [|c s IH]; [done|]. cbn [trimEnd].
  destruct (trimEnd s) as [|c' r] eqn:Hr.
  - destruct (isWhiteSpace c) eqn:Hc; [done|]. cbn [trimEnd]. by rewrite Hc.
  - cbn [trimEnd] in *. by rewrite IH.
Qed.

Lemma trimEnd_head c s :
  isWhiteSpace c = false → ∃ r, trimEnd (String c s) = String c r.
Proof.
  intros Hc. cbn [trimEnd]. destruct (trimEnd s); [|by eexists].
  rewrite Hc. by eexists.
Qed.

Lemma trim_idem s : trim (trim s) = trim s.
Proof.
  unfold trim. destruct (trimStart_head s) as [->|(c & r & -> & Hc)]; [done|].
  destruct (trimEnd_head c r Hc) as [r' Hr]. rewrite Hr.
  cbn [trimStart]. rewrite Hc, <- Hr. apply trimEnd_idem.
Qed.

(** X22.  There is always a key to check requests against: the keys
    loaded are the entries of [API_KEYS], trimmed, without the empty ones,
    and when none is left the single key [123456], whose source is then said
    to be "Default".  No key is empty or has white space around it. *)
Theorem api_keys_are_trimmed_and_present :
  let c := loadConfiguration env in
  apiKeys c ≠ []
  ∧ Forall (fun k => k ≠ "" ∧ trim k = k) (apiKeys c)
  ∧ (apiKeySource c = "Default" ∨ apiKeySource c = "Custom")
  ∧ (apiKeySource c = "Default" → apiKeys c = ["123456"])
  ∧ (env !! "API_KEYS" = None → apiKeys c = ["123456"]).
Proof.
  intros c. subst c. cbn [apiKeys apiKeySource loadConfiguration].
  set (raw := match env !! "API_KEYS" with
              | Some (String c s) => JS.split "," (String c s)
              | _ => []
              end).
  assert (Forall (fun k => k ≠ "" ∧ trim k = k)
            (List.filter (fun k => negb (String.eqb k "")) (List.map trim raw))) as Hkeys.
  { induction raw as [|k raw IH]; [done|]. cbn [List.map List.filter].
    destruct (String.eqb_spec (trim k) ""); cbn [negb]; [done|].
    constructor; [|done]. split; [done|apply trim_idem]. }
  destruct (List.filter _ _) as [|k keys] eqn:Hf.
  - repeat split; try done; try by left.
    repeat constructor; done.
  - repeat split; try done; try by right.
    intros Hnone. subst raw. rewrite Hnone in Hf. discriminate Hf.
Qed.

End ConfigFacts.

Section EscapeHtml.
Import ConfigLoader.

(** The characters that open or close markup or an attribute value. *)
Definition isMarkup (c : ascii) : bool :=
  Ascii.eqb c "<" || Ascii.eqb c ">" || Ascii.eqb c doubleQuote || Ascii.eqb c "'".

Lemma escapeChar_avoids c : avoids isMarkup (escapeChar c) = true.
Proof.
  unfold escapeChar.
  destruct (Ascii.eqb_spec c "&"); [done|].
  destruct (Ascii.eqb_spec c "<"); [done|].
  destruct (Ascii.eqb_spec c ">"); [done|].
  destruct (Ascii.eqb_spec c doubleQuote); [done|].
  destruct (Ascii.eqb_spec c "'"); [done|].
  unfold avoids, isMarkup. cbn [allChars].
  destruct (Ascii.eqb_spec c "<"); [done|].
  destruct (Ascii.eqb_spec c ">"); [done|].
  destruct (Ascii.eqb_spec c doubleQuote); [done|].
  destruct (Ascii.eqb_spec c "'"); done.
Qed.

Lemma escapeChar_cases c :
  (c = "&"%char ∧ escapeChar c = "&amp;")
  ∨ (c = "<"%char ∧ escapeChar c = "&lt;")
  ∨ (c = ">"%char ∧ escapeChar c = "&gt;")
  ∨ (c = doubleQuote ∧ escapeChar c = "&quot;")
  ∨ (c = "'"%char ∧ escapeChar c = "&#x27;")
  ∨ (c ≠ "&"%char ∧ escapeChar c = String c "").
Proof.
  unfold escapeChar.
  destruct (Ascii.eqb_spec c "&"); [by left|].
  destruct (Ascii.eqb_spec c "<"); [by right; left|].
  destruct (Ascii.eqb_spec c ">"); [by right; right; left|].
  destruct (Ascii.eqb_spec c doubleQuote); [by right; right; right; left|].
  destruct (Ascii.eqb_spec c "'"); [by right; right; right; right; left|].
  by right; right; right; right; right.
Qed.

Lemma escapeChar_inj c d x y :
  escapeChar c +:+ x = escapeChar d +:+ y → c = d ∧ x = y.
Proof.
  destruct (escapeChar_cases c) as [[-> ->]|[[-> ->]|[[-> ->]|[[-> ->]|[[-> ->]|[Hc ->]]]]]];
  destruct (escapeChar_cases d) as [[-> ->]|[[-> ->]|[[-> ->]|[[-> ->]|[[-> ->]|[Hd ->]]]]]];
    simpl; intros H; try discriminate H; try (by injection H as ->);
    try (injection H as H1 H2; by subst).
Qed.

(** X23.  The text [escapeHtml] returns holds no [<], [>], double quote
    or apostrophe, so it cannot open a tag or leave an attribute value; and
    no two texts are escaped to the same one, so nothing is lost. *)
Theorem escaped_text_has_no_markup value :
  avoids isMarkup (escapeHtml value) = true
  ∧ ∀ other, escapeHtml value = escapeHtml other → value = other.
Proof.
  split.
  - induction value as [|c s IH]; [done|]. cbn [escapeHtml].
    by rewrite avoids_append, escapeChar_avoids, IH.
  - induction value as [|c s IH]; intros other H.
    + destruct other as [|d t]; [done|]. cbn [escapeHtml] in H.
      destruct (escapeChar_cases d) as [[_ E]|[[_ E]|[[_ E]|[[_ E]|[[_ E]|[_ E]]]]]];
        rewrite E in H; discriminate H.
    + destruct other as [|d t]; cbn [escapeHtml] in H.
      * destruct (escapeChar_cases c) as [[_ E]|[[_ E]|[[_ E]|[[_ E]|[[_ E]|[_ E]]]]]];
          rewrite E in H; discriminate H.
      * apply escapeChar_inj in H as [-> H]. by rewrite (IH t H).
Qed.

End EscapeHtml.

(** ** The seed of an identity *)

Section IdentitySeed.
Import BrowserManager.

(** The polynomial of the code units in 31, as in Java's [hashCode]. *)
Definition polynomial (str : list Z) : Z := foldl (fun h c => 31 * h + c) 0 str.

Lemma toInt32_congr a b : a mod 2 ^ 32 = b mod 2 ^ 32 → toInt32 a = toInt32 b.
Proof. unfold toInt32. by intros ->. Qed.

Lemma toInt32_mod a : toInt32 a mod 2 ^ 32 = a mod 2 ^ 32.
Proof.
  unfold toInt32. destruct (Z.ltb_spec (a mod 2 ^ 32) (2 ^ 31)).
  - by rewrite Z.mod_mod.
  - rewrite Zminus_mod, Z.mod_same, Z.sub_0_r, !Z.mod_mod by lia. done.
Qed.

Lemma toInt32_range a : - 2 ^ 31 <= toInt32 a < 2 ^ 31.
Proof.
  unfold toInt32. pose proof (Z.mod_pos_bound a (2 ^ 32) ltac:(lia)).
  destruct (Z.ltb_spec (a mod 2 ^ 32) (2 ^ 31)); lia.
Qed.

Lemma mix_spec h c : mix h c = toInt32 (31 * h + c).
Proof.
  unfold mix. apply toInt32_congr. rewrite Z.shiftl_mul_pow2 by lia.
  rewrite Zplus_mod, Zminus_mod, toInt32_mod.
  rewrite <- Zminus_mod, <- Zplus_mod. f_equal. lia.
Qed.

Lemma mix_congr h h' c : h mod 2 ^ 32 = h' mod 2 ^ 32 → mix h c = mix h' c.
Proof.
  intros H. rewrite !mix_spec. apply toInt32_congr.
  rewrite Zplus_mod, Zmult_mod, H, <- Zmult_mod, <- Zplus_mod. done.
Qed.

Lemma fold_mix str : ∀ h p,
  h mod 2 ^ 32 = p mod 2 ^ 32 →
  foldl mix h str = toInt32 (foldl (fun h c => 31 * h + c) p str)
  ∨ (str = [] ∧ foldl mix h str = h).
Proof.
  induction str as [|c str IH]; intros h p H; [by right|]. left. cbn [foldl].
  destruct (IH (mix h c) (31 * p + c)) as [->|[-> ->]].
  - rewrite mix_spec, toInt32_mod. by rewrite Zplus_mod, Zmult_mod, H, <- Zmult_mod, <- Zplus_mod.
  - done.
  - cbn [foldl]. rewrite mix_spec. apply toInt32_congr.
    by rewrite Zplus_mod, Zmult_mod, H, <- Zmult_mod, <- Zplus_mod.
Qed.

(** X24.  The seed of an identity is the absolute value of the
    polynomial hash of the code units of its name in 31, taken as a signed
    32-bit integer: the shift-and-subtract of the loop is a multiplication
    by 31 modulo 2^32.  It lies between 0 and 2^31, both included. *)
Theorem identity_seed_is_polynomial_hash str :
  _generateIdentitySeed str = Z.abs (toInt32 (polynomial str))
  ∧ 0 <= _generateIdentitySeed str <= 2 ^ 31.
Proof.
  assert (_generateIdentitySeed str = Z.abs (toInt32 (polynomial str))) as Heq.
  { unfold _generateIdentitySeed, polynomial.
    destruct (fold_mix str 0 0 eq_refl) as [->|[-> ->]]; done. }
  split; [done|]. rewrite Heq. pose proof (toInt32_range (polynomial str)). lia.
Qed.

End IdentitySeed.

(** ** The agent: the URL in fake mode, and upload paths *)

Section AgentUrl.
Import Url Agent.

Definition isColon (c : ascii) : bool := Ascii.eqb c ":".

Lemma replaceFirst_prefix s pat rep :
  JS.isPrefix pat s = true →
  JS.replaceFirst s pat rep = rep +:+ JS.substringFrom (String.length pat) s.
Proof. intros H. destruct s; cbn [JS.replaceFirst]; by rewrite H. Qed.

Lemma replaceFirst_skip c s pat rep :
  JS.isPrefix pat (String c s) = false →
  JS.replaceFirst (String c s) pat rep = String c (JS.replaceFirst s pat rep).
Proof. intros H. cbn [JS.replaceFirst]. by rewrite H. Qed.

Lemma replaceFirst_after_colon method model rest rep :
  avoids isColon model = true →
  JS.replaceFirst (model +:+ String ":" method +:+ rest) (String ":" method) rep
  = model +:+ rep +:+ rest.
Proof.
  induction model as [|c model IH]; intros Hm.
  - change ("" +:+ ?x) with x.
    rewrite replaceFirst_prefix by apply prefix_append.
    by rewrite (substringFrom_append (String ":" method) rest).
  - unfold avoids in Hm. cbn [allChars] in Hm. apply andb_true_iff in Hm as [Hc Hm].
    unfold isColon in Hc. apply negb_true_iff in Hc.
    change (String c model +:+ ?x) with (String c (model +:+ x)).
    rewrite replaceFirst_skip.
    + by rewrite IH.
    + cbn [JS.isPrefix]. by rewrite Ascii.eqb_sym, Hc.
Qed.

Lemma delete_delete k (l : params) : Url.delete k (Url.delete k l) = Url.delete k l.
Proof.
  unfold Url.delete. induction l as [|kv l IH]; [done|]. cbn [List.filter].
  destruct (negb (String.eqb kv.1 k)) eqn:E; [|done].
  cbn [List.filter]. by rewrite E, IH.
Qed.

(** X25.  In fake mode the agent asks the upstream for the whole
    response at once: the query it builds does not ask for [alt=sse] (that
    parameter is dropped, the others are kept in their order), and a path
    that names the method [:streamGenerateContent] after the model names
    [:generateContent] instead. *)
Theorem fake_mode_asks_for_whole_response spec :
  isFake spec = true →
  Url.get "alt" (queryParamsOf spec) ≠ Some "sse"
  ∧ Url.delete "alt" (queryParamsOf spec) = Url.delete "alt" (query_params spec)
  ∧ (∀ model rest,
       path spec = Some (model +:+ ":streamGenerateContent" +:+ rest) →
       avoids isColon model = true →
       finalPathOf spec = model +:+ ":generateContent" +:+ rest).
Proof.
  intros Hfake. unfold queryParamsOf, finalPathOf. rewrite Hfake. cbn [andb].
  split; [|split].
  - destruct (has "alt" (query_params spec)) eqn:Hhas; cbn [andb]; [|].
    + destruct (bool_decide _) eqn:Hd.
      * by rewrite get_delete_same.
      * by apply bool_decide_eq_false in Hd.
    + intros Hget. rewrite (get_has _ _ _ Hget) in Hhas. discriminate Hhas.
  - destruct (_ && _); [apply delete_delete|done].
  - intros model rest Hpath Hmodel. rewrite Hpath.
    assert (JS.or_string (Some (model +:+ ":streamGenerateContent" +:+ rest)) ""
            = model +:+ ":streamGenerateContent" +:+ rest) as ->.
    { destruct model; [done|done]. }
    rewrite includes_append_r by apply includes_self.
    by apply (replaceFirst_after_colon "streamGenerateContent").
Qed.

Lemma indexOf_prefix sub s : ∀ n,
  JS.indexOf s sub = Some n → JS.isPrefix sub (JS.substringFrom n s) = true.
Proof.
  induction s as [|c s IH]; intros n; cbn [JS.indexOf].
  - destruct (JS.isPrefix sub "") eqn:E; [|done]. intros [= <-]. done.
  - destruct (JS.isPrefix sub (String c s)) eqn:E.
    + intros [= <-]. done.
    + destruct (JS.indexOf s sub) as [m|] eqn:Hm; [|done].
      intros [= <-]. cbn [JS.substringFrom]. by apply IH.
Qed.

Lemma prefix_indexOf sub s : JS.isPrefix sub s = true → JS.indexOf s sub = Some 0%nat.
Proof. intros H. destruct s; cbn [JS.indexOf]; by rewrite H. Qed.

Lemma hasUpload_indexOf s :
  hasUploadVersionFiles s = true →
  ∃ n, JS.indexOf s "upload/" = Some n
       ∧ hasUploadVersionFiles (JS.substringFrom n s) = true.
Proof.
  induction s as [|c s IH]; intros H.
  - cbn in H. discriminate H.
  - cbn [JS.indexOf]. destruct (JS.isPrefix "upload/" (String c s)) eqn:E.
    + by exists 0%nat.
    + cbn [hasUploadVersionFiles] in H. rewrite E in H. cbn [andb orb] in H.
      destruct (IH H) as (n & Hn & Hh). exists (S n). rewrite Hn. done.
Qed.

Lemma uploadPath_upload method s :
  hasUploadVersionFiles s = true → JS.isPrefix "upload/" s = true →
  uploadPath method s = s.
Proof.
  intros Hh Hp. unfold uploadPath. by rewrite Hh, (prefix_indexOf _ _ Hp).
Qed.

(** X26.  The correction of upload paths is stable: a corrected path is
    left as it is when it is corrected again.  A path that holds
    [upload/v1.../files] is cut to begin at its first [upload/], and a POST
    to [v1.../files] gets [upload/] in front. *)
Theorem upload_path_correction_is_stable method cleanPath :
  uploadPath method (uploadPath method cleanPath) = uploadPath method cleanPath
  ∧ (hasUploadVersionFiles cleanPath = true →
       JS.isPrefix "upload/" (uploadPath method cleanPath) = true)
  ∧ (hasUploadVersionFiles cleanPath = false → method = "POST" →
       startsWithVersionFiles cleanPath = true →
       uploadPath method cleanPath = "upload/" +:+ cleanPath).
Proof.
  assert (hasUploadVersionFiles cleanPath = true →
          ∃ n, uploadPath method cleanPath = JS.substringFrom n cleanPath
               ∧ JS.isPrefix "upload/" (JS.substringFrom n cleanPath) = true
               ∧ hasUploadVersionFiles (JS.substringFrom n cleanPath) = true) as Hcut.
  { intros Hh. destruct (hasUpload_indexOf _ Hh) as (n & Hn & Hh').
    exists n. split; [|split; [by apply indexOf_prefix|done]].
    unfold uploadPath. rewrite Hh, Hn. by destruct n. }
  split; [|split].
  - destruct (hasUploadVersionFiles cleanPath) eqn:Hh.
    + destruct (Hcut eq_refl) as (n & -> & Hp & Hh'). by apply uploadPath_upload.
    + destruct (String.eqb method "POST" && startsWithVersionFiles cleanPath) eqn:Hpost.
      * assert (uploadPath method cleanPath = "upload/" +:+ cleanPath) as ->
          by (unfold uploadPath; by rewrite Hh, Hpost).
        apply andb_true_iff in Hpost as [_ Hs]. apply uploadPath_upload.
        -- assert (JS.isPrefix "upload/" ("upload/" +:+ cleanPath)
                   && startsWithVersionFiles (JS.substringFrom 7 ("upload/" +:+ cleanPath))
                   = true) as Hhead.
           { rewrite prefix_append. change 7%nat with (String.length "upload/").
             by rewrite substringFrom_append, Hs. }
           destruct ("upload/" +:+ cleanPath); [done|].
           cbn [hasUploadVersionFiles]. by rewrite Hhead.
        -- apply prefix_append.
      * assert (uploadPath method cleanPath = cleanPath) as Hsame
          by (unfold uploadPath; by rewrite Hh, Hpost).
        by rewrite !Hsame.
  - intros Hh. by destruct (Hcut Hh) as (n & -> & Hp & _).
  - intros Hh -> Hs. unfold uploadPath. by rewrite Hh, Hs.
Qed.

End AgentUrl.

Section UnknownMode.
Import Json RequestHandler.

(** X27.  The agent relays the body in the modes [real] and [fake] only.
    For any other streaming mode it sends just the end of the stream,
    whatever the upstream answered, and the real-stream handler, which is
    the one that serves every mode but [fake], then ends the response
    without having written anything. *)
Theorem other_streaming_mode_loses_body mode operationId chunks res :
  mode ≠ "" → mode ≠ "real" → mode ≠ "fake" →
  writableEnded (sent res) = false →
  Agent.relayBody (Some mode) operationId chunks = [Agent._transmitStreamEnd operationId]
  ∧ ∀ rest,
      let r := streamBody (MessageQueue.Resolved streamEndFrame :: rest) res in
      written r.1 = written res ∧ writableEnded (sent r.1) = true ∧ r.2 = Finished.
Proof.
  intros Hne Hreal Hfake Hend. split.
  - unfold Agent.relayBody.
    assert (JS.or_string (Some mode) "fake" = mode) as -> by (by destruct mode).
    destruct (String.eqb_spec mode "real"); [done|].
    destruct (String.eqb_spec mode "fake"); done.
  - intros rest r. subst r. unfold streamBody. rewrite relayChunks_end.
    cbn [fst snd]. by rewrite Hend.
Qed.

End UnknownMode.

Lemma fake_mode_asks_for_whole_response_witness :
  let spec := Agent.RequestSpec None
                (Some "/v1beta/models/gemini-2.5-pro:streamGenerateContent")
                [("alt", "sse"); ("key", "k")] (Some "fake") (Some "POST") in
  Agent.builtPathAndQuery spec = "/v1beta/models/gemini-2.5-pro:generateContent?key=k"
  ∧ Agent.finalPathOf spec = "/v1beta/models/gemini-2.5-pro" +:+ ":generateContent" +:+ "".
Proof.
  intros spec. split; [reflexivity|].
  destruct (fake_mode_asks_for_whole_response spec eq_refl) as (_ & _ & H).
  apply (H "/v1beta/models/gemini-2.5-pro" ""); reflexivity.
Defined.

Lemma upload_path_correction_is_stable_witness :
  Agent.uploadPath "POST" "v1beta/files" = "upload/" +:+ "v1beta/files"
  ∧ Agent.uploadPath "POST" (Agent.uploadPath "POST" "v1beta/files")
    = Agent.uploadPath "POST" "v1beta/files".
Proof.
  destruct (upload_path_correction_is_stable "POST" "v1beta/files") as (H1 & _ & H3).
  split; [|exact H1]. apply H3; reflexivity.
Defined.

Lemma other_streaming_mode_loses_body_witness :
  Agent.relayBody (Some "REAL") "req_1" ["data: a"; "data: b"]
  = [Agent._transmitStreamEnd "req_1"].
Proof.
  destruct (other_streaming_mode_loses_body "REAL" "req_1" ["data: a"; "data: b"]
              (RequestHandler.Stream RequestHandler.freshResponse [] false None))
    as [H _]; [discriminate|discriminate|discriminate|reflexivity|exact H].
Defined.

Lemma immediate_switch_codes_are_error_codes_witness :
  let env : gmap string string :=
    {[ "IMMEDIATE_SWITCH_STATUS_CODES" := "429, 503 ,200,abc,599x" ]} in
  ConfigLoader.immediateSwitchStatusCodes (ConfigLoader.loadConfiguration env)
  = [429; 503; 599]
  ∧ ConfigLoader.immediateSwitchStatusCodes (ConfigLoader.loadConfiguration ∅)
    = [429; 503].
Proof.
  intros env. split; [by vm_compute|].
  destruct (immediate_switch_codes_are_error_codes ∅) as (_ & H & _).
  apply H. apply lookup_empty.
Defined.

Lemma api_keys_are_trimmed_and_present_witness :
  ConfigLoader.apiKeys (ConfigLoader.loadConfiguration ∅) = ["123456"].
Proof.
  destruct (api_keys_are_trimmed_and_present ∅) as (_ & _ & _ & _ & H).
  apply H. apply lookup_empty.
Defined.

Lemma escaped_text_has_no_markup_witness :
  ConfigLoader.escapeHtml "<b>Tom & Jerry's</b>"
  = "&lt;b&gt;Tom &amp; Jerry&#x27;s&lt;/b&gt;"
  ∧ ∀ other, ConfigLoader.escapeHtml other = "&lt;b&gt;" → other = "<b>".
Proof.
  split; [reflexivity|]. intros other H. symmetry.
  destruct (escaped_text_has_no_markup "<b>") as [_ Hinj].
  apply Hinj. by rewrite H.
Defined.

(** Two sockets close one after the other: the timer of the first closing
    is replaced. *)
Lemma grace_timer_is_unique_witness :
  let w := history [SocketOpened 0; SocketOpened 1; SocketClosed 0; SocketClosed 1]
                   (ConnectionRegistry.new false) in
  ConnectionRegistry.graceTimers w = [1%nat]
  ∧ ConnectionRegistry.isInGracePeriod w = true.
Proof.
  intros w.
  destruct (grace_timer_is_unique
              [SocketOpened 0; SocketOpened 1; SocketClosed 0; SocketClosed 1])
    as (H1 & _ & H3).
  split; [exact H1|]. apply H3. rewrite H1. discriminate.
Defined.

(** An environment that asks for no attempt at all and a negative delay. *)
Lemma loaded_settings_are_in_range_witness :
  let env : gmap string string := {[ "MAX_RETRIES" := "0"; "RETRY_DELAY" := "-5" ]} in
  ConfigLoader.maxRetries (ConfigLoader.loadConfiguration env) = 1
  ∧ ConfigLoader.retryDelay (ConfigLoader.loadConfiguration env) = 50
  ∧ (RequestHandler._executeRequestWithRetries
       (handlerConfig (ConfigLoader.loadConfiguration env)) "req_1" [] silentBrowser).1
    ≠ RequestHandler.Failure None.
Proof.
  intros env. split; [by vm_compute|]. split; [by vm_compute|].
  destruct (loaded_settings_are_in_range env) as (_ & _ & _ & _ & _ & _ & H).
  apply H.
Defined.
